(** * Gantry_setup_2.2.py: grid planner, manual moves and imaging sequencer

    A shallow embedding of the parts of [IntegratedGantryCameraGUI] that
    plan the imaging grid ([calculate_grid]), command the gantry
    ([move_gantry], [goto_home], [return_to_start_position]) and run the
    snake-pattern imaging sequence ([_imaging_thread]).

    - Python [float] is IEEE 754 binary64; it is modelled by the Standard
      Library's executable specification [SpecFloat] at precision 53 and
      maximal exponent 1024, so every rounding of the source is kept.
    - Python [int] is [Z].
    - The hardware and the user are an environment: every observation the
      program makes of them (a reply of the motion controller, a serial
      write that fails, the stop button) is read from an oracle indexed by
      the number of observations made so far. *)

From Stdlib Require Import ZArith List String Ascii Bool Lia.
From Stdlib Require Import SpecFloat DecimalString.
From Stdlib Require Import QArith Qround.
Import ListNotations.

Local Open Scope Z_scope.

(** ** Python floats *)

Module PyFloat.

Definition prec : Z := 53.
Definition emax : Z := 1024.

Definition float := spec_float.

(** [float(n)] for an [int] that a double represents, and the implicit
    conversion of an [int] operand of a float operation. *)
Definition of_int (n : Z) : float := binary_normalize prec emax n 0 false.

Definition fmul : float -> float -> float := SFmul prec emax.
Definition fsub : float -> float -> float := SFsub prec emax.
Definition fdiv : float -> float -> float := SFdiv prec emax.
Definition flt : float -> float -> bool := SFltb.
Definition feq : float -> float -> bool := SFeqb.

Definition one : float := of_int 1.
Definition zero : float := S754_zero false.

(** The exceptions the arithmetic of [calculate_grid] can raise. *)
Inductive pyexn := ZeroDivisionError | OverflowError | ValueError.

Inductive res (A : Type) :=
| Ok (a : A)
| Err (e : pyexn).
Arguments Ok {A} a.
Arguments Err {A} e.

Definition bind {A B} (r : res A) (k : A -> res B) : res B :=
  match r with
  | Ok a => k a
  | Err e => Err e
  end.

Definition is_zero (x : float) : bool :=
  match x with
  | S754_zero _ => true
  | _ => false
  end.

Definition is_finite (x : float) : bool :=
  match x with
  | S754_zero _ | S754_finite _ _ _ => true
  | _ => false
  end.

(** [a / b] on floats: CPython tests [b == 0.0] first, whatever [a] is. *)
Definition truediv (a b : float) : res float :=
  if is_zero b then Err ZeroDivisionError else Ok (fdiv a b).

(** The integer [m * 2^e] rounded up, for [m] of either sign. *)
Definition ceil_scaled (m e : Z) : Z :=
  match e with
  | Zneg p => - ((- m) / 2 ^ Zpos p)
  | _ => m * 2 ^ e
  end.

(** The integer [m * 2^e] rounded towards zero. *)
Definition trunc_scaled (m e : Z) : Z :=
  match e with
  | Zneg p => Z.quot m (2 ^ Zpos p)
  | _ => m * 2 ^ e
  end.

(** [math.ceil(x)]: an [int]; infinities and NaN have none. *)
Definition ceil (x : float) : res Z :=
  match x with
  | S754_zero _ => Ok 0
  | S754_finite s m e => Ok (ceil_scaled (cond_Zopp s (Zpos m)) e)
  | S754_infinity _ => Err OverflowError
  | S754_nan => Err ValueError
  end.

(** [int(x)] on a float. *)
Definition to_int (x : float) : res Z :=
  match x with
  | S754_zero _ => Ok 0
  | S754_finite s m e => Ok (trunc_scaled (cond_Zopp s (Zpos m)) e)
  | S754_infinity _ => Err OverflowError
  | S754_nan => Err ValueError
  end.

(** A decimal literal [n / 10^k] as [float()] reads it: the double
    nearest to the quotient, for [n] and [10^k] that doubles represent. *)
Definition of_decimal (n : Z) (k : Z) : float :=
  fdiv (of_int n) (of_int (10 ^ k)).

End PyFloat.
Import PyFloat.

Declare Scope res_scope.
Delimit Scope res_scope with res.
Notation "x <- r ;; k" := (PyFloat.bind r (fun x => k))
  (at level 61, r at next level, right associativity) : res_scope.

(** ** The application state *)

(** The four attributes [calculate_grid] creates together; before the
    first successful calculation the object has none of them. *)
Record steps := {
  x_inc : Z;
  y_inc : Z;
  x_steps : Z;
  y_steps : Z
}.

Record gui := {
  connected : bool;
  camera_connected : bool;
  ser : bool;                    (* [self.ser] is an open port *)
  arduino_mega : bool;           (* [self.arduino_mega] is an open port *)
  step_size : Z;
  current_x : Z;
  current_y : Z;
  start_x : option Z;
  start_y : option Z;
  x_dimension : Z;
  y_dimension : Z;
  overlap : float;
  fov_width_mm : float;
  x_limit : Z;
  y_limit : Z;
  grid : option steps;
  auto_capture : bool;
  is_imaging : bool;
  stop_imaging : bool;
  waiting_for_photo : bool;
  status_var : string;
  camera_info_var : string
}.

(** Constants of [__init__] that nothing reassigns. *)
Definition camera_width_px : Z := 9504.
Definition camera_height_px : Z := 6336.
Definition x_scale : Z := 2500.
Definition y_scale : Z := 6250.

(** The state [__init__] builds when no indicator answers on its port
    ([connect_arduino_mega] then leaves [self.arduino_mega] at [None]). *)
Definition init : gui := {|
  connected := false; camera_connected := false; ser := false;
  arduino_mega := false;
  step_size := 5000; current_x := 0; current_y := 0;
  start_x := None; start_y := None;
  x_dimension := 500000; y_dimension := 500000;
  overlap := of_decimal 2 1; fov_width_mm := of_decimal 26829 2;
  x_limit := 1660768; y_limit := 3084965;
  grid := None;
  auto_capture := true; is_imaging := false; stop_imaging := false;
  waiting_for_photo := false;
  status_var := "Disconnected"; camera_info_var := "Camera not connected"
|}.

Definition set_status_var (s : string) (g : gui) : gui := {|
  connected := connected g; camera_connected := camera_connected g;
  ser := ser g; arduino_mega := arduino_mega g;
  step_size := step_size g; current_x := current_x g; current_y := current_y g;
  start_x := start_x g; start_y := start_y g;
  x_dimension := x_dimension g; y_dimension := y_dimension g;
  overlap := overlap g; fov_width_mm := fov_width_mm g;
  x_limit := x_limit g; y_limit := y_limit g; grid := grid g;
  auto_capture := auto_capture g; is_imaging := is_imaging g;
  stop_imaging := stop_imaging g; waiting_for_photo := waiting_for_photo g;
  status_var := s; camera_info_var := camera_info_var g
|}.

Definition set_camera_info_var (s : string) (g : gui) : gui := {|
  connected := connected g; camera_connected := camera_connected g;
  ser := ser g; arduino_mega := arduino_mega g;
  step_size := step_size g; current_x := current_x g; current_y := current_y g;
  start_x := start_x g; start_y := start_y g;
  x_dimension := x_dimension g; y_dimension := y_dimension g;
  overlap := overlap g; fov_width_mm := fov_width_mm g;
  x_limit := x_limit g; y_limit := y_limit g; grid := grid g;
  auto_capture := auto_capture g; is_imaging := is_imaging g;
  stop_imaging := stop_imaging g; waiting_for_photo := waiting_for_photo g;
  status_var := status_var g; camera_info_var := s
|}.

Definition set_stop_imaging (b : bool) (g : gui) : gui := {|
  connected := connected g; camera_connected := camera_connected g;
  ser := ser g; arduino_mega := arduino_mega g;
  step_size := step_size g; current_x := current_x g; current_y := current_y g;
  start_x := start_x g; start_y := start_y g;
  x_dimension := x_dimension g; y_dimension := y_dimension g;
  overlap := overlap g; fov_width_mm := fov_width_mm g;
  x_limit := x_limit g; y_limit := y_limit g; grid := grid g;
  auto_capture := auto_capture g; is_imaging := is_imaging g;
  stop_imaging := b; waiting_for_photo := waiting_for_photo g;
  status_var := status_var g; camera_info_var := camera_info_var g
|}.

Definition set_is_imaging (b : bool) (g : gui) : gui := {|
  connected := connected g; camera_connected := camera_connected g;
  ser := ser g; arduino_mega := arduino_mega g;
  step_size := step_size g; current_x := current_x g; current_y := current_y g;
  start_x := start_x g; start_y := start_y g;
  x_dimension := x_dimension g; y_dimension := y_dimension g;
  overlap := overlap g; fov_width_mm := fov_width_mm g;
  x_limit := x_limit g; y_limit := y_limit g; grid := grid g;
  auto_capture := auto_capture g; is_imaging := b;
  stop_imaging := stop_imaging g; waiting_for_photo := waiting_for_photo g;
  status_var := status_var g; camera_info_var := camera_info_var g
|}.

Definition set_waiting_for_photo (b : bool) (g : gui) : gui := {|
  connected := connected g; camera_connected := camera_connected g;
  ser := ser g; arduino_mega := arduino_mega g;
  step_size := step_size g; current_x := current_x g; current_y := current_y g;
  start_x := start_x g; start_y := start_y g;
  x_dimension := x_dimension g; y_dimension := y_dimension g;
  overlap := overlap g; fov_width_mm := fov_width_mm g;
  x_limit := x_limit g; y_limit := y_limit g; grid := grid g;
  auto_capture := auto_capture g; is_imaging := is_imaging g;
  stop_imaging := stop_imaging g; waiting_for_photo := b;
  status_var := status_var g; camera_info_var := camera_info_var g
|}.

(** [self.overlap] and [self.fov_width_mm], assigned while the entries are
    read. *)
Definition set_optics (o w : float) (g : gui) : gui := {|
  connected := connected g; camera_connected := camera_connected g;
  ser := ser g; arduino_mega := arduino_mega g;
  step_size := step_size g; current_x := current_x g; current_y := current_y g;
  start_x := start_x g; start_y := start_y g;
  x_dimension := x_dimension g; y_dimension := y_dimension g;
  overlap := o; fov_width_mm := w;
  x_limit := x_limit g; y_limit := y_limit g; grid := grid g;
  auto_capture := auto_capture g; is_imaging := is_imaging g;
  stop_imaging := stop_imaging g; waiting_for_photo := waiting_for_photo g;
  status_var := status_var g; camera_info_var := camera_info_var g
|}.

Definition set_x_dimension (n : Z) (g : gui) : gui := {|
  connected := connected g; camera_connected := camera_connected g;
  ser := ser g; arduino_mega := arduino_mega g;
  step_size := step_size g; current_x := current_x g; current_y := current_y g;
  start_x := start_x g; start_y := start_y g;
  x_dimension := n; y_dimension := y_dimension g;
  overlap := overlap g; fov_width_mm := fov_width_mm g;
  x_limit := x_limit g; y_limit := y_limit g; grid := grid g;
  auto_capture := auto_capture g; is_imaging := is_imaging g;
  stop_imaging := stop_imaging g; waiting_for_photo := waiting_for_photo g;
  status_var := status_var g; camera_info_var := camera_info_var g
|}.

Definition set_y_dimension (n : Z) (g : gui) : gui := {|
  connected := connected g; camera_connected := camera_connected g;
  ser := ser g; arduino_mega := arduino_mega g;
  step_size := step_size g; current_x := current_x g; current_y := current_y g;
  start_x := start_x g; start_y := start_y g;
  x_dimension := x_dimension g; y_dimension := n;
  overlap := overlap g; fov_width_mm := fov_width_mm g;
  x_limit := x_limit g; y_limit := y_limit g; grid := grid g;
  auto_capture := auto_capture g; is_imaging := is_imaging g;
  stop_imaging := stop_imaging g; waiting_for_photo := waiting_for_photo g;
  status_var := status_var g; camera_info_var := camera_info_var g
|}.

Definition set_grid (s : steps) (g : gui) : gui := {|
  connected := connected g; camera_connected := camera_connected g;
  ser := ser g; arduino_mega := arduino_mega g;
  step_size := step_size g; current_x := current_x g; current_y := current_y g;
  start_x := start_x g; start_y := start_y g;
  x_dimension := x_dimension g; y_dimension := y_dimension g;
  overlap := overlap g; fov_width_mm := fov_width_mm g;
  x_limit := x_limit g; y_limit := y_limit g; grid := Some s;
  auto_capture := auto_capture g; is_imaging := is_imaging g;
  stop_imaging := stop_imaging g; waiting_for_photo := waiting_for_photo g;
  status_var := status_var g; camera_info_var := camera_info_var g
|}.

(** [self.connected], set by the connection thread. *)
Definition set_connected (b : bool) (g : gui) : gui := {|
  connected := b; camera_connected := camera_connected g;
  ser := ser g; arduino_mega := arduino_mega g;
  step_size := step_size g; current_x := current_x g; current_y := current_y g;
  start_x := start_x g; start_y := start_y g;
  x_dimension := x_dimension g; y_dimension := y_dimension g;
  overlap := overlap g; fov_width_mm := fov_width_mm g;
  x_limit := x_limit g; y_limit := y_limit g; grid := grid g;
  auto_capture := auto_capture g; is_imaging := is_imaging g;
  stop_imaging := stop_imaging g; waiting_for_photo := waiting_for_photo g;
  status_var := status_var g; camera_info_var := camera_info_var g
|}.

(** [self.camera_connected] and [self.ser], set together by the camera
    connection. *)
Definition set_camera (b : bool) (g : gui) : gui := {|
  connected := connected g; camera_connected := b;
  ser := b; arduino_mega := arduino_mega g;
  step_size := step_size g; current_x := current_x g; current_y := current_y g;
  start_x := start_x g; start_y := start_y g;
  x_dimension := x_dimension g; y_dimension := y_dimension g;
  overlap := overlap g; fov_width_mm := fov_width_mm g;
  x_limit := x_limit g; y_limit := y_limit g; grid := grid g;
  auto_capture := auto_capture g; is_imaging := is_imaging g;
  stop_imaging := stop_imaging g; waiting_for_photo := waiting_for_photo g;
  status_var := status_var g; camera_info_var := camera_info_var g
|}.

(** [self.current_x] and [self.current_y], as [_poll_position] stores the
    reported position. *)
Definition set_current (x y : Z) (g : gui) : gui := {|
  connected := connected g; camera_connected := camera_connected g;
  ser := ser g; arduino_mega := arduino_mega g;
  step_size := step_size g; current_x := x; current_y := y;
  start_x := start_x g; start_y := start_y g;
  x_dimension := x_dimension g; y_dimension := y_dimension g;
  overlap := overlap g; fov_width_mm := fov_width_mm g;
  x_limit := x_limit g; y_limit := y_limit g; grid := grid g;
  auto_capture := auto_capture g; is_imaging := is_imaging g;
  stop_imaging := stop_imaging g; waiting_for_photo := waiting_for_photo g;
  status_var := status_var g; camera_info_var := camera_info_var g
|}.

(** [self.start_x] and [self.start_y]. *)
Definition set_start (x y : Z) (g : gui) : gui := {|
  connected := connected g; camera_connected := camera_connected g;
  ser := ser g; arduino_mega := arduino_mega g;
  step_size := step_size g; current_x := current_x g; current_y := current_y g;
  start_x := Some x; start_y := Some y;
  x_dimension := x_dimension g; y_dimension := y_dimension g;
  overlap := overlap g; fov_width_mm := fov_width_mm g;
  x_limit := x_limit g; y_limit := y_limit g; grid := grid g;
  auto_capture := auto_capture g; is_imaging := is_imaging g;
  stop_imaging := stop_imaging g; waiting_for_photo := waiting_for_photo g;
  status_var := status_var g; camera_info_var := camera_info_var g
|}.

(** [self.x_limit] and [self.y_limit]. *)
Definition set_limits (x y : Z) (g : gui) : gui := {|
  connected := connected g; camera_connected := camera_connected g;
  ser := ser g; arduino_mega := arduino_mega g;
  step_size := step_size g; current_x := current_x g; current_y := current_y g;
  start_x := start_x g; start_y := start_y g;
  x_dimension := x_dimension g; y_dimension := y_dimension g;
  overlap := overlap g; fov_width_mm := fov_width_mm g;
  x_limit := x; y_limit := y; grid := grid g;
  auto_capture := auto_capture g; is_imaging := is_imaging g;
  stop_imaging := stop_imaging g; waiting_for_photo := waiting_for_photo g;
  status_var := status_var g; camera_info_var := camera_info_var g
|}.

(** The capture-mode checkbox. *)
Definition set_auto_capture (b : bool) (g : gui) : gui := {|
  connected := connected g; camera_connected := camera_connected g;
  ser := ser g; arduino_mega := arduino_mega g;
  step_size := step_size g; current_x := current_x g; current_y := current_y g;
  start_x := start_x g; start_y := start_y g;
  x_dimension := x_dimension g; y_dimension := y_dimension g;
  overlap := overlap g; fov_width_mm := fov_width_mm g;
  x_limit := x_limit g; y_limit := y_limit g; grid := grid g;
  auto_capture := b; is_imaging := is_imaging g;
  stop_imaging := stop_imaging g; waiting_for_photo := waiting_for_photo g;
  status_var := status_var g; camera_info_var := camera_info_var g
|}.

(** [set_start_position] *)
Definition set_start_position (g : gui) : gui :=
  if negb (connected g) then g
  else
    set_status_var
      ("Start position set: X=" ++ NilZero.string_of_int (Z.to_int (current_x g))
       ++ ", Y=" ++ NilZero.string_of_int (Z.to_int (current_y g)))
      (set_start (current_x g) (current_y g) g).

(** [apply_safety_limits], on the two entries as [int()] read them and the
    answer to the confirmation dialog. *)
Definition apply_safety_limits (new_x_limit new_y_limit : Z) (confirmed : bool)
    (g : gui) : gui :=
  if (new_x_limit <=? 0) || (new_y_limit <=? 0) then g
  else if confirmed then set_limits new_x_limit new_y_limit g
  else g.

(** ** The grid planner: [calculate_grid] *)

(** How a call of [calculate_grid] ends: the grid is stored; the
    [except ValueError] clause shows the input-error dialog; or an exception
    that clause does not name leaves the method. *)
Inductive outcome :=
| Planned
| InputError
| Raised (e : pyexn).

Definition handler (e : pyexn) : outcome :=
  match e with
  | ValueError => InputError
  | _ => Raised e
  end.

(** [self.overlap = float(self.overlap_var.get()) / 100] *)
Definition overlap_of (overlap_pct : float) : float :=
  fdiv overlap_pct (of_int 100).

(** [aspect_ratio = self.camera_height_px / self.camera_width_px] *)
Definition aspect_ratio : float :=
  fdiv (of_int camera_height_px) (of_int camera_width_px).

Definition x_step_mm (o w : float) : float := fmul w (fsub (of_int 1) o).

Definition y_step_mm (o w : float) : float :=
  fmul (fmul w aspect_ratio) (fsub (of_int 1) o).

(** Lines 1097-1102, in the order Python evaluates them. *)
Definition plan_steps (o w x_dimension_mm y_dimension_mm : float) : res steps :=
  (qx <- truediv x_dimension_mm (x_step_mm o w) ;;
   cx <- ceil qx ;;
   qy <- truediv y_dimension_mm (y_step_mm o w) ;;
   cy <- ceil qy ;;
   ix <- to_int (fmul (x_step_mm o w) (of_int x_scale)) ;;
   iy <- to_int (fmul (y_step_mm o w) (of_int y_scale)) ;;
   Ok {| x_inc := ix; y_inc := iy; x_steps := cx + 1; y_steps := cy + 1 |})%res.

(** The safety warning of lines 1079-1086; it changes nothing else. *)
Definition area_warning (g : gui) : bool :=
  match start_x g, start_y g with
  | Some sx, Some sy =>
      (sx + x_dimension g >? x_limit g) || (sy + y_dimension g >? y_limit g)
  | _, _ => false
  end.

(** [calculate_grid], on the four entries as [float()] read them (an entry
    [float()] rejects raises [ValueError] before anything is computed).
    Returns the new state, whether the safety warning was shown, and how
    the call ended. *)
Definition calculate_grid (g : gui)
    (overlap_pct x_dimension_mm y_dimension_mm fov_width : float)
    : gui * bool * outcome :=
  let o := overlap_of overlap_pct in
  let g1 := set_optics o fov_width g in
  match to_int (fmul x_dimension_mm (of_int x_scale)) with
  | Err e => (g1, false, handler e)
  | Ok xd =>
      let g2 := set_x_dimension xd g1 in
      match to_int (fmul y_dimension_mm (of_int y_scale)) with
      | Err e => (g2, false, handler e)
      | Ok yd =>
          let g3 := set_y_dimension yd g2 in
          let warned := area_warning g3 in
          match plan_steps o fov_width x_dimension_mm y_dimension_mm with
          | Err e => (g3, warned, handler e)
          | Ok s =>
              (set_status_var "Grid calculation complete" (set_grid s g3),
               warned, Planned)
          end
      end
  end.

(** The closed form of the specification, in exact rational arithmetic:
    step distance [fov * (1 - overlap)], step count
    [ceil(area / step) + 1], encoder increment the whole part of
    [step * scale]. *)
Definition closed_form_step (fov o : Q) : Q := (fov * (1 - o))%Q.

Definition closed_form_count (area step : Q) : Z := Qceiling (area / step) + 1.

Definition closed_form_inc (step : Q) (scale : Z) : Z :=
  Qfloor (step * inject_Z scale).

Definition closed_form_aspect : Q := (6336 # 9504)%Q.

(** ** Ranges of floats *)

(** A float that is not below zero: a zero, a positive number, positive
    infinity, or NaN (which every later conversion rejects). *)
Definition not_negative (x : float) : Prop :=
  match x with
  | S754_finite s _ _ | S754_infinity s => s = false
  | _ => True
  end.

(** The mantissa of a finite float fits the precision. *)
Definition mantissa_fits (x : float) : Prop :=
  match x with
  | S754_finite _ m _ => Zpos m < 2 ^ prec
  | _ => True
  end.

(** A finite float other than a zero. *)
Definition finite_nonzero (x : float) : bool :=
  match x with
  | S754_finite _ _ _ => true
  | _ => false
  end.

(** ** The environment: hardware and user *)

(** What the program observes at one point of its run. Each field is read
    by the one kind of observation it belongs to. *)
Record obs := {
  o_stop : bool;               (* stop or emergency stop was pressed since
                                  the flag was last read *)
  o_continue : bool;           (* Continue was pressed in the photo prompt *)
  o_gantry : string + string;  (* [GCommand]: the reply, or the text of the
                                  exception it raises *)
  o_serial : option string;    (* the serial port raises, with this text *)
  o_in_waiting : option string;(* bytes waiting on the serial port, decoded
                                  and stripped *)
  o_arduino : option string;   (* the write to the indicator raises *)
  o_makedirs : option string   (* [os.makedirs] raises *)
}.

Definition env := nat -> obs.

(** Commands sent to the motion controller. *)
Inductive gcmd :=
| PA (x y : Z)   (* [f'PA {x}, {y};BG'] *)
| RP             (* ['RP'] *)
| ST             (* ['ST'] *)
| DP0            (* ['DP 0,0'] *)
| SP (x y : Z)   (* ['SP 50000,100000'] *)
| PR (x y : Z)   (* ['PR 100000,200000;BG'] *)
| AM_HM          (* ['AM;HM;BG'] *)
| AM_PT_DP0.     (* ['AM;PT;DP 0,0'] *)

(** What the program does to the outside, in order. *)
Inductive event :=
| Gantry (c : gcmd) (r : string + string)
| Serial (line : string) (failed : option string)
| SerialPoll (failed : option string)
| Arduino (word : string) (failed : option string)
| Makedirs (failed : option string)
| Status (s : string)
| CameraInfo (s : string)
| Sleep (ms : Z)
| StopFlag (b : bool)   (* [self.stop_imaging] was read and had this value *)
| StopSet               (* [self.stop_imaging = True] *)
| Prompt (n : Z) (pos : string).

(** [str(n)] of an [int]. *)
Definition py_str (n : Z) : string := NilZero.string_of_int (Z.to_int n).

(** [f'{x}, {y}'], the text a reported position is compared with. *)
Definition fmt_pos (x y : Z) : string := py_str x ++ ", " ++ py_str y.

Definition render (c : gcmd) : string :=
  match c with
  | PA x y => "PA " ++ fmt_pos x y ++ ";BG"
  | RP => "RP"
  | ST => "ST"
  | DP0 => "DP 0,0"
  | SP x y => "SP " ++ py_str x ++ "," ++ py_str y
  | PR x y => "PR " ++ py_str x ++ "," ++ py_str y ++ ";BG"
  | AM_HM => "AM;HM;BG"
  | AM_PT_DP0 => "AM;PT;DP 0,0"
  end.

(** ** A monad for the methods: state, log, exceptions, patience *)

Record world := { app : gui; clock : nat }.

Inductive result (A : Type) :=
| Val (a : A)
| Exc (msg : string)   (* an [Exception] propagates, [str(e)] is [msg] *)
| Fuel.                (* a polling loop is still polling *)
Arguments Val {A} a.
Arguments Exc {A} msg.
Arguments Fuel {A}.

Definition M (A : Type) : Type := env -> world -> world * list event * result A.

Definition ret {A} (a : A) : M A := fun _ w => (w, [], Val a).

Definition bind {A B} (m : M A) (k : A -> M B) : M B :=
  fun E w =>
    match m E w with
    | (w1, t1, Val a) => let '(w2, t2, r) := k a E w1 in (w2, t1 ++ t2, r)
    | (w1, t1, Exc msg) => (w1, t1, Exc msg)
    | (w1, t1, Fuel) => (w1, t1, Fuel)
    end.

Declare Scope m_scope.
Delimit Scope m_scope with m.
Notation "x <- m ;; k" := (bind m (fun x => k))
  (at level 61, m at next level, right associativity) : m_scope.
Notation "m ;; k" := (bind m (fun _ => k))
  (at level 61, right associativity) : m_scope.
Local Open Scope m_scope.

Definition raise {A} (msg : string) : M A := fun _ w => (w, [], Exc msg).

Definition out_of_fuel {A} : M A := fun _ w => (w, [], Fuel).

(** [try: m except Exception as e: h(str(e))] *)
Definition catch {A} (m : M A) (h : string -> M A) : M A :=
  fun E w =>
    match m E w with
    | (w1, t1, Exc msg) => let '(w2, t2, r) := h msg E w1 in (w2, t1 ++ t2, r)
    | other => other
    end.

Definition get : M gui := fun _ w => (w, [], Val (app w)).

Definition modify (f : gui -> gui) : M unit :=
  fun _ w => ({| app := f (app w); clock := clock w |}, [], Val tt).

Definition emit (e : event) : M unit := fun _ w => (w, [e], Val tt).

(** The next observation of the environment. *)
Definition observe : M obs :=
  fun E w => ({| app := app w; clock := S (clock w) |}, [], Val (E (clock w))).

Definition when (b : bool) (m : M unit) : M unit := if b then m else ret tt.

(** *** Primitives *)

(** [self.gantry.GCommand(c)] *)
Definition GCommand (c : gcmd) : M string :=
  o <- observe ;;
  emit (Gantry c (o_gantry o)) ;;
  match o_gantry o with
  | inl reply => ret reply
  | inr msg => raise msg
  end.

(** A read of [self.stop_imaging]: true once the thread set it or the user
    pressed stop. *)
Definition read_stop : M bool :=
  o <- observe ;;
  g <- get ;;
  let b := stop_imaging g || o_stop o in
  modify (set_stop_imaging b) ;;
  emit (StopFlag b) ;;
  ret b.

(** A read of [self.waiting_for_photo], which Continue clears. *)
Definition read_waiting : M bool :=
  o <- observe ;;
  g <- get ;;
  let b := waiting_for_photo g && negb (o_continue o) in
  modify (set_waiting_for_photo b) ;;
  ret b.

Definition set_stop : M unit :=
  modify (set_stop_imaging true) ;; emit StopSet.

(** [self.status_var.set(s)], directly or through [self.root.after(0, ...)]
    (the interface thread runs those in the order they were queued). *)
Definition status (s : string) : M unit :=
  modify (set_status_var s) ;; emit (Status s).

Definition camera_info (s : string) : M unit :=
  modify (set_camera_info_var s) ;; emit (CameraInfo s).

(** [time.sleep], in milliseconds. *)
Definition sleep (ms : Z) : M unit := emit (Sleep ms).

(** [self.ser.write((cmd + '\n').encode())] *)
Definition serial_write (cmd : string) : M unit :=
  o <- observe ;;
  emit (Serial cmd (o_serial o)) ;;
  match o_serial o with
  | None => ret tt
  | Some msg => raise msg
  end.

(** [self.ser.in_waiting] and, if it is not zero, the read of the reply. *)
Definition serial_poll : M (option string) :=
  o <- observe ;;
  emit (SerialPoll (o_serial o)) ;;
  match o_serial o with
  | None => ret (o_in_waiting o)
  | Some msg => raise msg
  end.

(** [self.arduino_mega.write(word + b'\n')] *)
Definition arduino_write (word : string) : M unit :=
  o <- observe ;;
  emit (Arduino word (o_arduino o)) ;;
  match o_arduino o with
  | None => ret tt
  | Some msg => raise msg
  end.

Definition makedirs : M unit :=
  o <- observe ;;
  emit (Makedirs (o_makedirs o)) ;;
  match o_makedirs o with
  | None => ret tt
  | Some msg => raise msg
  end.

(** ** Camera and filter *)

Definition send_camera_command (cmd : string) : M bool :=
  g <- get ;;
  if negb (camera_connected g) || negb (ser g) then
    camera_info "Camera not connected" ;; ret false
  else
    catch
      (serial_write cmd ;;
       sleep 500 ;;
       waiting <- serial_poll ;;
       match waiting with
       | Some response => camera_info ("ESP32: " ++ response)
       | None => ret tt
       end ;;
       ret true)
      (fun e => camera_info ("Command error: " ++ e) ;; ret false).

Definition control_filter (filter_in : bool) : M unit :=
  g <- get ;;
  if negb (camera_connected g) then ret tt
  else
    success <- send_camera_command
                 (if filter_in then "FILTER,ON" else "FILTER,OFF") ;;
    when success
      (camera_info
         ("Filter " ++ if filter_in then "in position" else "moved away")).

Definition take_both_photos : M unit :=
  g <- get ;;
  if negb (camera_connected g) then ret tt
  else
    catch
      (makedirs ;;
       when (arduino_mega g) (arduino_write "RED" ;; sleep 2000) ;;
       send_camera_command "SHUTTER" ;;
       sleep 1000 ;;
       when (arduino_mega g) (arduino_write "OFF" ;; sleep 500) ;;
       send_camera_command "FILTER,ON" ;;
       sleep 1000 ;;
       when (arduino_mega g) (arduino_write "GREEN" ;; sleep 500) ;;
       send_camera_command "SHUTTER" ;;
       sleep 1000 ;;
       when (arduino_mega g) (arduino_write "OFF" ;; sleep 500) ;;
       send_camera_command "FILTER,OFF" ;;
       camera_info "Successfully captured both photos")
      (fun e => camera_info ("Photo sequence error: " ++ e)).

(** ** Manual moves *)

Definition move_gantry (x_change y_change : Z) : M unit :=
  g <- get ;;
  if negb (connected g) then ret tt
  else
    catch
      (let new_x := current_x g + x_change in
       let new_y := current_y g + y_change in
       if (new_x >? x_limit g) || (new_y >? y_limit g) then
         status "Movement blocked by safety limits"
       else
         GCommand (PA new_x new_y) ;;
         status ("Moving to X: " ++ py_str new_x ++ ", Y: " ++ py_str new_y))
      (fun e => status ("Movement error: " ++ e)).

Definition move_up : M unit := g <- get ;; move_gantry 0 (step_size g).
Definition move_down : M unit := g <- get ;; move_gantry 0 (- step_size g).
Definition move_left : M unit := g <- get ;; move_gantry (- step_size g) 0.
Definition move_right : M unit := g <- get ;; move_gantry (step_size g) 0.

Definition goto_home : M unit :=
  g <- get ;;
  if negb (connected g) then ret tt
  else
    catch
      (GCommand (PA 0 0) ;; status "Moving to home position")
      (fun e => status ("Move to home error: " ++ e)).

Definition return_to_start_position : M unit :=
  g <- get ;;
  match connected g, start_x g, start_y g with
  | true, Some sx, Some sy =>
      catch
        (status ("Returning to start position: X=" ++ py_str sx
                 ++ ", Y=" ++ py_str sy) ;;
         GCommand (PA sx sy) ;;
         ret tt)
        (fun e => status ("Return to start error: " ++ e))
  | _, _, _ => ret tt
  end.

(** [stop_imaging_sequence], on the answer to its confirmation dialog; the
    sequencer sees its effect as [o_stop]. *)
Definition stop_imaging_sequence (confirmed : bool) (g : gui) : gui :=
  if negb (is_imaging g) then g
  else if confirmed then
    set_status_var "Stopping imaging sequence..." (set_stop_imaging true g)
  else g.

(** ** The imaging sequencer: [_imaging_thread] *)

(** The local variables of the thread. *)
Record locals := { aim_x : Z; aim_y : Z; image_count : Z }.

(** The polling loop after a move (lines 1214-1220 and 1271-1277); the
    result is [is_done]. Each iteration costs one unit of [fuel]. *)
Fixpoint wait_for_position (fuel : nat) (target : string) : M bool :=
  match fuel with
  | O => out_of_fuel
  | S fuel' =>
      stop <- read_stop ;;
      if stop then ret false
      else
        pos <- GCommand RP ;;
        if String.eqb pos target then ret true
        else sleep 250 ;; wait_for_position fuel' target
  end.

(** The loop of lines 1304-1305. *)
Fixpoint wait_for_confirmation (fuel : nat) : M unit :=
  match fuel with
  | O => out_of_fuel
  | S fuel' =>
      waiting <- read_waiting ;;
      if negb waiting then ret tt
      else
        stop <- read_stop ;;
        if stop then ret tt
        else sleep 100 ;; wait_for_confirmation fuel'
  end.

Definition cell_name (x y : nat) : string :=
  py_str (Z.of_nat x) ++ "," ++ py_str (Z.of_nat y).

(** [aim_x] after lines 1246-1251. *)
Definition next_aim_x (s : steps) (y x : nat) (l : locals) : Z :=
  if (x =? 0)%nat then aim_x l
  else if Nat.even y then aim_x l + x_inc s
  else aim_x l - x_inc s.

(** The body of the inner loop (lines 1246-1305) for column [x] of row
    [y]; the boolean tells that it ended in [break]. *)
Definition visit (fuel : nat) (s : steps) (y x : nat) (l : locals)
    : M (locals * bool) :=
  let ax := next_aim_x s y x l in
  let ay := aim_y l in
  let l1 := {| aim_x := ax; aim_y := ay; image_count := image_count l |} in
  stop <- read_stop ;;
  if stop then ret (l1, true)
  else
    g <- get ;;
    if (ax >? x_limit g) || (ay >? y_limit g) then
      status ("Position " ++ cell_name x y
              ++ " exceeds safety limits - stopping sequence") ;;
      set_stop ;;
      ret (l1, true)
    else
      GCommand (PA ax ay) ;;
      status ("Moving to position " ++ cell_name x y) ;;
      wait_for_position fuel (fmt_pos ax ay) ;;
      stop <- read_stop ;;
      if stop then ret (l1, true)
      else
        let n := image_count l + 1 in
        status ("Position " ++ cell_name x y ++ ": Image #" ++ py_str n) ;;
        g <- get ;;
        (if auto_capture g then take_both_photos ;; sleep 1000
         else
           modify (set_waiting_for_photo true) ;;
           emit (Prompt n (cell_name x y)) ;;
           wait_for_confirmation fuel) ;;
        ret ({| aim_x := ax; aim_y := ay; image_count := n |}, false).

(** The inner loop over the columns still to visit. *)
Fixpoint row (fuel : nat) (s : steps) (y : nat) (xs : list nat) (l : locals)
    : M locals :=
  match xs with
  | [] => ret l
  | x :: xs' =>
      r <- visit fuel s y x l ;;
      let '(l', broke) := r in
      if broke then ret l' else row fuel s y xs' l'
  end.

(** [range(n)] for a Python [int]. *)
Definition range (n : Z) : list nat := seq 0 (Z.to_nat n).

(** The locals at the head of row [y] (lines 1238-1242). *)
Definition row_start (sx sy : Z) (s : steps) (y : nat) (l : locals) : locals :=
  if (y =? 0)%nat then
    {| aim_x := sx; aim_y := sy; image_count := image_count l |}
  else
    {| aim_x := aim_x l; aim_y := aim_y l + y_inc s;
       image_count := image_count l |}.

(** The outer loop over the rows still to visit (lines 1236-1308). *)
Fixpoint rows (fuel : nat) (sx sy : Z) (s : steps) (ys : list nat)
    (l : locals) : M locals :=
  match ys with
  | [] => ret l
  | y :: ys' =>
      l1 <- row fuel s y (range (x_steps s)) (row_start sx sy s y l) ;;
      stop <- read_stop ;;
      if stop then ret l1 else rows fuel sx sy s ys' l1
  end.

(** [_imaging_thread], started by [start_imaging_sequence] once the start
    position [(sx, sy)] is set and the grid [s] is calculated. *)
Definition _imaging_thread (fuel : nat) (sx sy : Z) (s : steps) : M unit :=
  catch
    (status "Moving to start position..." ;;
     g <- get ;;
     when (camera_connected g) (control_filter false ;; sleep 500) ;;
     GCommand (PA sx sy) ;;
     wait_for_position fuel (fmt_pos sx sy) ;;
     stop <- read_stop ;;
     if stop then
       status "Imaging sequence stopped" ;;
       modify (set_is_imaging false)
     else
       status "Imaging sequence started" ;;
       l <- rows fuel sx sy s (range (y_steps s))
                 {| aim_x := sx; aim_y := sy; image_count := 0 |} ;;
       stop <- read_stop ;;
       (if negb stop then
          status ("Imaging sequence complete - " ++ py_str (image_count l)
                  ++ " positions captured")
        else status "Imaging sequence stopped") ;;
       modify (set_is_imaging false))
    (fun e =>
       status ("Imaging error: " ++ e) ;;
       modify (set_is_imaging false)).

(** ** Properties of runs *)

(** A computation keeps an invariant of the application state and emits
    only events of one kind. *)
Definition obeys {A} (Inv : gui -> Prop) (P : event -> Prop) (m : M A) : Prop :=
  forall E w w' t r,
    m E w = (w', t, r) -> Inv (app w) -> Inv (app w') /\ Forall P t.

(** An event that is not a positioning command. *)
Definition not_a_move (e : event) : Prop :=
  match e with
  | Gantry (PA _ _) _ => False
  | _ => True
  end.

(** A positioning command, if it is one, has its target at or below the
    limits. *)
Definition move_within (xl yl : Z) (e : event) : Prop :=
  match e with
  | Gantry (PA x y) _ => x <= xl /\ y <= yl
  | _ => True
  end.

(** *** Cooperative cancellation *)

(** The events at which the thread learns that it has to stop: a read of
    the flag that finds it set, and the thread setting it itself. *)
Definition sets_stop (e : event) : bool :=
  match e with
  | StopFlag true | StopSet => true
  | _ => false
  end.

(** Events that command no hardware and ask nothing of the user. *)
Definition silent (e : event) : Prop :=
  match e with
  | Status _ | StopFlag _ | StopSet => True
  | _ => False
  end.

(** From the first event that sets the stop on, the log is silent;
    [stopped] tells whether the stop is already set when the log begins. *)
Fixpoint after_stop (stopped : bool) (t : list event) : Prop :=
  match t with
  | [] => True
  | e :: t' =>
      (stopped = true -> silent e) /\ after_stop (stopped || sets_stop e) t'
  end.

Definition flag_after (stopped : bool) (t : list event) : bool :=
  stopped || existsb sets_stop t.

(** What a run that honours the stop flag looks like. *)
Definition honours_stop {A} (w w' : world) (t : list event) (r : result A)
    : Prop :=
  after_stop (stop_imaging (app w)) t /\
  stop_imaging (app w') = flag_after (stop_imaging (app w)) t /\
  (stop_imaging (app w') = true -> exists a, r = Val a).

(** A computation that honours the flag from every state. *)
Definition cooperative {A} (m : M A) : Prop :=
  forall E w w' t r, m E w = (w', t, r) -> honours_stop w w' t r.

(** A computation that honours the flag when it starts with the flag
    clear. *)
Definition cooperative_if_clear {A} (m : M A) : Prop :=
  forall E w w' t r,
    m E w = (w', t, r) -> stop_imaging (app w) = false ->
    honours_stop w w' t r.

(** A computation that neither reads nor sets the flag. *)
Definition neutral {A} (m : M A) : Prop :=
  forall E w w' t r,
    m E w = (w', t, r) ->
    stop_imaging (app w') = stop_imaging (app w) /\
    Forall (fun e => sets_stop e = false) t.

(** Puts an event in front of the log of a run. *)
Definition log_first {A} (e : event) (x : world * list event * result A)
    : world * list event * result A :=
  let '(w, t, r) := x in (w, e :: t, r).

(** How the thread ends once the flag is set: the stopped status, and the
    imaging flag cleared. *)
Definition ends_stopped (w : world) : Prop :=
  status_var (app w) = "Imaging sequence stopped"%string /\
  is_imaging (app w) = false.

(** ** A sample environment and a sample state *)

(** An observation with nothing pressed and nothing failing. *)
Definition calm (reply : string) : obs := {|
  o_stop := false; o_continue := false; o_gantry := inl reply;
  o_serial := None; o_in_waiting := None; o_arduino := None;
  o_makedirs := None
|}.

(** *** The snake path *)





(** The targets of the positioning commands of a log, in order. *)
Definition moves_of (t : list event) : list (Z * Z) :=
  flat_map (fun e => match e with
                     | Gantry (PA x y) _ => [(x, y)]
                     | _ => []
                     end) t.

(** Computations that command no move. *)
Definition moveless {A} (m : M A) : Prop :=
  forall E w w' t r, m E w = (w', t, r) -> moves_of t = [].



(** [l1] is what [l2] begins with. *)
Definition prefix {A} (l1 l2 : list A) : Prop := exists l3, l2 = l1 ++ l3.

(** *** Failures of the hardware *)

(** An event that is not a failed command to the motion controller. *)
Definition gantry_ok (e : event) : Prop :=
  match e with
  | Gantry _ (inr _) => False
  | _ => True
  end.

(** The text of the exception, when the event is a failed operation on the
    serial port, the indicator or the file system. *)
Definition device_failure (e : event) : option string :=
  match e with
  | Serial _ (Some msg) | SerialPoll (Some msg) | Arduino _ (Some msg)
  | Makedirs (Some msg) => Some msg
  | _ => None
  end.

(** The line [camera_info_var] shows for a failed operation: failures of
    the serial port are caught in [send_camera_command], the others in
    [take_both_photos]. *)
Definition report_of (e : event) (msg : string) : event :=
  match e with
  | Serial _ _ | SerialPoll _ => CameraInfo ("Command error: " ++ msg)
  | _ => CameraInfo ("Photo sequence error: " ++ msg)
  end.

(** Every failed device operation of the log is followed at once by its
    report. *)
Fixpoint reported (t : list event) : Prop :=
  match t with
  | [] => True
  | e :: t' =>
      match device_failure e with
      | Some msg =>
          match t' with
          | e' :: _ => e' = report_of e msg
          | [] => False
          end
      | None => True
      end /\ reported t'
  end.

(** A log without a failed gantry command and with every device failure
    reported. *)
Definition clean (t : list event) : Prop := Forall gantry_ok t /\ reported t.

(** A computation that raises nothing and leaves a clean log. *)
Definition calm_run {A} (m : M A) : Prop :=
  forall E w w' t r,
    m E w = (w', t, r) -> (forall msg, r <> Exc msg) /\ clean t.

(** A computation whose log is clean, up to the failed operation [e] that
    raised, when one did; [last] tells which operations may raise. *)
Definition pending (last : event -> string -> Prop) {A} (m : M A) : Prop :=
  forall E w w' t r,
    m E w = (w', t, r) ->
    match r with
    | Exc msg => exists t1 e, t = t1 ++ [e] /\ last e msg /\ clean t1
    | _ => clean t
    end.

(** A failed gantry command with the text [msg]. *)
Definition gantry_failed (e : event) (msg : string) : Prop :=
  exists c, e = Gantry c (inr msg).

(** A failed device operation with the text [msg], reported under the
    heading [heading]. *)
Definition device_failed (heading : string) (e : event) (msg : string) : Prop :=
  device_failure e = Some msg /\ gantry_ok e /\
  report_of e msg = CameraInfo (heading ++ msg).

(** *** Polling for arrival *)

(** The logs of the polling loop for [target], with its result [is_done]:
    it ends on a read of the flag that finds it set, or on a reply that is
    the target text, character for character; any other reply is followed
    by a sleep of 250 ms and a new round. *)
Inductive polling (target : string) : list event -> bool -> Prop :=
| polling_stopped : polling target [StopFlag true] false
| polling_arrived :
    polling target [StopFlag false; Gantry RP (inl target)] true
| polling_again (reply : string) (t : list event) (done : bool) :
    reply <> target ->
    polling target t done ->
    polling target
      (StopFlag false :: Gantry RP (inl reply) :: Sleep 250 :: t) done.

(** Events of the capture step: commands to the camera, the filter and the
    indicator, their reports, and the prompt of the manual mode. *)
Definition capture_event (e : event) : Prop :=
  match e with
  | Serial _ _ | SerialPoll _ | Arduino _ _ | Makedirs _ | CameraInfo _
  | Prompt _ _ => True
  | _ => False
  end.

(** A gantry that answers every query with "10,20", the numbers of the
    target (10, 20) without the space of [fmt_pos]. *)
Definition unspaced_env : env := fun _ => calm "10,20".

(** A gantry that reports each target of a 2 x 2 grid with increments 10
    and 20 as soon as it is asked. *)
Definition demo_env : env := fun n =>
  calm (if (n <=? 8)%nat then "0, 0"
        else if (n <=? 13)%nat then "10, 0"
        else if (n <=? 18)%nat then "10, 20"
        else "0, 20").

Definition demo_steps : steps :=
  {| x_inc := 10; y_inc := 20; x_steps := 2; y_steps := 2 |}.

(** The application after the gantry connected, at power-up position
    ([_update_ui_after_connect] shows "Connected"). *)
Definition demo_gui : gui := set_status_var "Connected" (set_connected true init).

Definition demo_world : world := {| app := demo_gui; clock := 0 |}.

(** The gantry is at x = 1000000, that position is made the start position,
    and the x limit is then lowered to 500000. *)
Definition lowered_limit_gui : gui :=
  apply_safety_limits 500000 3084965 true
    (set_start_position (set_current 1000000 0 demo_gui)).

(** The same gantry, with the stop button pressed while the first cell is
    being reached. *)
Definition stop_env : env := fun n =>
  if (n =? 6)%nat then
    {| o_stop := true; o_continue := false; o_gantry := inl "0, 0"%string;
       o_serial := None; o_in_waiting := None; o_arduino := None;
       o_makedirs := None |}
  else demo_env n.

(** The same gantry, whose controller times out on the move to the second
    cell. *)
Definition failing_env : env := fun n =>
  if (n =? 10)%nat then
    {| o_stop := false; o_continue := false;
       o_gantry := inr "timeout"%string;
       o_serial := None; o_in_waiting := None; o_arduino := None;
       o_makedirs := None |}
  else demo_env n.


Definition broken_serial_env : env := fun n =>
  {| o_stop := false; o_continue := false; o_gantry := inl "0, 0"%string;
     o_serial := Some "port closed"%string; o_in_waiting := None;
     o_arduino := None; o_makedirs := None |}.


Definition demo_locals : locals :=
  {| aim_x := 0; aim_y := 0; image_count := 0 |}.

(** Increments that carry the second column beyond the x limit. *)
Definition wide_steps : steps :=
  {| x_inc := 2000000; y_inc := 20; x_steps := 2; y_steps := 2 |}.

(** ** Further operations of the interface *)

(** [self.step_size]. *)
Definition set_step_size (n : Z) (g : gui) : gui := {|
  connected := connected g; camera_connected := camera_connected g;
  ser := ser g; arduino_mega := arduino_mega g;
  step_size := n; current_x := current_x g; current_y := current_y g;
  start_x := start_x g; start_y := start_y g;
  x_dimension := x_dimension g; y_dimension := y_dimension g;
  overlap := overlap g; fov_width_mm := fov_width_mm g;
  x_limit := x_limit g; y_limit := y_limit g; grid := grid g;
  auto_capture := auto_capture g; is_imaging := is_imaging g;
  stop_imaging := stop_imaging g; waiting_for_photo := waiting_for_photo g;
  status_var := status_var g; camera_info_var := camera_info_var g
|}.

(** [update_step_size], on the entry as [int()] read it; [None] when
    [int()] raised [ValueError]. *)
Definition update_step_size (entry : option Z) (g : gui) : gui :=
  match entry with
  | Some n => set_status_var ("Step size updated: " ++ py_str n)
                             (set_step_size n g)
  | None => set_status_var "Invalid step size!" g
  end.

(** [emergency_stop] *)
Definition emergency_stop : M unit :=
  g <- get ;;
  if negb (connected g) then ret tt
  else
    catch
      (GCommand ST ;;
       status "EMERGENCY STOP" ;;
       set_stop)
      (fun e => status ("Emergency stop error: " ++ e)).

(** [set_zero_position] *)
Definition set_zero_position : M unit :=
  g <- get ;;
  if negb (connected g) then ret tt
  else
    catch
      (GCommand DP0 ;;
       status "Position zeroed - current position is now (0,0)" ;;
       modify (set_current 0 0))
      (fun e => status ("Zero position error: " ++ e)).

(** [take_manual_photo] *)
Definition take_manual_photo (with_filter : bool) : M unit :=
  g <- get ;;
  if negb (camera_connected g) then ret tt
  else
    catch
      (makedirs ;;
       when with_filter (control_filter true ;; sleep 1000) ;;
       success <- send_camera_command "SHUTTER" ;;
       when success
         (camera_info ("Took photo "
                       ++ (if with_filter then "with" else "without")
                       ++ " filter")) ;;
       when with_filter (sleep 1000 ;; control_filter false))
      (fun e => camera_info ("Photo error: " ++ e)).

(** The loop of [_home_thread] (lines 722-730): it ends when the
    controller gives the reply it gave the time before, or when the gantry
    is no longer connected. *)
Fixpoint wait_for_rest (fuel : nat) (last_pos : string) : M unit :=
  match fuel with
  | O => out_of_fuel
  | S fuel' =>
      g <- get ;;
      if negb (connected g) then ret tt
      else
        pos <- GCommand RP ;;
        if String.eqb pos last_pos then ret tt
        else sleep 250 ;; wait_for_rest fuel' pos
  end.

(** [_home_thread] *)
Definition _home_thread (fuel : nat) : M unit :=
  catch
    (GCommand (SP 50000 100000) ;;
     GCommand (PR 100000 200000) ;;
     GCommand AM_HM ;;
     wait_for_rest fuel "" ;;
     GCommand AM_PT_DP0 ;;
     status "Homing complete")
    (fun e => status ("Homing failed: " ++ e)).

(** [home_gantry]; the thread it starts is run at once. *)
Definition home_gantry (fuel : nat) : M unit :=
  g <- get ;;
  if negb (connected g) then ret tt
  else status "Homing..." ;; _home_thread fuel.

(** [start_imaging_sequence], on the answer to its confirmation dialog;
    the result tells whether the imaging thread is started. The listing
    and the creation of the run directory are one operation of the file
    system. *)
Definition start_imaging_sequence (confirmed : bool) : M bool :=
  g <- get ;;
  if negb (connected g) || is_imaging g || negb (camera_connected g) then
    ret false
  else
    match start_x g, start_y g, grid g with
    | Some _, Some _, Some _ =>
        if negb confirmed then ret false
        else
          makedirs ;;
          modify (set_stop_imaging false) ;;
          modify (set_is_imaging true) ;;
          ret true
    | _, _, _ => ret false
    end.

(** ** Operations of the interface, one after another *)

(** The operations of the interface that only change the state. *)
Inductive op :=
| ApplySafetyLimits (new_x_limit new_y_limit : Z) (confirmed : bool)
| UpdateStepSize (entry : option Z)
| SetStartPosition
| CalculateGrid (overlap_pct x_dimension_mm y_dimension_mm fov_width : float)
| StopImagingSequence (confirmed : bool).

Definition perform (g : gui) (o : op) : gui :=
  match o with
  | ApplySafetyLimits x y c => apply_safety_limits x y c g
  | UpdateStepSize entry => update_step_size entry g
  | SetStartPosition => set_start_position g
  | CalculateGrid ov ax ay w => fst (fst (calculate_grid g ov ax ay w))
  | StopImagingSequence c => stop_imaging_sequence c g
  end.

(** ** Further properties of runs *)

(** The commands sent to the motion controller, in order. *)
Definition gantry_commands (t : list event) : list gcmd :=
  flat_map (fun e => match e with
                     | Gantry c _ => [c]
                     | _ => []
                     end) t.

(** The operations on the camera port, the indicator and the file system
    a log holds. *)
Inductive device_op :=
| MkDir
| Ind (word : string)
| Cam (cmd : string).

Definition device_ops (t : list event) : list device_op :=
  flat_map (fun e => match e with
                     | Makedirs _ => [MkDir]
                     | Arduino word _ => [Ind word]
                     | Serial cmd _ => [Cam cmd]
                     | _ => []
                     end) t.

(** An event that is not a failed operation on the indicator or the file
    system. *)
Definition device_ok (e : event) : Prop :=
  match e with
  | Arduino _ (Some _) | Makedirs (Some _) => False
  | _ => True
  end.

Definition ind (g : gui) (word : string) : list device_op :=
  if arduino_mega g then [Ind word] else [].

Definition cam (g : gui) (cmd : string) : list device_op :=
  if ser g then [Cam cmd] else [].

(** The device operations of [take_both_photos] in the order of its
    lines. *)
Definition photo_plan (g : gui) : list device_op :=
  MkDir :: ind g "RED" ++ cam g "SHUTTER" ++ ind g "OFF"
        ++ cam g "FILTER,ON" ++ ind g "GREEN" ++ cam g "SHUTTER"
        ++ ind g "OFF" ++ cam g "FILTER,OFF".

(** The total of the sleeps of a log, in milliseconds. *)
Definition slept (t : list event) : Z :=
  fold_right (fun e acc => match e with
                           | Sleep ms => ms + acc
                           | _ => acc
                           end) 0 t.

(** The parts of the state no operation of the sequencer writes. *)
Definition same_setup (g g' : gui) : Prop :=
  connected g' = connected g /\ camera_connected g' = camera_connected g /\
  ser g' = ser g /\ arduino_mega g' = arduino_mega g /\
  step_size g' = step_size g /\
  current_x g' = current_x g /\ current_y g' = current_y g /\
  start_x g' = start_x g /\ start_y g' = start_y g /\
  x_limit g' = x_limit g /\ y_limit g' = y_limit g /\
  grid g' = grid g /\ auto_capture g' = auto_capture g.

(** The same, the stored plan apart. *)
Definition same_setup_but_grid (g g' : gui) : Prop :=
  connected g' = connected g /\ camera_connected g' = camera_connected g /\
  ser g' = ser g /\ arduino_mega g' = arduino_mega g /\
  step_size g' = step_size g /\
  current_x g' = current_x g /\ current_y g' = current_y g /\
  start_x g' = start_x g /\ start_y g' = start_y g /\
  x_limit g' = x_limit g /\ y_limit g' = y_limit g /\
  auto_capture g' = auto_capture g /\
  is_imaging g' = is_imaging g /\ stop_imaging g' = stop_imaging g /\
  waiting_for_photo g' = waiting_for_photo g /\
  camera_info_var g' = camera_info_var g.

(** Whether [move_gantry] refuses the move by [(x_change, y_change)]. *)
Definition blocked (g : gui) (x_change y_change : Z) : bool :=
  (current_x g + x_change >? x_limit g) || (current_y g + y_change >? y_limit g).

(** The gantry answers every command, with [reply]. *)
Definition answering (reply : string) : env := fun _ => calm reply.

(** The controller is unreachable: every command raises. *)
Definition unreachable_env : env := fun _ =>
  {| o_stop := false; o_continue := false; o_gantry := inr "no response"%string;
     o_serial := None; o_in_waiting := None; o_arduino := None;
     o_makedirs := None |}.

(** *** The order of the device operations *)

(** The camera port, the indicator and the connection flag of the camera
    are those of [g0]. *)
Definition same_devices (g0 g : gui) : Prop :=
  camera_connected g = camera_connected g0 /\ ser g = ser g0 /\
  arduino_mega g = arduino_mega g0.

(** The event is a failed operation on the indicator or the file system,
    with the text [msg]: the failures [send_camera_command] does not
    catch. *)
Definition uncaught_failure (e : event) (msg : string) : Prop :=
  (exists word, e = Arduino word (Some msg)) \/ e = Makedirs (Some msg).

(** A computation that carries out the device operations [p] in order:
    with the devices of [g0] it never waits and keeps the devices; when it
    returns it did all of [p], with no uncaught failure, and reached a
    state in [Q]; when it raises, the last event is the failed operation,
    and the operations done are those of [p] up to that one. *)
Definition follows (g0 : gui) (p : list device_op) (Q : gui -> Prop)
    {A} (m : M A) : Prop :=
  forall E w w' t r,
    m E w = (w', t, r) -> same_devices g0 (app w) ->
    same_devices g0 (app w') /\
    match r with
    | Val _ => device_ops t = p /\ Forall device_ok t /\ Q (app w')
    | Exc msg =>
        exists t1 e p1 o p2,
          t = t1 ++ [e] /\ Forall device_ok t1 /\ uncaught_failure e msg /\
          p = p1 ++ o :: p2 /\ device_ops t = p1 ++ [o]
    | Fuel => False
    end.

Definition anywhere : gui -> Prop := fun _ => True.

(** The device operations of [take_manual_photo]. *)
Definition manual_photo_plan (g : gui) (with_filter : bool) : list device_op :=
  MkDir :: (if with_filter then cam g "FILTER,ON" else [])
        ++ cam g "SHUTTER"
        ++ (if with_filter then cam g "FILTER,OFF" else []).

(** An indicator that fails when it is asked for green, on a camera with
    port and indicator. *)
Definition lit_gui : gui := {|
  connected := true; camera_connected := true; ser := true;
  arduino_mega := true;
  step_size := 5000; current_x := 0; current_y := 0;
  start_x := None; start_y := None;
  x_dimension := 500000; y_dimension := 500000;
  overlap := of_decimal 2 1; fov_width_mm := of_decimal 26829 2;
  x_limit := 1660768; y_limit := 3084965;
  grid := None;
  auto_capture := true; is_imaging := false; stop_imaging := false;
  waiting_for_photo := false;
  status_var := "Connected";
  camera_info_var := "Connected to COM7 at 115200 baud"
|}.

Definition green_fails_env : env := fun n =>
  {| o_stop := false; o_continue := false; o_gantry := inl "0, 0"%string;
     o_serial := None; o_in_waiting := None;
     o_arduino := if (n =? 7)%nat then Some "write timeout"%string else None;
     o_makedirs := None |}.

(** Hardware that never fails and a user who presses nothing; the gantry
    reports the origin. *)
Definition calm_env : env := answering "0, 0".

(** A computation that, started in a state in [P], returns only in a
    state and with a value in [Q]. *)
Definition hoare {A} (P : gui -> Prop) (m : M A) (Q : gui -> A -> Prop)
    : Prop :=
  forall E w w' t r,
    m E w = (w', t, r) -> P (app w) -> forall a, r = Val a -> Q (app w') a.

(** The number of cells of the grid [s]. *)
Definition cells (s : steps) : Z :=
  Z.of_nat (List.length (range (y_steps s)) * List.length (range (x_steps s))).

(** The application ready for a sequence: gantry and camera connected,
    the start position set at the origin and a 2 x 2 plan stored; the stop
    flag is still set from an emergency stop. *)
Definition ready_gui : gui :=
  set_stop_imaging true
    (set_grid demo_steps (set_start_position (set_camera true demo_gui))).

(** A user who presses Continue while the sequencer waits for the second
    time. *)
Definition continue_env : env := fun n =>
  {| o_stop := false; o_continue := (n =? 2)%nat;
     o_gantry := inl "0, 0"%string;
     o_serial := None; o_in_waiting := None; o_arduino := None;
     o_makedirs := None |}.

(** *** Homing *)

(** The logs of the loop of [_home_thread] when it found the gantry at
    rest: a reply that is the reply of the time before ends the loop; any
    other reply is followed by a sleep of 250 ms and becomes the reply of
    the time before. *)
Inductive settling : string -> list event -> Prop :=
| settling_rest (last_pos : string) :
    settling last_pos [Gantry RP (inl last_pos)]
| settling_again (last_pos reply : string) (t : list event) :
    reply <> last_pos ->
    settling reply t ->
    settling last_pos (Gantry RP (inl reply) :: Sleep 250 :: t).

(** A gantry that is still moving at the first query of its position and
    at rest from the second on. *)
Definition homing_env : env := fun n =>
  calm (if (n <=? 3)%nat then "100000, 200000" else "0, 0").

(** *** Arrival *)

(** From tick [c] on the stop is not pressed, the gantry answers [k]
    queries of its position with a text other than [target], and the next
    one with [target]. (A round of the loop makes two observations: the
    flag, then the position.) *)
Definition arrives_after (E : env) (target : string) (c k : nat) : Prop :=
  (forall i, (i <= k)%nat -> o_stop (E (c + 2 * i)%nat) = false) /\
  (forall i, (i < k)%nat ->
             exists reply,
               o_gantry (E (c + 2 * i + 1)%nat) = inl reply /\
               reply <> target) /\
  o_gantry (E (c + 2 * k + 1)%nat) = inl target.

(** A gantry on its way to (10, 0): it reports (5, 0) twice, then the
    target. *)
Definition approaching_env : env := fun n =>
  calm (if (n <=? 4)%nat then "5, 0" else "10, 0").

(** A gantry that stands at (1000000, 0) and says so. *)
Definition far_env : env := answering "1000000, 0".




(** * Properties of the float model *)

Section FloatFacts.

Lemma digits2_pos_bound (p : positive) : Zpos p < 2 ^ Zpos (digits2_pos p).
Proof.
  induction p as [p IH | p IH |]; simpl digits2_pos.
  - rewrite Pos2Z.inj_succ, Z.pow_succ_r by lia. lia.
  - rewrite Pos2Z.inj_succ, Z.pow_succ_r by lia. lia.
  - reflexivity.
Qed.

Lemma shr_1_quot (mrs : shr_record) : shr_m (shr_1 mrs) = Z.quot (shr_m mrs) 2.
Proof.
  destruct mrs as [m r s]. cbn [shr_1 shr_m].
  assert (Hodd : forall p, Zpos p = Z.quot (Zpos p~1) 2).
  { intros p. apply Z.quot_unique with (r := 1); lia. }
  assert (Heven : forall p, Zpos p = Z.quot (Zpos p~0) 2).
  { intros p. apply Z.quot_unique with (r := 0); lia. }
  destruct m as [| p | p]; [reflexivity | |]; destruct p; cbn [shr_m].
  - apply Hodd.
  - apply Heven.
  - reflexivity.
  - change (Zneg p~1) with (- Zpos p~1).
    rewrite Z.quot_opp_l, <- Hodd by lia. reflexivity.
  - change (Zneg p~0) with (- Zpos p~0).
    rewrite Z.quot_opp_l, <- Heven by lia. reflexivity.
  - reflexivity.
Qed.

Lemma iter_shr_1_quot (n : positive) (mrs : shr_record) :
  shr_m (SpecFloat.iter_pos shr_1 n mrs) = Z.quot (shr_m mrs) (2 ^ Zpos n).
Proof.
  assert (Hnz : forall q, 2 ^ Zpos q <> 0)
    by (intros q; apply Z.pow_nonzero; lia).
  assert (Hdbl : forall q, 2 ^ Zpos q~0 = 2 ^ Zpos q * 2 ^ Zpos q).
  { intros q. rewrite <- Z.pow_add_r by lia. f_equal. lia. }
  assert (Hodd : forall q, 2 ^ Zpos q~1 = 2 * (2 ^ Zpos q * 2 ^ Zpos q)).
  { intros q. rewrite <- Z.pow_add_r, <- Z.pow_succ_r by lia. f_equal. lia. }
  revert mrs.
  induction n as [n IH | n IH |]; intros mrs; cbn [SpecFloat.iter_pos].
  - rewrite !IH, shr_1_quot, Hodd.
    rewrite !Z.quot_quot by (specialize (Hnz n); lia).
    f_equal; ring.
  - rewrite !IH, Hdbl.
    rewrite Z.quot_quot by apply Hnz. reflexivity.
  - apply shr_1_quot.
Qed.

(** What the last alignment of a rounding leaves fits the precision. *)
Lemma shr_fexp_fits (m e : Z) (l : location) (p : positive) :
  shr_m (fst (shr_fexp prec emax m e l)) = Zpos p -> Zpos p < 2 ^ prec.
Proof.
  unfold shr_fexp, shr.
  assert (Hm : shr_m (shr_record_of_loc m l) = m)
    by (destruct l as [| []]; reflexivity).
  destruct (fexp prec emax (Zdigits2 m + e) - e) as [| n | n] eqn:En;
    simpl fst.
  - rewrite Hm. intros ->. simpl Zdigits2 in En.
    pose proof (digits2_pos_bound p) as Hd.
    unfold fexp in En.
    assert (Zpos (digits2_pos p) <= prec) by lia.
    eapply Z.lt_le_trans; [exact Hd |].
    apply Z.pow_le_mono_r; lia.
  - rewrite iter_shr_1_quot, Hm. intros Hq.
    destruct m as [| q | q].
    + rewrite Z.quot_0_l in Hq by (apply Z.pow_nonzero; lia). discriminate.
    + simpl Zdigits2 in En.
      pose proof (digits2_pos_bound q) as Hd.
      unfold fexp in En.
      assert (Hn : Zpos (digits2_pos q) <= prec + Zpos n) by lia.
      rewrite <- Hq.
      apply Z.quot_lt_upper_bound; [lia | apply Z.pow_pos_nonneg; lia |].
      eapply Z.lt_le_trans; [exact Hd |].
      rewrite <- Z.pow_add_r by (unfold prec; lia).
      apply Z.pow_le_mono_r; lia.
    + assert (Z.quot (Zneg q) (2 ^ Zpos n) <= 0).
      { apply Z.quot_le_upper_bound; [apply Z.pow_pos_nonneg; lia | lia]. }
      lia.
  - rewrite Hm. intros ->. simpl Zdigits2 in En.
    pose proof (digits2_pos_bound p) as Hd.
    unfold fexp in En.
    assert (Zpos (digits2_pos p) <= prec) by lia.
    eapply Z.lt_le_trans; [exact Hd |].
    apply Z.pow_le_mono_r; lia.
Qed.

(** A rounding keeps the sign it is given and returns a mantissa that
    fits. *)
Lemma binary_round_aux_shape (s : bool) (m e : Z) (l : location) :
  match binary_round_aux prec emax s m e l with
  | S754_zero s' | S754_infinity s' => s' = s
  | S754_finite s' m' _ => s' = s /\ Zpos m' < 2 ^ prec
  | S754_nan => True
  end.
Proof.
  unfold binary_round_aux.
  destruct (shr_fexp prec emax m e l) as [mrs' e'].
  destruct (shr_fexp prec emax _ e' loc_Exact) as [mrs'' e''] eqn:E2.
  destruct (shr_m mrs'') as [| p | p] eqn:Em; [reflexivity | | exact I].
  destruct (e'' <=? emax - prec); [| reflexivity].
  split; [reflexivity |].
  eapply shr_fexp_fits. rewrite E2. exact Em.
Qed.

Lemma binary_round_aux_not_negative (m e : Z) (l : location) :
  not_negative (binary_round_aux prec emax false m e l).
Proof.
  pose proof (binary_round_aux_shape false m e l) as H.
  destruct (binary_round_aux prec emax false m e l); simpl; tauto.
Qed.

Lemma binary_round_aux_fits (s : bool) (m e : Z) (l : location) :
  mantissa_fits (binary_round_aux prec emax s m e l).
Proof.
  pose proof (binary_round_aux_shape s m e l) as H.
  destruct (binary_round_aux prec emax s m e l); simpl; tauto.
Qed.

Lemma fdiv_fits (x y : float) : mantissa_fits (fdiv x y).
Proof.
  destruct x as [sx | sx | | sx mx ex], y as [sy | sy | | sy my ey];
    try exact I.
  unfold fdiv, SFdiv.
  destruct (SFdiv_core_binary prec emax (Zpos mx) ex (Zpos my) ey)
    as [[mz ez] lz].
  apply binary_round_aux_fits.
Qed.

Lemma fmul_not_negative (x y : float) :
  not_negative x -> not_negative y -> not_negative (fmul x y).
Proof.
  destruct x as [sx | sx | | sx mx ex], y as [sy | sy | | sy my ey];
    simpl; intros Hx Hy; subst; try exact I; try reflexivity.
  apply binary_round_aux_not_negative.
Qed.

Lemma fdiv_not_negative (x y : float) :
  not_negative x -> not_negative y -> is_zero y = false ->
  not_negative (fdiv x y).
Proof.
  destruct x as [sx | sx | | sx mx ex], y as [sy | sy | | sy my ey];
    simpl; intros Hx Hy Hz; subst; try exact I; try reflexivity;
    try discriminate.
  change (not_negative (SFdiv prec emax (S754_finite false mx ex)
                                         (S754_finite false my ey))).
  unfold SFdiv.
  destruct (SFdiv_core_binary prec emax (Zpos mx) ex (Zpos my) ey)
    as [[mz ez] lz].
  apply binary_round_aux_not_negative.
Qed.

Lemma iter_xO_pow (m d : positive) :
  Zpos (Pos.iter xO m d) = Zpos m * 2 ^ Zpos d.
Proof.
  induction d as [| d IH] using Pos.peano_ind.
  - simpl. lia.
  - rewrite Pos.iter_succ, Pos2Z.inj_xO, IH, Pos2Z.inj_succ.
    rewrite Z.pow_succ_r by lia. ring.
Qed.

Lemma shl_align_value (m : positive) (e e' : Z) :
  e' <= e -> Zpos (fst (shl_align m e e')) = Zpos m * 2 ^ (e - e').
Proof.
  intros Hle. unfold shl_align.
  destruct (e' - e) as [| d | d] eqn:Ed; simpl fst.
  - replace (e - e') with 0 by lia. simpl. lia.
  - lia.
  - rewrite iter_xO_pow. f_equal. f_equal. lia.
Qed.

Lemma binary_normalize_not_negative (m e : Z) :
  0 <= m -> not_negative (binary_normalize prec emax m e false).
Proof.
  intros Hm. destruct m as [| p | p]; [exact I | | lia].
  unfold binary_normalize, binary_round.
  destruct (shl_align p e _) as [mz ez].
  apply binary_round_aux_not_negative.
Qed.

(** [1 - o] is not negative when [o < 1]. *)
Lemma one_minus_not_negative (o : float) :
  mantissa_fits o -> flt o one = true -> not_negative (fsub (of_int 1) o).
Proof.
  intros Hfit Hlt.
  change (of_int 1) with (S754_finite false 4503599627370496 (-52)).
  change one with (S754_finite false 4503599627370496 (-52)) in Hlt.
  destruct o as [s | s | | s m e].
  - reflexivity.
  - destruct s; [reflexivity | discriminate].
  - discriminate.
  - unfold fsub, SFsub. apply binary_normalize_not_negative.
    rewrite !shl_align_value by lia.
    change (cond_Zopp false ?z) with z.
    assert (Ha : 0 < 4503599627370496 * 2 ^ (-52 - Z.min (-52) e))
      by (apply Z.mul_pos_pos; [lia | apply Z.pow_pos_nonneg; lia]).
    assert (Hb : 0 < Zpos m * 2 ^ (e - Z.min (-52) e))
      by (apply Z.mul_pos_pos; [lia | apply Z.pow_pos_nonneg; lia]).
    destruct s.
    + change (cond_Zopp true ?z) with (- z). lia.
    + change (cond_Zopp false ?z) with z.
      unfold flt, SFltb, SFcompare in Hlt. unfold mantissa_fits, prec in Hfit.
      destruct (Z.compare_spec e (-52)) as [He | He | He];
        try discriminate.
      * subst e. rewrite Z.min_id, Z.sub_diag, Z.pow_0_r.
        destruct (Pos.compare_cont Eq m 4503599627370496) eqn:Ec;
          try discriminate.
        assert (Hm : Zpos m < 4503599627370496) by exact Ec.
        clear Ec Hlt. lia.
      * rewrite Z.min_r by lia. rewrite Z.sub_diag, Z.pow_0_r.
        assert (H53 : 2 ^ 53 <= 4503599627370496 * 2 ^ (-52 - e)).
        { replace (-52 - e) with (1 + (-53 - e)) by lia.
          rewrite Z.pow_add_r by lia.
          assert (0 < 2 ^ (-53 - e)) by (apply Z.pow_pos_nonneg; lia).
          change (2 ^ 53) with (4503599627370496 * 2 ^ 1 * 1).
          rewrite Z.mul_assoc.
          apply Z.mul_le_mono_nonneg_l; lia. }
        lia.
Qed.

Lemma ceil_not_negative (x : float) (n : Z) :
  not_negative x -> ceil x = Ok n -> 0 <= n.
Proof.
  destruct x as [s | s | | s m e]; simpl; intros Hx Hc;
    try discriminate; inversion Hc; subst; [lia |].
  simpl cond_Zopp. unfold ceil_scaled.
  destruct e as [| q | q].
  - lia.
  - assert (0 < 2 ^ Zpos q) by (apply Z.pow_pos_nonneg; lia). nia.
  - assert (Hp : 0 < 2 ^ Zpos q) by (apply Z.pow_pos_nonneg; lia).
    assert (- Zpos m / 2 ^ Zpos q < 0)
      by (apply Z.div_lt_upper_bound; lia).
    lia.
Qed.

End FloatFacts.

Section NoNaN.

Lemma round_nearest_even_nonneg (m : Z) (l : location) :
  0 <= m -> 0 <= round_nearest_even m l.
Proof.
  intros Hm. destruct l as [| []]; simpl; try lia.
  destruct (Z.even m); lia.
Qed.

Lemma shr_fexp_nonneg (m e : Z) (l : location) :
  0 <= m -> 0 <= shr_m (fst (shr_fexp prec emax m e l)).
Proof.
  intros Hm. unfold shr_fexp, shr.
  assert (Hr : shr_m (shr_record_of_loc m l) = m)
    by (destruct l as [| []]; reflexivity).
  destruct (fexp prec emax (Zdigits2 m + e) - e) as [| n | n]; simpl fst.
  - lia.
  - rewrite iter_shr_1_quot, Hr.
    apply Z.quot_pos; [lia | apply Z.pow_pos_nonneg; lia].
  - lia.
Qed.

(** Rounding a mantissa that is not negative never yields NaN. *)
Lemma binary_round_aux_not_nan (s : bool) (m e : Z) (l : location) :
  0 <= m -> binary_round_aux prec emax s m e l <> S754_nan.
Proof.
  intros Hm. unfold binary_round_aux.
  pose proof (shr_fexp_nonneg m e l Hm) as H1.
  destruct (shr_fexp prec emax m e l) as [mrs' e']. simpl fst in H1.
  pose proof (shr_fexp_nonneg _ e' loc_Exact
                (round_nearest_even_nonneg _ (loc_of_shr_record mrs') H1))
    as H2.
  destruct (shr_fexp prec emax _ e' loc_Exact) as [mrs'' e''].
  simpl fst in H2.
  destruct (shr_m mrs'') as [| p | p]; [discriminate | | lia].
  destruct (e'' <=? emax - prec); discriminate.
Qed.

Lemma fmul_finite_not_nan (x y : float) :
  finite_nonzero x = true -> finite_nonzero y = true ->
  fmul x y <> S754_nan.
Proof.
  intros Hx Hy.
  destruct x as [| | | sx mx ex]; try discriminate Hx.
  destruct y as [| | | sy my ey]; try discriminate Hy.
  apply binary_round_aux_not_nan. lia.
Qed.

Lemma fdiv_finite_not_nan (x y : float) :
  is_finite x = true -> finite_nonzero y = true -> fdiv x y <> S754_nan.
Proof.
  intros Hx Hy.
  destruct y as [| | | sy my ey]; try discriminate Hy.
  destruct x as [sx | | | sx mx ex]; try discriminate Hx.
  - unfold fdiv. cbn [SFdiv]. discriminate.
  - unfold fdiv, SFdiv.
    destruct (SFdiv_core_binary prec emax (Zpos mx) ex (Zpos my) ey)
      as [[mz ez] lz] eqn:Ed.
    apply binary_round_aux_not_nan.
    unfold SFdiv_core_binary in Ed.
    match type of Ed with
    | (let '(q, r) := Z.div_eucl ?a ?b in _) = _ =>
        assert (Ha : 0 <= a);
        [| pose proof (Z.div_pos a b Ha ltac:(lia)) as Hq;
           unfold Z.div in Hq; destruct (Z.div_eucl a b) as [q r];
           inversion Ed; subst; exact Hq]
    end.
    destruct (ex - ey - _) as [| k | k]; try lia.
    apply Z.shiftl_nonneg. lia.
Qed.

End NoNaN.

(** * The grid planner *)

Section Planner.

Lemma handler_zero_division (e : pyexn) :
  handler e = Raised ZeroDivisionError -> e = ZeroDivisionError.
Proof. destruct e; simpl; congruence. Qed.

Lemma to_int_error (x : float) (e : pyexn) :
  to_int x = Err e -> e <> ZeroDivisionError.
Proof. destruct x; simpl; congruence. Qed.

Lemma ceil_error (x : float) (e : pyexn) :
  ceil x = Err e -> e <> ZeroDivisionError.
Proof. destruct x; simpl; congruence. Qed.

Lemma truediv_error (a b : float) (e : pyexn) :
  truediv a b = Err e -> e = ZeroDivisionError /\ is_zero b = true.
Proof.
  unfold truediv. destruct (is_zero b); [split; congruence | discriminate].
Qed.

Lemma truediv_ok (a b q : float) :
  truediv a b = Ok q -> is_zero b = false /\ q = fdiv a b.
Proof.
  unfold truediv. destruct (is_zero b); [discriminate |].
  intros H; inversion H; auto.
Qed.

(** What a successful [plan_steps] computed, line by line. *)
Lemma plan_steps_ok (o w xd yd : float) (s : steps) :
  plan_steps o w xd yd = Ok s ->
  is_zero (x_step_mm o w) = false /\
  is_zero (y_step_mm o w) = false /\
  ceil (fdiv xd (x_step_mm o w)) = Ok (x_steps s - 1) /\
  ceil (fdiv yd (y_step_mm o w)) = Ok (y_steps s - 1) /\
  to_int (fmul (x_step_mm o w) (of_int x_scale)) = Ok (x_inc s) /\
  to_int (fmul (y_step_mm o w) (of_int y_scale)) = Ok (y_inc s).
Proof.
  unfold plan_steps, PyFloat.bind.
  destruct (truediv xd (x_step_mm o w)) as [qx | ] eqn:Eqx; [| discriminate].
  destruct (ceil qx) as [cx |] eqn:Ecx; [| discriminate].
  destruct (truediv yd (y_step_mm o w)) as [qy | ] eqn:Eqy; [| discriminate].
  destruct (ceil qy) as [cy |] eqn:Ecy; [| discriminate].
  destruct (to_int (fmul (x_step_mm o w) _)) as [ix |] eqn:Eix;
    [| discriminate].
  destruct (to_int (fmul (y_step_mm o w) _)) as [iy |] eqn:Eiy;
    [| discriminate].
  intros H; inversion H; subst; clear H. simpl.
  apply truediv_ok in Eqx, Eqy. destruct Eqx as [Zx ->], Eqy as [Zy ->].
  replace (cx + 1 - 1) with cx by lia. replace (cy + 1 - 1) with cy by lia.
  auto 7.
Qed.

(** A call that plans stores a result of [plan_steps] on the converted
    overlap. *)
Lemma calculate_grid_planned (g g' : gui) (ov xd yd w : float) (warned : bool) :
  calculate_grid g ov xd yd w = (g', warned, Planned) ->
  exists s, grid g' = Some s /\ plan_steps (overlap_of ov) w xd yd = Ok s /\
            overlap g' = overlap_of ov /\ fov_width_mm g' = w.
Proof.
  unfold calculate_grid.
  destruct (to_int (fmul xd _)) as [a | e]; [| destruct e; discriminate].
  destruct (to_int (fmul yd _)) as [b | e]; [| destruct e; discriminate].
  destruct (plan_steps (overlap_of ov) w xd yd) as [s | e];
    [| destruct e; discriminate].
  intros H; inversion H; subst; clear H.
  exists s. auto.
Qed.

Lemma positive_not_negative (x : float) :
  flt zero x = true -> not_negative x.
Proof.
  destruct x as [s | s | | s m e]; intros H; try exact I;
    destruct s; try reflexivity; discriminate H.
Qed.

Lemma aspect_ratio_not_negative : not_negative aspect_ratio.
Proof. vm_compute. reflexivity. Qed.

Lemma steps_not_negative (ov w : float) :
  flt (overlap_of ov) one = true -> flt zero w = true ->
  not_negative (x_step_mm (overlap_of ov) w) /\
  not_negative (y_step_mm (overlap_of ov) w).
Proof.
  intros Ho Hw.
  pose proof (one_minus_not_negative _ (fdiv_fits ov (of_int 100)) Ho) as Hd.
  apply positive_not_negative in Hw.
  split; unfold x_step_mm, y_step_mm.
  - apply fmul_not_negative; assumption.
  - apply fmul_not_negative; [| assumption].
    apply fmul_not_negative; [assumption | apply aspect_ratio_not_negative].
Qed.

End Planner.

(** C1: the planner computes the step distances [w * (1 - o)] and
    [(w * aspect) * (1 - o)] with the aspect ratio 6336/9504, the counts
    [ceil(ax / x_step) + 1] and [ceil(ay / y_step) + 1] and the encoder
    increments [int(step * scale)]; for overlap 0.2 (entered as 20 percent),
    field-of-view width 268.29 and a 500 x 500 area the stored counts and
    increments are 4, 5, 536580 and 894300, the values of the closed form in
    exact arithmetic. *)
Theorem calculate_grid_closed_form :
  (forall (g g' : gui) (ov ax ay w : float) (warned : bool),
      calculate_grid g ov ax ay w = (g', warned, Planned) ->
      exists s : steps,
        grid g' = Some s /\
        let o := overlap_of ov in
        let x_step := fmul w (fsub (of_int 1) o) in
        let y_step :=
          fmul (fmul w (fdiv (of_int 6336) (of_int 9504)))
               (fsub (of_int 1) o) in
        ceil (fdiv ax x_step) = Ok (x_steps s - 1) /\
        ceil (fdiv ay y_step) = Ok (y_steps s - 1) /\
        to_int (fmul x_step (of_int 2500)) = Ok (x_inc s) /\
        to_int (fmul y_step (of_int 6250)) = Ok (y_inc s)) /\
  (let '(g', _, r) :=
     calculate_grid init (of_int 20) (of_int 500) (of_int 500)
                    (of_decimal 26829 2) in
   let x_step := closed_form_step (26829 # 100) (2 # 10) in
   let y_step :=
     closed_form_step ((26829 # 100) * closed_form_aspect) (2 # 10) in
   r = Planned /\
   grid g' = Some {| x_inc := closed_form_inc x_step 2500;
                     y_inc := closed_form_inc y_step 6250;
                     x_steps := closed_form_count 500 x_step;
                     y_steps := closed_form_count 500 y_step |} /\
   closed_form_count 500 x_step = 4 /\
   closed_form_count 500 y_step = 5 /\
   closed_form_inc x_step 2500 = 536580 /\
   closed_form_inc y_step 6250 = 894300).
Proof.
  split.
  - intros g g' ov ax ay w warned H.
    apply calculate_grid_planned in H as (s & Hg & Hs & _).
    exists s. split; [exact Hg |].
    apply plan_steps_ok in Hs as (_ & _ & Hcx & Hcy & Hix & Hiy).
    cbv zeta. auto.
  - vm_compute. repeat split; reflexivity.
Qed.

Lemma calculate_grid_closed_form_witness :
  exists s : steps,
    grid (fst (fst (calculate_grid init (of_int 20) (of_int 500) (of_int 500)
                                   (of_decimal 26829 2)))) = Some s /\
    ceil (fdiv (of_int 500)
               (fmul (of_decimal 26829 2)
                     (fsub (of_int 1) (overlap_of (of_int 20)))))
    = Ok (x_steps s - 1).
Proof.
  destruct (proj1 calculate_grid_closed_form init
              (fst (fst (calculate_grid init (of_int 20) (of_int 500)
                                        (of_int 500) (of_decimal 26829 2))))
              (of_int 20) (of_int 500) (of_int 500) (of_decimal 26829 2) false)
    as (s & Hg & Hx & _).
  - vm_compute. reflexivity.
  - exists s. split; [exact Hg | exact Hx].
Defined.

(** C5, as the claim states it, fails: with an overlap of 150 percent, a
    positive width and a positive area the planner returns a plan whose
    column count is -2. *)
Lemma grid_counts_counterexample :
  flt zero (of_decimal 26829 2) = true /\
  flt zero (of_int 500) = true /\
  exists g' warned s,
    calculate_grid init (of_int 150) (of_int 500) (of_int 500)
                   (of_decimal 26829 2) = (g', warned, Planned) /\
    grid g' = Some s /\ x_steps s = -2 /\ y_steps s = -4 /\
    ~ (1 <= x_steps s).
Proof.
  split; [vm_compute; reflexivity |].
  split; [vm_compute; reflexivity |].
  eexists _, _, _. split; [vm_compute; reflexivity |].
  split; [reflexivity |].
  simpl. repeat split; lia.
Qed.

(** C5, amended: for every overlap fraction below 1, positive
    field-of-view width and positive area dimensions on which the planner
    returns a plan, the column count and the row count are at least 1. *)
Theorem grid_counts_at_least_one
    (g g' : gui) (ov ax ay w : float) (warned : bool) (s : steps) :
  flt (overlap_of ov) one = true ->
  flt zero w = true -> flt zero ax = true -> flt zero ay = true ->
  calculate_grid g ov ax ay w = (g', warned, Planned) ->
  grid g' = Some s ->
  1 <= x_steps s /\ 1 <= y_steps s.
Proof.
  intros Ho Hw Hax Hay Hcalc Hgrid.
  apply calculate_grid_planned in Hcalc as (s' & Hg & Hs & _).
  rewrite Hgrid in Hg. inversion Hg; subst s'; clear Hg.
  apply plan_steps_ok in Hs as (Zx & Zy & Hcx & Hcy & _).
  destruct (steps_not_negative ov w Ho Hw) as [Nx Ny].
  apply positive_not_negative in Hax, Hay.
  apply ceil_not_negative in Hcx, Hcy;
    try (apply fdiv_not_negative; assumption).
  lia.
Qed.

Lemma grid_counts_at_least_one_witness :
  flt (overlap_of (of_int 20)) one = true /\
  grid (fst (fst (calculate_grid init (of_int 20) (of_int 500) (of_int 500)
                                 (of_decimal 26829 2))))
  = Some {| x_inc := 536580; y_inc := 894300; x_steps := 4; y_steps := 5 |} /\
  1 <= 4 /\ 1 <= 5.
Proof.
  split; [vm_compute; reflexivity |].
  split; [vm_compute; reflexivity |].
  apply (grid_counts_at_least_one init
           (fst (fst (calculate_grid init (of_int 20) (of_int 500)
                                     (of_int 500) (of_decimal 26829 2))))
           (of_int 20) (of_int 500) (of_int 500) (of_decimal 26829 2) false
           {| x_inc := 536580; y_inc := 894300; x_steps := 4; y_steps := 5 |});
    vm_compute; reflexivity.
Defined.

Section PlannerErrors.

Lemma feq_one (o : float) : feq o one = true -> o = one.
Proof.
  change one with (S754_finite false 4503599627370496 (-52)).
  unfold feq, SFeqb, SFcompare.
  destruct o as [s | s | | s m e]; try discriminate.
  - destruct s; discriminate.
  - destruct s; [discriminate |].
    destruct (Z.compare_spec e (-52)) as [He | He | He]; try discriminate.
    destruct (Pos.compare_cont Eq m 4503599627370496) eqn:Ec;
      try discriminate.
    pose proof (Pos.compare_eq m _ Ec) as Hm.
    intros _. rewrite He, Hm. reflexivity.
Qed.

Lemma fmul_zero_r (w : float) (s : bool) :
  is_finite w = true -> is_zero (fmul w (S754_zero s)) = true.
Proof. destruct w; simpl; congruence. Qed.

(** At an overlap of exactly 1 both step distances are zero. *)
Lemma steps_zero_at_one (w : float) :
  is_finite w = true -> is_zero (x_step_mm one w) = true.
Proof.
  intros Hw. unfold x_step_mm.
  change (fsub (of_int 1) one) with (S754_zero false).
  apply fmul_zero_r, Hw.
Qed.

Lemma ceil_finite (x : float) :
  x <> S754_nan -> (exists n, ceil x = Ok n) \/ ceil x = Err OverflowError.
Proof. destruct x; simpl; intros H; eauto; congruence. Qed.

Lemma to_int_finite (x : float) :
  x <> S754_nan -> (exists n, to_int x = Ok n) \/ to_int x = Err OverflowError.
Proof. destruct x; simpl; intros H; eauto; congruence. Qed.

Lemma scale_finite_nonzero (n : Z) :
  n = x_scale \/ n = y_scale -> finite_nonzero (of_int n) = true.
Proof. intros [-> | ->]; reflexivity. Qed.

Lemma fmul_scale_not_nan (x : float) (n : Z) :
  n = x_scale \/ n = y_scale -> is_finite x = true ->
  fmul x (of_int n) <> S754_nan.
Proof.
  intros Hn Hx. destruct x as [s | | | s m e]; try discriminate.
  - destruct Hn as [-> | ->]; discriminate.
  - apply fmul_finite_not_nan; [reflexivity | apply scale_finite_nonzero, Hn].
Qed.

(** With finite, non-zero step distances [plan_steps] fails only by
    overflow. *)
Lemma plan_steps_finite (o w xd yd : float) :
  finite_nonzero (x_step_mm o w) = true ->
  finite_nonzero (y_step_mm o w) = true ->
  is_finite xd = true -> is_finite yd = true ->
  (exists s, plan_steps o w xd yd = Ok s) \/
  plan_steps o w xd yd = Err OverflowError.
Proof.
  intros Hx Hy Hxd Hyd. unfold plan_steps, PyFloat.bind, truediv.
  assert (Zx : is_zero (x_step_mm o w) = false)
    by (destruct (x_step_mm o w); simpl in *; congruence).
  assert (Zy : is_zero (y_step_mm o w) = false)
    by (destruct (y_step_mm o w); simpl in *; congruence).
  assert (Fx : is_finite (x_step_mm o w) = true)
    by (destruct (x_step_mm o w); simpl in *; congruence).
  assert (Fy : is_finite (y_step_mm o w) = true)
    by (destruct (y_step_mm o w); simpl in *; congruence).
  rewrite Zx, Zy.
  destruct (ceil_finite _ (fdiv_finite_not_nan xd _ Hxd Hx)) as [[cx ->] | ->];
    [| auto].
  destruct (ceil_finite _ (fdiv_finite_not_nan yd _ Hyd Hy)) as [[cy ->] | ->];
    [| auto].
  destruct (to_int_finite _ (fmul_scale_not_nan _ x_scale (or_introl eq_refl) Fx))
    as [[ix ->] | ->]; [| auto].
  destruct (to_int_finite _ (fmul_scale_not_nan _ y_scale (or_intror eq_refl) Fy))
    as [[iy ->] | ->]; [| auto].
  eauto.
Qed.

End PlannerErrors.

(** C6, as the claim states it, fails twice: at an overlap of 150 percent
    (a fraction of 1.5, above 1) the planner divides by negative steps and
    returns a plan, and at an overlap of 20 percent with a field-of-view
    width of 0 it raises the division by zero. *)
Lemma zero_division_counterexample :
  flt one (overlap_of (of_int 150)) = true /\
  snd (calculate_grid init (of_int 150) (of_int 500) (of_int 500)
                      (of_decimal 26829 2)) = Planned /\
  flt (overlap_of (of_int 20)) one = true /\
  snd (calculate_grid init (of_int 20) (of_int 500) (of_int 500) (of_int 0))
  = Raised ZeroDivisionError.
Proof. vm_compute. repeat split; reflexivity. Qed.

Lemma plan_steps_zero_division_iff (o w xd yd : float) :
  plan_steps o w xd yd = Err ZeroDivisionError <->
  is_zero (x_step_mm o w) = true \/
  (is_zero (x_step_mm o w) = false /\
   (exists c, ceil (fdiv xd (x_step_mm o w)) = Ok c) /\
   is_zero (y_step_mm o w) = true).
Proof.
  unfold plan_steps, PyFloat.bind, truediv. split.
  - destruct (is_zero (x_step_mm o w)); [auto |].
    destruct (ceil (fdiv xd (x_step_mm o w))) as [cx | e] eqn:Ecx.
    2:{ apply ceil_error in Ecx. congruence. }
    destruct (is_zero (y_step_mm o w)); [eauto |].
    destruct (ceil (fdiv yd (y_step_mm o w))) as [cy | e] eqn:Ecy.
    2:{ apply ceil_error in Ecy. congruence. }
    destruct (to_int (fmul (x_step_mm o w) _)) as [ix | e] eqn:Eix.
    2:{ apply to_int_error in Eix. congruence. }
    destruct (to_int (fmul (y_step_mm o w) _)) as [iy | e] eqn:Eiy.
    2:{ apply to_int_error in Eiy. congruence. }
    discriminate.
  - intros [-> | (-> & [c ->] & ->)]; reflexivity.
Qed.

(** C6, amended: the division by the step distance is unguarded, and
    the overlap decides nothing by itself. The planner raises the division
    by zero exactly when both area entries convert to encoder steps and
    either the x step distance evaluates to zero or, the x step distance
    not being zero and the x count being computed, the y step distance
    evaluates to zero. It does so at an overlap fraction of exactly 1, for
    every finite field-of-view width, once the two area entries
    converted. Whenever both step distances are finite and not zero and
    both area entries are finite, whatever the overlap, the planner either
    stores a plan or raises an overflow error. *)
Theorem zero_division_exactly_at_zero_step
    (g : gui) (ov ax ay w : float) :
  (snd (calculate_grid g ov ax ay w) = Raised ZeroDivisionError <->
   (exists a, to_int (fmul ax (of_int x_scale)) = Ok a) /\
   (exists b, to_int (fmul ay (of_int y_scale)) = Ok b) /\
   (is_zero (x_step_mm (overlap_of ov) w) = true \/
    (is_zero (x_step_mm (overlap_of ov) w) = false /\
     (exists c, ceil (fdiv ax (x_step_mm (overlap_of ov) w)) = Ok c) /\
     is_zero (y_step_mm (overlap_of ov) w) = true))) /\
  (feq (overlap_of ov) one = true -> is_finite w = true ->
   (exists n, to_int (fmul ax (of_int x_scale)) = Ok n) ->
   (exists n, to_int (fmul ay (of_int y_scale)) = Ok n) ->
   snd (calculate_grid g ov ax ay w) = Raised ZeroDivisionError) /\
  (finite_nonzero (x_step_mm (overlap_of ov) w) = true ->
   finite_nonzero (y_step_mm (overlap_of ov) w) = true ->
   is_finite ax = true -> is_finite ay = true ->
   snd (calculate_grid g ov ax ay w) = Planned \/
   snd (calculate_grid g ov ax ay w) = Raised OverflowError).
Proof.
  split; [| split].
  - unfold calculate_grid. split.
    + destruct (to_int (fmul ax _)) as [a | e] eqn:Ea.
      2:{ simpl. intros H. apply handler_zero_division in H.
          apply to_int_error in Ea. congruence. }
      destruct (to_int (fmul ay _)) as [b | e] eqn:Eb.
      2:{ simpl. intros H. apply handler_zero_division in H.
          apply to_int_error in Eb. congruence. }
      destruct (plan_steps (overlap_of ov) w ax ay) as [s | e] eqn:Es;
        simpl; [discriminate |].
      intros H. apply handler_zero_division in H. subst e.
      apply (proj1 (plan_steps_zero_division_iff _ _ _ _)) in Es. eauto.
    + intros ([a ->] & [b ->] & Hz).
      rewrite (proj2 (plan_steps_zero_division_iff _ _ _ ay) Hz).
      reflexivity.
  - intros Ho Hw [a Ha] [b Hb]. apply feq_one in Ho.
    unfold calculate_grid. rewrite Ha, Hb, Ho.
    unfold plan_steps, PyFloat.bind, truediv.
    rewrite (steps_zero_at_one w Hw). reflexivity.
  - intros Hx Hy Hax Hay. unfold calculate_grid.
    destruct (to_int_finite _ (fmul_scale_not_nan ax x_scale (or_introl eq_refl) Hax))
      as [[a ->] | ->]; [| right; reflexivity].
    destruct (to_int_finite _ (fmul_scale_not_nan ay y_scale (or_intror eq_refl) Hay))
      as [[b ->] | ->]; [| right; reflexivity].
    destruct (plan_steps_finite (overlap_of ov) w ax ay Hx Hy Hax Hay)
      as [[s ->] | ->]; [left | right]; reflexivity.
Qed.

Lemma zero_division_exactly_at_zero_step_witness :
  snd (calculate_grid init (of_int 100) (of_int 500) (of_int 500)
                      (of_decimal 26829 2)) = Raised ZeroDivisionError /\
  (snd (calculate_grid init (of_int 20) (of_int 500) (of_int 500)
                       (of_decimal 26829 2)) = Planned \/
   snd (calculate_grid init (of_int 20) (of_int 500) (of_int 500)
                       (of_decimal 26829 2)) = Raised OverflowError).
Proof.
  split.
  - apply (proj1 (proj2 (zero_division_exactly_at_zero_step
                           init (of_int 100) (of_int 500) (of_int 500)
                           (of_decimal 26829 2)))).
    + vm_compute. reflexivity.
    + reflexivity.
    + eexists. vm_compute. reflexivity.
    + eexists. vm_compute. reflexivity.
  - apply (proj2 (proj2 (zero_division_exactly_at_zero_step
                           init (of_int 20) (of_int 500) (of_int 500)
                           (of_decimal 26829 2)))).
    + vm_compute. reflexivity.
    + vm_compute. reflexivity.
    + reflexivity.
    + reflexivity.
Defined.

(** * Running the methods *)

Section Running.

Context {A B : Type}.

(** How a sequence of two computations ran. *)
Lemma bind_inv (m : M A) (k : A -> M B) (E : env) (w w' : world)
    (t : list event) (r : result B) :
  bind m k E w = (w', t, r) ->
  (exists w1 t1 a t2,
      m E w = (w1, t1, Val a) /\ k a E w1 = (w', t2, r) /\ t = t1 ++ t2) \/
  (exists msg, m E w = (w', t, Exc msg) /\ r = Exc msg) \/
  (m E w = (w', t, Fuel) /\ r = Fuel).
Proof.
  unfold bind. destruct (m E w) as [[w1 t1] [a | msg |]].
  - destruct (k a E w1) as [[w2 t2] r2] eqn:Ek. intros H; inversion H; subst.
    left. exists w1, t1, a, t2. auto.
  - intros H; inversion H; subst. right; left. eauto.
  - intros H; inversion H; subst. right; right. auto.
Qed.

Lemma bind_val (m : M A) (k : A -> M B) (E : env) (w w1 : world)
    (t1 : list event) (a : A) :
  m E w = (w1, t1, Val a) ->
  bind m k E w = (let '(w2, t2, r) := k a E w1 in (w2, t1 ++ t2, r)).
Proof. intros H. unfold bind. rewrite H. reflexivity. Qed.

End Running.

Lemma catch_inv {A} (m : M A) (h : string -> M A) (E : env) (w w' : world)
    (t : list event) (r : result A) :
  catch m h E w = (w', t, r) ->
  (exists w1 t1 msg t2,
      m E w = (w1, t1, Exc msg) /\ h msg E w1 = (w', t2, r) /\ t = t1 ++ t2) \/
  (m E w = (w', t, r) /\ forall msg, r <> Exc msg).
Proof.
  unfold catch. destruct (m E w) as [[w1 t1] [a | msg |]].
  - intros H; inversion H; subst. right. split; [reflexivity | discriminate].
  - destruct (h msg E w1) as [[w2 t2] r2] eqn:Eh. intros H; inversion H; subst.
    left. exists w1, t1, msg, t2. auto.
  - intros H; inversion H; subst. right. split; [reflexivity | discriminate].
Qed.

Lemma gtb_false (a b : Z) : a <= b -> (a >? b) = false.
Proof. intros H. rewrite Z.gtb_ltb. apply Z.ltb_ge. exact H. Qed.

Lemma gtb_true (a b : Z) : (a >? b) = true -> b < a.
Proof. rewrite Z.gtb_ltb. apply Z.ltb_lt. Qed.

(** Reduces the fields of updated states. *)
Ltac fields :=
  cbn [connected camera_connected ser arduino_mega step_size current_x
       current_y start_x start_y x_dimension y_dimension overlap fov_width_mm
       x_limit y_limit grid auto_capture is_imaging stop_imaging
       waiting_for_photo status_var camera_info_var
       set_status_var set_camera_info_var set_stop_imaging set_is_imaging
       set_waiting_for_photo app clock fst snd] in *.

(** Unfolds the primitives in the goal and in the hypotheses. *)
Ltac unprim :=
  unfold GCommand, read_stop, read_waiting, set_stop, status, camera_info,
    sleep, serial_write, serial_poll, arduino_write, makedirs, when in *;
  unfold bind, catch, ret, raise, out_of_fuel, get, modify, emit, observe in *;
  cbn [app clock fst snd] in *.

(** ** One step of a run *)

Section Steps.

Context {A : Type}.
Variables (k : bool -> M A) (ks : string -> M A) (ku : unit -> M A)
          (kg : gui -> M A).

Lemma bind_get (E : env) (w : world) : bind get kg E w = kg (app w) E w.
Proof.
  unfold bind, get. destruct (kg (app w) E w) as [[w2 t2] r]. reflexivity.
Qed.

Lemma bind_read_stop (E : env) (w : world) :
  bind read_stop k E w =
  let b := stop_imaging (app w) || o_stop (E (clock w)) in
  log_first (StopFlag b)
    (k b E {| app := set_stop_imaging b (app w); clock := S (clock w) |}).
Proof.
  unfold read_stop, bind, get, modify, emit, observe, ret, log_first.
  cbn [app clock].
  destruct (k _ E _) as [[w2 t2] r]. reflexivity.
Qed.

Lemma bind_GCommand (c : gcmd) (E : env) (w : world) :
  bind (GCommand c) ks E w =
  match o_gantry (E (clock w)) with
  | inl reply =>
      log_first (Gantry c (inl reply))
        (ks reply E {| app := app w; clock := S (clock w) |})
  | inr msg =>
      ({| app := app w; clock := S (clock w) |}, [Gantry c (inr msg)],
       Exc msg)
  end.
Proof.
  unfold GCommand, bind, emit, observe, ret, raise, log_first.
  cbn [app clock].
  destruct (o_gantry (E (clock w))) as [reply | msg]; [| reflexivity].
  destruct (ks reply E _) as [[w2 t2] r]. reflexivity.
Qed.

Lemma bind_status (s : string) (E : env) (w : world) :
  bind (status s) ku E w =
  log_first (Status s)
    (ku tt E {| app := set_status_var s (app w); clock := clock w |}).
Proof.
  unfold status, bind, modify, emit, log_first. cbn [app clock].
  destruct (ku tt E _) as [[w2 t2] r]. reflexivity.
Qed.

Lemma bind_set_stop (E : env) (w : world) :
  bind set_stop ku E w =
  log_first StopSet
    (ku tt E {| app := set_stop_imaging true (app w); clock := clock w |}).
Proof.
  unfold set_stop, bind, modify, emit, log_first. cbn [app clock].
  destruct (ku tt E _) as [[w2 t2] r]. reflexivity.
Qed.

Lemma bind_sleep (ms : Z) (E : env) (w : world) :
  bind (sleep ms) ku E w = log_first (Sleep ms) (ku tt E w).
Proof.
  unfold sleep, bind, emit, log_first.
  destruct (ku tt E w) as [[w2 t2] r]. reflexivity.
Qed.

Lemma bind_emit (e : event) (E : env) (w : world) :
  bind (emit e) ku E w = log_first e (ku tt E w).
Proof.
  unfold bind, emit, log_first.
  destruct (ku tt E w) as [[w2 t2] r]. reflexivity.
Qed.

Lemma bind_modify (f : gui -> gui) (E : env) (w : world) :
  bind (modify f) ku E w = ku tt E {| app := f (app w); clock := clock w |}.
Proof.
  unfold bind, modify.
  destruct (ku tt E _) as [[w2 t2] r]. reflexivity.
Qed.

Lemma log_first_eq (e : event) (x : world * list event * result A) :
  exists w t r, x = (w, t, r) /\ log_first e x = (w, e :: t, r).
Proof. destruct x as [[w t] r]. exists w, t, r. auto. Qed.

End Steps.

Lemma ret_run {A} (a : A) (E : env) (w : world) : ret a E w = (w, [], Val a).
Proof. reflexivity. Qed.

Lemma status_run (s : string) (E : env) (w : world) :
  status s E w =
  ({| app := set_status_var s (app w); clock := clock w |}, [Status s], Val tt).
Proof. reflexivity. Qed.

Lemma modify_run (f : gui -> gui) (E : env) (w : world) :
  modify f E w = ({| app := f (app w); clock := clock w |}, [], Val tt).
Proof. reflexivity. Qed.

(** C10: the safety checks bound a target only from above. With the
    target at or below both limits, whatever its sign, the manual move
    issues its [PA] command, and the sequencer, the stop flag being clear,
    issues the [PA] command of the cell. *)
Theorem no_lower_bound :
  (forall (E : env) (w : world) (x_change y_change : Z),
      connected (app w) = true ->
      current_x (app w) + x_change <= x_limit (app w) ->
      current_y (app w) + y_change <= y_limit (app w) ->
      exists w' t,
        move_gantry x_change y_change E w =
        (w', Gantry (PA (current_x (app w) + x_change)
                        (current_y (app w) + y_change))
                    (o_gantry (E (clock w))) :: t, Val tt)) /\
  (forall (E : env) (fuel : nat) (s : steps) (y x : nat) (l : locals)
          (w : world),
      stop_imaging (app w) = false -> o_stop (E (clock w)) = false ->
      next_aim_x s y x l <= x_limit (app w) ->
      aim_y l <= y_limit (app w) ->
      exists w' t r,
        visit fuel s y x l E w =
        (w', StopFlag false
             :: Gantry (PA (next_aim_x s y x l) (aim_y l))
                       (o_gantry (E (S (clock w)))) :: t, r)).
Proof.
  split.
  - intros E w dx dy Hc Hx Hy.
    unfold move_gantry. rewrite bind_get, Hc. cbn [negb].
    rewrite (gtb_false _ _ Hx), (gtb_false _ _ Hy). cbn [orb].
    unfold catch. rewrite bind_GCommand.
    destruct (o_gantry (E (clock w))) as [reply | msg].
    + rewrite status_run. unfold log_first. eauto.
    + rewrite status_run. cbv beta iota. cbn [List.app]. eauto.
  - intros E fuel s y x l w Hs Ho Hx Hy.
    unfold visit. rewrite bind_read_stop, Hs, Ho. cbn [orb]. cbv zeta.
    rewrite bind_get. fields.
    rewrite (gtb_false _ _ Hx), (gtb_false _ _ Hy). cbn [orb].
    rewrite bind_GCommand. fields.
    destruct (o_gantry (E (S (clock w)))) as [reply | msg].
    + match goal with
      | |- context [log_first (Gantry ?c ?rep) ?x] =>
          destruct (log_first_eq (Gantry c rep) x) as (w' & t & r & _ & ->)
      end.
      unfold log_first. eauto.
    + unfold log_first. eauto.
Qed.

Lemma no_lower_bound_witness :
  exists w' t,
    move_gantry (-5000) (-5000) demo_env demo_world =
    (w', Gantry (PA (-5000) (-5000)) (inl "0, 0"%string) :: t, Val tt).
Proof.
  apply (proj1 no_lower_bound demo_env demo_world (-5000) (-5000)).
  - reflexivity.
  - simpl. lia.
  - simpl. lia.
Defined.

(** * Invariants and kinds of events *)

Section Obeys.

Variable Inv : gui -> Prop.
Variable P : event -> Prop.

Lemma obeys_ret {A} (a : A) : obeys Inv P (ret a).
Proof. intros E w w' t r H HI. inversion H; subst. auto. Qed.

Lemma obeys_raise {A} (msg : string) : obeys Inv P (@raise A msg).
Proof. intros E w w' t r H HI. inversion H; subst. auto. Qed.

Lemma obeys_out_of_fuel {A} : obeys Inv P (@out_of_fuel A).
Proof. intros E w w' t r H HI. inversion H; subst. auto. Qed.

Lemma obeys_bind {A B} (m : M A) (k : A -> M B) :
  obeys Inv P m -> (forall a, obeys Inv P (k a)) -> obeys Inv P (bind m k).
Proof.
  intros Hm Hk E w w' t r H HI.
  apply bind_inv in H
    as [(w1 & t1 & a & t2 & H1 & H2 & ->) | [(msg & H1 & ->) | (H1 & ->)]].
  - destruct (Hm _ _ _ _ _ H1 HI) as [HI1 Ht1].
    destruct (Hk a _ _ _ _ _ H2 HI1) as [HI2 Ht2].
    split; [assumption | apply Forall_app; auto].
  - exact (Hm _ _ _ _ _ H1 HI).
  - exact (Hm _ _ _ _ _ H1 HI).
Qed.

Lemma obeys_catch {A} (m : M A) (h : string -> M A) :
  obeys Inv P m -> (forall msg, obeys Inv P (h msg)) ->
  obeys Inv P (catch m h).
Proof.
  intros Hm Hh E w w' t r H HI.
  apply catch_inv in H as [(w1 & t1 & msg & t2 & H1 & H2 & ->) | (H1 & _)].
  - destruct (Hm _ _ _ _ _ H1 HI) as [HI1 Ht1].
    destruct (Hh msg _ _ _ _ _ H2 HI1) as [HI2 Ht2].
    split; [assumption | apply Forall_app; auto].
  - exact (Hm _ _ _ _ _ H1 HI).
Qed.

(** After [get] the continuation may use the invariant on what it got. *)
Lemma obeys_get {A} (k : gui -> M A) :
  (forall g, Inv g -> obeys Inv P (k g)) -> obeys Inv P (bind get k).
Proof.
  intros Hk E w w' t r H HI.
  apply bind_inv in H
    as [(w1 & t1 & a & t2 & H1 & H2 & ->) | [(msg & H1 & ->) | (H1 & ->)]];
    inversion H1; subst.
  exact (Hk _ HI _ _ _ _ _ H2 HI).
Qed.

Lemma obeys_observe : obeys Inv P observe.
Proof. intros E w w' t r H HI. inversion H; subst. auto. Qed.

Lemma obeys_emit (e : event) : P e -> obeys Inv P (emit e).
Proof. intros He E w w' t r H HI. inversion H; subst. auto. Qed.

Lemma obeys_modify (f : gui -> gui) :
  (forall g, Inv g -> Inv (f g)) -> obeys Inv P (modify f).
Proof. intros Hf E w w' t r H HI. inversion H; subst. simpl. auto. Qed.

Lemma obeys_when (b : bool) (m : M unit) :
  obeys Inv P m -> obeys Inv P (when b m).
Proof. destruct b; [auto | intros _; apply obeys_ret]. Qed.

Lemma obeys_sleep (ms : Z) : P (Sleep ms) -> obeys Inv P (sleep ms).
Proof. apply obeys_emit. Qed.

Hypothesis P_flag : forall b, P (StopFlag b).
Hypothesis P_status : forall s, P (Status s).
Hypothesis P_sleep : forall ms, P (Sleep ms).
Hypothesis P_prompt : forall n pos, P (Prompt n pos).
Hypothesis P_stop_set : P StopSet.
Hypothesis P_query : forall r, P (Gantry RP r).
Hypothesis P_camera_info : forall s, P (CameraInfo s).
Hypothesis P_serial : forall line f, P (Serial line f).
Hypothesis P_poll : forall f, P (SerialPoll f).
Hypothesis P_arduino : forall word f, P (Arduino word f).
Hypothesis P_makedirs : forall f, P (Makedirs f).
Hypothesis Inv_stop : forall b g, Inv g -> Inv (set_stop_imaging b g).
Hypothesis Inv_status : forall s g, Inv g -> Inv (set_status_var s g).
Hypothesis Inv_info : forall s g, Inv g -> Inv (set_camera_info_var s g).
Hypothesis Inv_waiting : forall b g, Inv g -> Inv (set_waiting_for_photo b g).

Lemma obeys_GCommand (c : gcmd) :
  (forall r, P (Gantry c r)) -> obeys Inv P (GCommand c).
Proof.
  intros Hc. unfold GCommand.
  apply obeys_bind; [apply obeys_observe | intros o].
  apply obeys_bind; [apply obeys_emit, Hc | intros _].
  destruct (o_gantry o); [apply obeys_ret | apply obeys_raise].
Qed.

Lemma obeys_read_stop : obeys Inv P read_stop.
Proof.
  unfold read_stop.
  apply obeys_bind; [apply obeys_observe | intros o].
  apply obeys_get; intros g Hg.
  apply obeys_bind; [apply obeys_modify; auto | intros _].
  apply obeys_bind; [apply obeys_emit; auto | intros _].
  apply obeys_ret.
Qed.

Lemma obeys_read_waiting : obeys Inv P read_waiting.
Proof.
  unfold read_waiting.
  apply obeys_bind; [apply obeys_observe | intros o].
  apply obeys_get; intros g Hg.
  apply obeys_bind; [apply obeys_modify; auto | intros _].
  apply obeys_ret.
Qed.

Lemma obeys_status (s : string) : obeys Inv P (status s).
Proof.
  unfold status.
  apply obeys_bind; [apply obeys_modify; auto | intros _].
  apply obeys_emit; auto.
Qed.

Lemma obeys_camera_info (s : string) : obeys Inv P (camera_info s).
Proof.
  unfold camera_info.
  apply obeys_bind; [apply obeys_modify; auto | intros _].
  apply obeys_emit; auto.
Qed.

Lemma obeys_set_stop : obeys Inv P set_stop.
Proof.
  unfold set_stop.
  apply obeys_bind; [apply obeys_modify; auto | intros _].
  apply obeys_emit; auto.
Qed.

Lemma obeys_serial_write (cmd : string) : obeys Inv P (serial_write cmd).
Proof.
  unfold serial_write.
  apply obeys_bind; [apply obeys_observe | intros o].
  apply obeys_bind; [apply obeys_emit; auto | intros _].
  destruct (o_serial o); [apply obeys_raise | apply obeys_ret].
Qed.

Lemma obeys_serial_poll : obeys Inv P serial_poll.
Proof.
  unfold serial_poll.
  apply obeys_bind; [apply obeys_observe | intros o].
  apply obeys_bind; [apply obeys_emit; auto | intros _].
  destruct (o_serial o); [apply obeys_raise | apply obeys_ret].
Qed.

Lemma obeys_arduino_write (word : string) : obeys Inv P (arduino_write word).
Proof.
  unfold arduino_write.
  apply obeys_bind; [apply obeys_observe | intros o].
  apply obeys_bind; [apply obeys_emit; auto | intros _].
  destruct (o_arduino o); [apply obeys_raise | apply obeys_ret].
Qed.

Lemma obeys_makedirs : obeys Inv P makedirs.
Proof.
  unfold makedirs.
  apply obeys_bind; [apply obeys_observe | intros o].
  apply obeys_bind; [apply obeys_emit; auto | intros _].
  destruct (o_makedirs o); [apply obeys_raise | apply obeys_ret].
Qed.

Lemma obeys_send_camera_command (cmd : string) :
  obeys Inv P (send_camera_command cmd).
Proof.
  unfold send_camera_command.
  apply obeys_get; intros g Hg.
  destruct (negb (camera_connected g) || negb (ser g)).
  - apply obeys_bind; [apply obeys_camera_info | intros _; apply obeys_ret].
  - apply obeys_catch.
    + apply obeys_bind; [apply obeys_serial_write | intros _].
      apply obeys_bind; [apply obeys_sleep; auto | intros _].
      apply obeys_bind; [apply obeys_serial_poll | intros waiting].
      apply obeys_bind; [| intros _; apply obeys_ret].
      destruct waiting; [apply obeys_camera_info | apply obeys_ret].
    + intros msg.
      apply obeys_bind; [apply obeys_camera_info | intros _; apply obeys_ret].
Qed.

Lemma obeys_control_filter (filter_in : bool) :
  obeys Inv P (control_filter filter_in).
Proof.
  unfold control_filter.
  apply obeys_get; intros g Hg.
  destruct (negb (camera_connected g)); [apply obeys_ret |].
  apply obeys_bind; [apply obeys_send_camera_command | intros success].
  apply obeys_when, obeys_camera_info.
Qed.

Lemma obeys_indicator (b : bool) (word : string) (ms : Z) :
  obeys Inv P (when b (arduino_write word ;; sleep ms)).
Proof.
  apply obeys_when.
  apply obeys_bind; [apply obeys_arduino_write | intros _].
  apply obeys_sleep; auto.
Qed.

Lemma obeys_take_both_photos : obeys Inv P take_both_photos.
Proof.
  unfold take_both_photos.
  apply obeys_get; intros g Hg.
  destruct (negb (camera_connected g)); [apply obeys_ret |].
  apply obeys_catch; [| intros msg; apply obeys_camera_info].
  repeat (apply obeys_bind;
          [first [ apply obeys_makedirs | apply obeys_indicator
                 | apply obeys_send_camera_command
                 | apply obeys_sleep; auto ]
          | intros _]).
  apply obeys_camera_info.
Qed.

Lemma obeys_wait_for_position (fuel : nat) (target : string) :
  obeys Inv P (wait_for_position fuel target).
Proof.
  induction fuel as [| fuel IH]; cbn [wait_for_position].
  - apply obeys_out_of_fuel.
  - apply obeys_bind; [apply obeys_read_stop | intros stop].
    destruct stop; [apply obeys_ret |].
    apply obeys_bind; [apply obeys_GCommand; auto | intros pos].
    destruct (String.eqb pos target); [apply obeys_ret |].
    apply obeys_bind; [apply obeys_sleep; auto | intros _; exact IH].
Qed.

Lemma obeys_wait_for_confirmation (fuel : nat) :
  obeys Inv P (wait_for_confirmation fuel).
Proof.
  induction fuel as [| fuel IH]; cbn [wait_for_confirmation].
  - apply obeys_out_of_fuel.
  - apply obeys_bind; [apply obeys_read_waiting | intros waiting].
    destruct (negb waiting); [apply obeys_ret |].
    apply obeys_bind; [apply obeys_read_stop | intros stop].
    destruct stop; [apply obeys_ret |].
    apply obeys_bind; [apply obeys_sleep; auto | intros _; exact IH].
Qed.

(** The moves of the grid pass the limit test of the state they are
    issued in. *)
Hypothesis P_move :
  forall g x y r, Inv g -> x <= x_limit g -> y <= y_limit g ->
                  P (Gantry (PA x y) r).

Lemma obeys_visit (fuel : nat) (s : steps) (y x : nat) (l : locals) :
  obeys Inv P (visit fuel s y x l).
Proof.
  unfold visit.
  apply obeys_bind; [apply obeys_read_stop | intros stop].
  destruct stop; [apply obeys_ret |].
  apply obeys_get; intros g Hg.
  destruct (next_aim_x s y x l >? x_limit g) eqn:Ex;
    [| destruct (aim_y l >? y_limit g) eqn:Ey]; cbn [orb].
  - apply obeys_bind; [apply obeys_status | intros _].
    apply obeys_bind; [apply obeys_set_stop | intros _; apply obeys_ret].
  - apply obeys_bind; [apply obeys_status | intros _].
    apply obeys_bind; [apply obeys_set_stop | intros _; apply obeys_ret].
  - rewrite Z.gtb_ltb in Ex, Ey. apply Z.ltb_ge in Ex, Ey.
    apply obeys_bind;
      [apply obeys_GCommand; intros r; apply (P_move g); assumption
      | intros _].
    apply obeys_bind; [apply obeys_status | intros _].
    apply obeys_bind; [apply obeys_wait_for_position | intros _].
    apply obeys_bind; [apply obeys_read_stop | intros stop].
    destruct stop; [apply obeys_ret |].
    apply obeys_bind; [apply obeys_status | intros _].
    apply obeys_get; intros g' Hg'.
    apply obeys_bind; [| intros _; apply obeys_ret].
    destruct (auto_capture g').
    + apply obeys_bind; [apply obeys_take_both_photos | intros _].
      apply obeys_sleep; auto.
    + apply obeys_bind; [apply obeys_modify; auto | intros _].
      apply obeys_bind; [apply obeys_emit; auto | intros _].
      apply obeys_wait_for_confirmation.
Qed.

Lemma obeys_row (fuel : nat) (s : steps) (y : nat) (xs : list nat)
    (l : locals) :
  obeys Inv P (row fuel s y xs l).
Proof.
  revert l. induction xs as [| x xs IH]; intros l; cbn [row].
  - apply obeys_ret.
  - apply obeys_bind; [apply obeys_visit | intros [l' broke]].
    destruct broke; [apply obeys_ret | apply IH].
Qed.

Lemma obeys_rows (fuel : nat) (sx sy : Z) (s : steps) (ys : list nat)
    (l : locals) :
  obeys Inv P (rows fuel sx sy s ys l).
Proof.
  revert l. induction ys as [| y ys IH]; intros l; cbn [rows].
  - apply obeys_ret.
  - apply obeys_bind; [apply obeys_row | intros l1].
    apply obeys_bind; [apply obeys_read_stop | intros stop].
    destruct stop; [apply obeys_ret | apply IH].
Qed.

End Obeys.

(** C4: the code departs from the claim. The gantry stands at
    x = 1000000, that position is made the start position and the x limit
    is lowered to 500000. [return_to_start_position] then commands the
    move to x = 1000000 with no comparison, and so does the first move of
    the imaging thread; homing commands its relative move by
    (100000, 200000) with no comparison either. [move_gantry] refuses the
    same target. *)
Lemma moves_past_the_limit :
  x_limit lowered_limit_gui = 500000 /\
  start_x lowered_limit_gui = Some 1000000 /\
  current_x lowered_limit_gui = 1000000 /\
  ~ (1000000 <= x_limit lowered_limit_gui) /\
  return_to_start_position demo_env {| app := lowered_limit_gui; clock := 0 |} =
  ({| app := set_status_var "Returning to start position: X=1000000, Y=0"
               lowered_limit_gui;
      clock := 1 |},
   [Status "Returning to start position: X=1000000, Y=0";
    Gantry (PA 1000000 0) (inl "0, 0"%string)],
   Val tt) /\
  (exists w' t r,
      _imaging_thread 1 1000000 0 demo_steps demo_env
                      {| app := lowered_limit_gui; clock := 0 |} =
      (w', Status "Moving to start position..."
           :: Gantry (PA 1000000 0) (inl "0, 0"%string) :: t, r)) /\
  (exists w' t r,
      _home_thread 1 demo_env {| app := lowered_limit_gui; clock := 0 |} =
      (w', Gantry (SP 50000 100000) (inl "0, 0"%string)
           :: Gantry (PR 100000 200000) (inl "0, 0"%string) :: t, r)) /\
  snd (fst (move_gantry 0 0 demo_env
                        {| app := lowered_limit_gui; clock := 0 |}))
  = [Status "Movement blocked by safety limits"].
Proof.
  split; [reflexivity |].
  split; [reflexivity |].
  split; [reflexivity |].
  split; [vm_compute; intros H; apply H; reflexivity |].
  split; [vm_compute; reflexivity |].
  split; [eexists _, _, _; vm_compute; reflexivity |].
  split; [eexists _, _, _; vm_compute; reflexivity |].
  vm_compute. reflexivity.
Qed.

(** C3: the code departs from the claim at the first cell. The start
    position (1000000, 0) lies above an x limit of 500000. The thread
    commands the move to it and waits for the arrival (lines 1211-1220);
    only then the check of cell 0,0, whose target is that same position,
    shows "Position 0,0 exceeds safety limits" and sets the stop flag. The
    move to the target above the limit was issued before the abort. *)
Lemma start_move_past_the_limit :
  x_limit lowered_limit_gui = 500000 /\
  next_aim_x demo_steps 0 0
             {| aim_x := 1000000; aim_y := 0; image_count := 0 |} = 1000000 /\
  ~ (1000000 <= x_limit lowered_limit_gui) /\
  snd (fst (_imaging_thread 2 1000000 0 demo_steps far_env
                            {| app := lowered_limit_gui; clock := 0 |}))
  = [Status "Moving to start position...";
     Gantry (PA 1000000 0) (inl "1000000, 0"%string);
     StopFlag false; Gantry RP (inl "1000000, 0"%string);
     StopFlag false; Status "Imaging sequence started";
     StopFlag false;
     Status "Position 0,0 exceeds safety limits - stopping sequence";
     StopSet; StopFlag true; StopFlag true;
     Status "Imaging sequence stopped"] /\
  snd (_imaging_thread 2 1000000 0 demo_steps far_env
                       {| app := lowered_limit_gui; clock := 0 |}) = Val tt.
Proof.
  split; [reflexivity |].
  split; [reflexivity |].
  split; [vm_compute; intros H; apply H; reflexivity |].
  split; vm_compute; reflexivity.
Qed.

Lemma move_gantry_within (E : env) (w w' : world) (x_change y_change : Z)
    (t : list event) (r : result unit) :
  move_gantry x_change y_change E w = (w', t, r) ->
  Forall (move_within (x_limit (app w)) (y_limit (app w))) t.
Proof.
  unfold move_gantry. rewrite bind_get.
  destruct (connected (app w)); cbn [negb].
  2:{ rewrite ret_run. intros H; inversion H; subst. constructor. }
  unfold catch.
  destruct (current_x (app w) + x_change >? x_limit (app w)) eqn:Ex;
    [| destruct (current_y (app w) + y_change >? y_limit (app w)) eqn:Ey];
    cbn [orb].
  - rewrite status_run. intros H; inversion H; subst. repeat constructor.
  - rewrite status_run. intros H; inversion H; subst. repeat constructor.
  - rewrite Z.gtb_ltb in Ex, Ey. apply Z.ltb_ge in Ex, Ey.
    rewrite bind_GCommand.
    destruct (o_gantry (E (clock w))) as [reply | msg].
    + rewrite status_run. unfold log_first. intros H; inversion H; subst.
      repeat constructor; assumption.
    + rewrite status_run. cbv beta iota. intros H; inversion H; subst.
      cbn [List.app]. repeat constructor; assumption.
Qed.

Lemma rows_within (E : env) (fuel : nat) (sx sy : Z) (s : steps)
    (ys : list nat) (l : locals) (w w' : world) (t : list event)
    (r : result locals) :
  rows fuel sx sy s ys l E w = (w', t, r) ->
  Forall (move_within (x_limit (app w)) (y_limit (app w))) t.
Proof.
  intros H.
  refine (proj2 (obeys_rows
                   (fun g => x_limit g = x_limit (app w) /\
                             y_limit g = y_limit (app w))
                   (move_within (x_limit (app w)) (y_limit (app w)))
                   _ _ _ _ _ _ _ _ _ _ _ _ _ _ _ _
                   fuel sx sy s ys l E w w' t r H (conj eq_refl eq_refl)));
    try (intros; exact I); try (intros ? g Hg; exact Hg).
  intros g x y rep [Hx Hy] Hlx Hly. simpl. lia.
Qed.

(** X29: the manual move and the moves of the loop over the grid are
    compared with the limits before they are commanded: every positioning
    command they issue has its target at or below the x limit and the
    y limit. *)
Theorem limit_checked_moves :
  (forall (E : env) (w w' : world) (x_change y_change : Z) (t : list event)
          (r : result unit),
      move_gantry x_change y_change E w = (w', t, r) ->
      forall x y reply,
        In (Gantry (PA x y) reply) t ->
        x <= x_limit (app w) /\ y <= y_limit (app w)) /\
  (forall (E : env) (fuel : nat) (sx sy : Z) (s : steps) (ys : list nat)
          (l : locals) (w w' : world) (t : list event) (r : result locals),
      rows fuel sx sy s ys l E w = (w', t, r) ->
      forall x y reply,
        In (Gantry (PA x y) reply) t ->
        x <= x_limit (app w) /\ y <= y_limit (app w)).
Proof.
  split.
  - intros E w w' dx dy t r H x y reply Hin.
    apply move_gantry_within in H.
    rewrite Forall_forall in H. exact (H _ Hin).
  - intros E fuel sx sy s ys l w w' t r H x y reply Hin.
    apply rows_within in H.
    rewrite Forall_forall in H. exact (H _ Hin).
Qed.

(** * Cooperative cancellation *)

Section StopLogs.

Lemma flag_after_app (b : bool) (t1 t2 : list event) :
  flag_after b (t1 ++ t2) = flag_after (flag_after b t1) t2.
Proof.
  unfold flag_after. rewrite existsb_app.
  destruct b, (existsb sets_stop t1); reflexivity.
Qed.

Lemma flag_after_cons (b : bool) (e : event) (t : list event) :
  flag_after b (e :: t) = flag_after (b || sets_stop e) t.
Proof.
  unfold flag_after. cbn [existsb]. apply orb_assoc.
Qed.

Lemma after_stop_app (b : bool) (t1 t2 : list event) :
  after_stop b (t1 ++ t2) <->
  after_stop b t1 /\ after_stop (flag_after b t1) t2.
Proof.
  revert b. induction t1 as [| e t1 IH]; intros b.
  - cbn [List.app after_stop]. unfold flag_after. cbn [existsb].
    rewrite orb_false_r. tauto.
  - cbn [List.app after_stop]. rewrite IH, flag_after_cons. tauto.
Qed.

Lemma after_stop_true (t : list event) :
  after_stop true t <-> Forall silent t.
Proof.
  induction t as [| e t IH]; cbn [after_stop orb].
  - split; [constructor | trivial].
  - rewrite IH. split.
    + intros [He Ht]. constructor; auto.
    + intros H; inversion H; subst. auto.
Qed.

Lemma after_stop_silent (b : bool) (t : list event) :
  Forall silent t -> after_stop b t.
Proof.
  revert b. induction t as [| e t IH]; intros b H; cbn [after_stop].
  - trivial.
  - inversion H; subst. auto.
Qed.

Lemma no_stop_clear (t : list event) :
  Forall (fun e => sets_stop e = false) t ->
  after_stop false t /\ flag_after false t = false.
Proof.
  induction t as [| e t IH]; intros H.
  - split; [exact I | reflexivity].
  - inversion H as [| ? ? He Ht]; subst.
    destruct (IH Ht) as [IH1 IH2].
    cbn [after_stop]. rewrite flag_after_cons, He. cbn [orb].
    repeat split; try assumption. discriminate.
Qed.

(** Everything logged after an event that sets the stop is silent. *)
Lemma after_stop_split (b : bool) (t1 t2 : list event) (e : event) :
  after_stop b (t1 ++ e :: t2) -> sets_stop e = true -> Forall silent t2.
Proof.
  intros H He. apply after_stop_app in H as [_ H].
  cbn [after_stop] in H. destruct H as [_ H].
  rewrite He, orb_true_r in H. apply after_stop_true, H.
Qed.

Lemma flag_after_split (b : bool) (t1 t2 : list event) (e : event) :
  sets_stop e = true -> flag_after b (t1 ++ e :: t2) = true.
Proof.
  intros He. unfold flag_after. rewrite existsb_app. cbn [existsb].
  rewrite He. cbn [orb]. rewrite !orb_true_r. reflexivity.
Qed.

End StopLogs.

Section Cooperative.

Context {A : Type}.

Lemma cooperative_clear (m : M A) : cooperative m -> cooperative_if_clear m.
Proof. intros H E w w' t r Hr _. exact (H _ _ _ _ _ Hr). Qed.

Lemma neutral_clear (m : M A) : neutral m -> cooperative_if_clear m.
Proof.
  intros H E w w' t r Hr Hw. destruct (H _ _ _ _ _ Hr) as [Hs Ht].
  destruct (no_stop_clear t Ht) as [H1 H2].
  unfold honours_stop. rewrite Hs, Hw, H2. repeat split; auto. discriminate.
Qed.

Lemma cooperative_ret (a : A) : cooperative (ret a).
Proof.
  intros E w w' t r H. inversion H; subst. unfold honours_stop, flag_after.
  cbn [after_stop existsb]. rewrite orb_false_r. eauto.
Qed.

Lemma clear_out_of_fuel : cooperative_if_clear (@out_of_fuel A).
Proof.
  intros E w w' t r H Hw. inversion H; subst. unfold honours_stop, flag_after.
  cbn [after_stop existsb]. rewrite orb_false_r, Hw.
  repeat split; auto. discriminate.
Qed.

End Cooperative.

Lemma honours_bind {A B} (w w1 w2 : world) (t1 t2 : list event) (a : A)
    (r : result B) :
  honours_stop w w1 t1 (Val a) -> honours_stop w1 w2 t2 r ->
  honours_stop w w2 (t1 ++ t2) r.
Proof.
  unfold honours_stop. intros (H1 & H2 & _) (H3 & H4 & H5).
  rewrite after_stop_app, flag_after_app, <- H2. auto.
Qed.

Lemma cooperative_bind {A B} (m : M A) (k : A -> M B) :
  cooperative m -> (forall a, cooperative (k a)) -> cooperative (bind m k).
Proof.
  intros Hm Hk E w w' t r H.
  apply bind_inv in H
    as [(w1 & t1 & a & t2 & H1 & H2 & ->) | [(msg & H1 & ->) | (H1 & ->)]].
  - eapply honours_bind; [exact (Hm _ _ _ _ _ H1) | exact (Hk _ _ _ _ _ _ H2)].
  - destruct (Hm _ _ _ _ _ H1) as (Ha & Hb & Hc).
    repeat split; auto. intros Hs. destruct (Hc Hs); discriminate.
  - destruct (Hm _ _ _ _ _ H1) as (Ha & Hb & Hc).
    repeat split; auto. intros Hs. destruct (Hc Hs); discriminate.
Qed.

(** After a computation that can set the flag, the rest must honour it
    from every state. *)
Lemma clear_bind {A B} (m : M A) (k : A -> M B) :
  cooperative_if_clear m -> (forall a, cooperative (k a)) ->
  cooperative_if_clear (bind m k).
Proof.
  intros Hm Hk E w w' t r H Hw.
  apply bind_inv in H
    as [(w1 & t1 & a & t2 & H1 & H2 & ->) | [(msg & H1 & ->) | (H1 & ->)]].
  - eapply honours_bind;
      [exact (Hm _ _ _ _ _ H1 Hw) | exact (Hk _ _ _ _ _ _ H2)].
  - destruct (Hm _ _ _ _ _ H1 Hw) as (Ha & Hb & Hc).
    repeat split; auto. intros Hs. destruct (Hc Hs); discriminate.
  - destruct (Hm _ _ _ _ _ H1 Hw) as (Ha & Hb & Hc).
    repeat split; auto. intros Hs. destruct (Hc Hs); discriminate.
Qed.

(** After a computation that leaves the flag alone, the rest needs to
    honour it only from a clear flag. *)
Lemma clear_bind_neutral {A B} (m : M A) (k : A -> M B) :
  neutral m -> (forall a, cooperative_if_clear (k a)) ->
  cooperative_if_clear (bind m k).
Proof.
  intros Hm Hk E w w' t r H Hw.
  pose proof (neutral_clear m Hm) as Hc.
  apply bind_inv in H
    as [(w1 & t1 & a & t2 & H1 & H2 & ->) | [(msg & H1 & ->) | (H1 & ->)]].
  - destruct (Hm _ _ _ _ _ H1) as [Hs _].
    eapply honours_bind; [exact (Hc _ _ _ _ _ H1 Hw) |].
    apply (Hk a _ _ _ _ _ H2). congruence.
  - destruct (Hc _ _ _ _ _ H1 Hw) as (Ha & Hb & Hd).
    repeat split; auto. intros Hs. destruct (Hd Hs); discriminate.
  - destruct (Hc _ _ _ _ _ H1 Hw) as (Ha & Hb & Hd).
    repeat split; auto. intros Hs. destruct (Hd Hs); discriminate.
Qed.

Lemma clear_get {A} (k : gui -> M A) :
  (forall g, cooperative_if_clear (k g)) -> cooperative_if_clear (bind get k).
Proof.
  intros Hk E w w' t r H Hw. rewrite bind_get in H.
  exact (Hk _ _ _ _ _ _ H Hw).
Qed.

(** The guard [if self.stop_imaging: ...] at the head of a step. *)
Lemma cooperative_guard {A} (k1 k2 : M A) :
  cooperative k1 -> cooperative_if_clear k2 ->
  cooperative (bind read_stop (fun stop => if stop then k1 else k2)).
Proof.
  intros H1 H2 E w w' t r H. rewrite bind_read_stop in H. cbv zeta in H.
  destruct (log_first_eq
              (StopFlag (stop_imaging (app w) || o_stop (E (clock w))))
              ((if stop_imaging (app w) || o_stop (E (clock w))
                then k1 else k2) E
                 {| app := set_stop_imaging
                             (stop_imaging (app w) || o_stop (E (clock w)))
                             (app w);
                    clock := S (clock w) |}))
    as (w2 & t2 & r2 & Hk & Hl).
  rewrite Hl in H. inversion H; subst; clear H Hl.
  destruct (stop_imaging (app w) || o_stop (E (clock w))) eqn:Eb.
  - destruct (H1 _ _ _ _ _ Hk) as (Ha & Hb & Hc). fields.
    unfold honours_stop. cbn [after_stop sets_stop].
    rewrite flag_after_cons. cbn [sets_stop]. rewrite orb_true_r.
    repeat split; auto.
  - apply orb_false_elim in Eb as [Ew Eo].
    destruct (H2 _ _ _ _ _ Hk eq_refl) as (Ha & Hb & Hc). fields.
    unfold honours_stop. cbn [after_stop sets_stop].
    rewrite flag_after_cons. cbn [sets_stop]. rewrite Ew. cbn [orb].
    repeat split; auto; discriminate.
Qed.

Lemma clear_catch {A} (m : M A) (h : string -> M A) :
  cooperative_if_clear m -> (forall msg, cooperative (h msg)) ->
  cooperative_if_clear (catch m h).
Proof.
  intros Hm Hh E w w' t r H Hw.
  apply catch_inv in H as [(w1 & t1 & msg & t2 & H1 & H2 & ->) | (H1 & _)].
  - destruct (Hm _ _ _ _ _ H1 Hw) as (Ha & Hb & Hc).
    destruct (Hh msg _ _ _ _ _ H2) as (Hd & He & Hf).
    unfold honours_stop. rewrite after_stop_app, flag_after_app, <- Hb. auto.
  - exact (Hm _ _ _ _ _ H1 Hw).
Qed.

(** A computation is neutral when it keeps every value of the flag and
    logs no event that sets it. *)
Lemma neutral_obeys {A} (m : M A) :
  (forall b, obeys (fun g => stop_imaging g = b)
                   (fun e => sets_stop e = false) m) ->
  neutral m.
Proof.
  intros H E w w' t r Hr.
  destruct (H (stop_imaging (app w)) _ _ _ _ _ Hr eq_refl). auto.
Qed.

Section Neutral.

Lemma neutral_GCommand (c : gcmd) : neutral (GCommand c).
Proof.
  apply neutral_obeys. intros b. apply obeys_GCommand. reflexivity.
Qed.

Lemma neutral_status (s : string) : neutral (status s).
Proof.
  apply neutral_obeys. intros b. apply obeys_status; auto.
Qed.

Lemma neutral_sleep (ms : Z) : neutral (sleep ms).
Proof. apply neutral_obeys. intros b. apply obeys_sleep. reflexivity. Qed.

Lemma neutral_take_both_photos : neutral take_both_photos.
Proof.
  apply neutral_obeys. intros b. apply obeys_take_both_photos; auto.
Qed.

Lemma neutral_control_filter (filter_in : bool) :
  neutral (control_filter filter_in).
Proof.
  apply neutral_obeys. intros b. apply obeys_control_filter; auto.
Qed.

Lemma neutral_read_waiting : neutral read_waiting.
Proof.
  apply neutral_obeys. intros b. apply obeys_read_waiting; auto.
Qed.

Lemma neutral_bind {A B} (m : M A) (k : A -> M B) :
  neutral m -> (forall a, neutral (k a)) -> neutral (bind m k).
Proof.
  intros Hm Hk E w w' t r H.
  apply bind_inv in H
    as [(w1 & t1 & a & t2 & H1 & H2 & ->) | [(msg & H1 & ->) | (H1 & ->)]].
  - destruct (Hm _ _ _ _ _ H1) as [Ha Hb].
    destruct (Hk a _ _ _ _ _ H2) as [Hc Hd].
    split; [congruence | apply Forall_app; auto].
  - exact (Hm _ _ _ _ _ H1).
  - exact (Hm _ _ _ _ _ H1).
Qed.

Lemma neutral_ret {A} (a : A) : neutral (ret a).
Proof. intros E w w' t r H. inversion H; subst. auto. Qed.

Lemma neutral_when (b : bool) (m : M unit) : neutral m -> neutral (when b m).
Proof. destruct b; [auto | intros _; apply neutral_ret]. Qed.

End Neutral.

Section CooperativeSteps.

Lemma cooperative_status (s : string) : cooperative (status s).
Proof.
  intros E w w' t r H. rewrite status_run in H. inversion H; subst.
  unfold honours_stop, flag_after. fields.
  cbn [after_stop existsb sets_stop orb silent]. rewrite orb_false_r.
  repeat split; eauto.
Qed.

Lemma cooperative_read_stop : cooperative read_stop.
Proof.
  intros E w w' t r H. inversion H; subst.
  unfold honours_stop, flag_after. fields.
  cbn [after_stop existsb sets_stop silent].
  destruct (stop_imaging (app w)), (o_stop (E (clock w)));
    cbn [orb]; repeat split; eauto.
Qed.

Lemma cooperative_set_stop : cooperative set_stop.
Proof.
  intros E w w' t r H. inversion H; subst.
  unfold honours_stop, flag_after. fields.
  cbn [after_stop existsb sets_stop orb silent]. rewrite orb_true_r.
  repeat split; eauto.
Qed.

Lemma cooperative_end_imaging : cooperative (modify (set_is_imaging false)).
Proof.
  intros E w w' t r H. inversion H; subst.
  unfold honours_stop, flag_after. fields.
  cbn [after_stop existsb]. rewrite orb_false_r.
  repeat split; eauto.
Qed.

Lemma clear_wait_for_position (fuel : nat) (target : string) :
  cooperative_if_clear (wait_for_position fuel target).
Proof.
  induction fuel as [| fuel IH]; cbn [wait_for_position].
  - apply clear_out_of_fuel.
  - apply cooperative_clear, cooperative_guard; [apply cooperative_ret |].
    apply clear_bind_neutral; [apply neutral_GCommand | intros pos].
    destruct (String.eqb pos target).
    + apply cooperative_clear, cooperative_ret.
    + apply clear_bind_neutral; [apply neutral_sleep | intros _; exact IH].
Qed.

Lemma clear_wait_for_confirmation (fuel : nat) :
  cooperative_if_clear (wait_for_confirmation fuel).
Proof.
  induction fuel as [| fuel IH]; cbn [wait_for_confirmation].
  - apply clear_out_of_fuel.
  - apply clear_bind_neutral; [apply neutral_read_waiting | intros waiting].
    destruct (negb waiting); [apply cooperative_clear, cooperative_ret |].
    apply cooperative_clear, cooperative_guard; [apply cooperative_ret |].
    apply clear_bind_neutral; [apply neutral_sleep | intros _; exact IH].
Qed.

Lemma neutral_set_waiting (b : bool) :
  neutral (modify (set_waiting_for_photo b)).
Proof.
  apply neutral_obeys. intros c. apply obeys_modify; auto.
Qed.

Lemma neutral_prompt (n : Z) (pos : string) : neutral (emit (Prompt n pos)).
Proof.
  apply neutral_obeys. intros b. apply obeys_emit. reflexivity.
Qed.

Lemma cooperative_visit (fuel : nat) (s : steps) (y x : nat) (l : locals) :
  cooperative (visit fuel s y x l).
Proof.
  unfold visit. apply cooperative_guard; [apply cooperative_ret |].
  apply clear_get; intros g.
  destruct ((next_aim_x s y x l >? x_limit g) || (aim_y l >? y_limit g)).
  - apply cooperative_clear.
    apply cooperative_bind; [apply cooperative_status | intros _].
    apply cooperative_bind; [apply cooperative_set_stop | intros _].
    apply cooperative_ret.
  - apply clear_bind_neutral; [apply neutral_GCommand | intros _].
    apply clear_bind_neutral; [apply neutral_status | intros _].
    apply clear_bind; [apply clear_wait_for_position | intros _].
    apply cooperative_guard; [apply cooperative_ret |].
    apply clear_bind_neutral; [apply neutral_status | intros _].
    apply clear_get; intros g'.
    apply clear_bind; [| intros _; apply cooperative_ret].
    destruct (auto_capture g').
    + apply neutral_clear, neutral_bind;
        [apply neutral_take_both_photos | intros _; apply neutral_sleep].
    + apply clear_bind_neutral; [apply neutral_set_waiting | intros _].
      apply clear_bind_neutral;
        [apply neutral_prompt | intros _; apply clear_wait_for_confirmation].
Qed.

Lemma cooperative_row (fuel : nat) (s : steps) (y : nat) (xs : list nat)
    (l : locals) :
  cooperative (row fuel s y xs l).
Proof.
  revert l. induction xs as [| x xs IH]; intros l; cbn [row].
  - apply cooperative_ret.
  - apply cooperative_bind; [apply cooperative_visit | intros [l' broke]].
    destruct broke; [apply cooperative_ret | apply IH].
Qed.

Lemma cooperative_rows (fuel : nat) (sx sy : Z) (s : steps) (ys : list nat)
    (l : locals) :
  cooperative (rows fuel sx sy s ys l).
Proof.
  revert l. induction ys as [| y ys IH]; intros l; cbn [rows].
  - apply cooperative_ret.
  - apply cooperative_bind; [apply cooperative_row | intros l1].
    apply cooperative_guard; [apply cooperative_ret |].
    apply cooperative_clear, IH.
Qed.

Lemma clear_imaging_thread (fuel : nat) (sx sy : Z) (s : steps) :
  cooperative_if_clear (_imaging_thread fuel sx sy s).
Proof.
  unfold _imaging_thread. apply clear_catch.
  2:{ intros msg.
      apply cooperative_bind; [apply cooperative_status | intros _].
      apply cooperative_end_imaging. }
  apply clear_bind_neutral; [apply neutral_status | intros _].
  apply clear_get; intros g.
  apply clear_bind_neutral.
  { apply neutral_when, neutral_bind;
      [apply neutral_control_filter | intros _; apply neutral_sleep]. }
  intros _.
  apply clear_bind_neutral; [apply neutral_GCommand | intros _].
  apply clear_bind; [apply clear_wait_for_position | intros _].
  apply cooperative_guard.
  - apply cooperative_bind; [apply cooperative_status | intros _].
    apply cooperative_end_imaging.
  - apply clear_bind_neutral; [apply neutral_status | intros _].
    apply clear_bind; [apply cooperative_clear, cooperative_rows | intros l].
    apply cooperative_bind; [apply cooperative_read_stop | intros stop].
    apply cooperative_bind; [| intros _; apply cooperative_end_imaging].
    destruct (negb stop); apply cooperative_status.
Qed.

End CooperativeSteps.

Lemma bind_val_inv {A B} (m : M A) (k : A -> M B) (E : env) (w w' : world)
    (t : list event) (b : B) :
  bind m k E w = (w', t, Val b) ->
  exists w1 t1 a t2,
    m E w = (w1, t1, Val a) /\ k a E w1 = (w', t2, Val b) /\ t = t1 ++ t2.
Proof.
  intros H.
  apply bind_inv in H
    as [(w1 & t1 & a & t2 & H1 & H2 & ->) | [(msg & _ & H) | (_ & H)]];
    [eauto 8 | discriminate | discriminate].
Qed.

Lemma log_first_inv {A} (e : event) (x : world * list event * result A)
    (w : world) (t : list event) (r : result A) :
  log_first e x = (w, t, r) -> exists t0, x = (w, t0, r) /\ t = e :: t0.
Proof.
  destruct x as [[w0 t0] r0]. unfold log_first.
  intros H; inversion H; subst. eauto.
Qed.

Lemma stopped_ending (E : env) (w w' : world) (t : list event)
    (r : result unit) :
  (status "Imaging sequence stopped" ;; modify (set_is_imaging false))%m E w
  = (w', t, r) ->
  ends_stopped w'.
Proof.
  rewrite bind_status, modify_run. unfold log_first.
  intros H; inversion H; subst. split; reflexivity.
Qed.

Lemma imaging_thread_ends_stopped (E : env) (fuel : nat) (sx sy : Z)
    (s : steps) (w w' : world) (t : list event) (r : result unit) :
  stop_imaging (app w) = false ->
  _imaging_thread fuel sx sy s E w = (w', t, r) ->
  stop_imaging (app w') = true ->
  r = Val tt /\ ends_stopped w'.
Proof.
  intros Hw H Hs.
  destruct (clear_imaging_thread fuel sx sy s _ _ _ _ _ H Hw) as (_ & _ & Hv).
  destruct (Hv Hs) as [[] ->]. split; [reflexivity |].
  unfold _imaging_thread in H.
  apply catch_inv in H as [(w1 & t1 & msg & t2 & H1 & H2 & ->) | (H & _)].
  { (* an exception leaves the flag clear *)
    exfalso. revert H1 H2.
    match goal with
    | |- ?body E w = _ -> _ =>
        assert (Hb : cooperative_if_clear body)
    end.
    { apply clear_bind_neutral; [apply neutral_status | intros _].
      apply clear_get; intros g.
      apply clear_bind_neutral.
      { apply neutral_when, neutral_bind;
          [apply neutral_control_filter | intros _; apply neutral_sleep]. }
      intros _.
      apply clear_bind_neutral; [apply neutral_GCommand | intros _].
      apply clear_bind; [apply clear_wait_for_position | intros _].
      apply cooperative_guard.
      - apply cooperative_bind; [apply cooperative_status | intros _].
        apply cooperative_end_imaging.
      - apply clear_bind_neutral; [apply neutral_status | intros _].
        apply clear_bind;
          [apply cooperative_clear, cooperative_rows | intros l].
        apply cooperative_bind; [apply cooperative_read_stop | intros stop].
        apply cooperative_bind; [| intros _; apply cooperative_end_imaging].
        destruct (negb stop); apply cooperative_status. }
    intros H1 H2.
    destruct (Hb _ _ _ _ _ H1 Hw) as (_ & _ & Hv1).
    rewrite bind_status, modify_run in H2. unfold log_first in H2.
    inversion H2; subst. fields.
    destruct (Hv1 Hs) as [a Ha]. discriminate. }
  apply bind_val_inv in H as (w1 & t1 & [] & t2 & _ & H & _).
  rewrite bind_get in H.
  apply bind_val_inv in H as (w2 & t3 & [] & t4 & _ & H & _).
  apply bind_val_inv in H as (w3 & t5 & reply & t6 & _ & H & _).
  apply bind_val_inv in H as (w4 & t7 & done & t8 & _ & H & _).
  rewrite bind_read_stop in H. cbv zeta in H.
  apply log_first_inv in H as (t9 & H & _).
  destruct (stop_imaging (app w4) || o_stop (E (clock w4))).
  { exact (stopped_ending _ _ _ _ _ H). }
  apply bind_val_inv in H as (w5 & t10 & [] & t11 & _ & H & _).
  apply bind_val_inv in H as (w6 & t12 & l & t13 & _ & H & _).
  rewrite bind_read_stop in H. cbv zeta in H.
  apply log_first_inv in H as (t14 & H & _).
  destruct (stop_imaging (app w6) || o_stop (E (clock w6))); cbn [negb] in H.
  { exact (stopped_ending _ _ _ _ _ H). }
  exfalso. rewrite bind_status, modify_run in H. unfold log_first in H.
  inversion H; subst. fields. discriminate.
Qed.

(** C8: cancellation is cooperative, through the one flag
    [stop_imaging], which [stop_imaging_sequence] sets while a sequence
    runs. In every run of the imaging thread that starts with the flag
    clear, once a read of the flag finds it set (or the thread sets it
    itself) nothing but status updates and further reads of the flag
    follows: no move, no query of the position, no capture command, no
    prompt. The thread then returns with the status "Imaging sequence
    stopped" and the imaging flag cleared. *)
Theorem stop_is_cooperative :
  (forall g : gui,
      is_imaging g = true -> stop_imaging (stop_imaging_sequence true g) = true) /\
  (forall (E : env) (fuel : nat) (sx sy : Z) (s : steps) (w w' : world)
          (t : list event) (r : result unit),
      stop_imaging (app w) = false ->
      _imaging_thread fuel sx sy s E w = (w', t, r) ->
      forall t1 e t2,
        t = t1 ++ e :: t2 -> sets_stop e = true ->
        Forall silent t2 /\ r = Val tt /\
        status_var (app w') = "Imaging sequence stopped"%string /\
        is_imaging (app w') = false).
Proof.
  split.
  - intros g Hg. unfold stop_imaging_sequence. rewrite Hg. reflexivity.
  - intros E fuel sx sy s w w' t r Hw H t1 e t2 -> He.
    destruct (clear_imaging_thread fuel sx sy s _ _ _ _ _ H Hw)
      as (Ha & Hb & _).
    rewrite Hw in Ha, Hb.
    split; [exact (after_stop_split _ _ _ _ Ha He) |].
    rewrite (flag_after_split false t1 t2 e He) in Hb.
    destruct (imaging_thread_ends_stopped _ _ _ _ _ _ _ _ _ Hw H Hb)
      as (Hr & Hst & Him).
    auto.
Qed.

Lemma visit_abort (E : env) (fuel : nat) (s : steps) (y x : nat) (l : locals)
    (w : world) :
  stop_imaging (app w) = false -> o_stop (E (clock w)) = false ->
  x_limit (app w) < next_aim_x s y x l \/ y_limit (app w) < aim_y l ->
  let message := ("Position " ++ cell_name x y
                  ++ " exceeds safety limits - stopping sequence")%string in
  visit fuel s y x l E w =
  ({| app := set_stop_imaging true
               (set_status_var message (set_stop_imaging false (app w)));
      clock := S (clock w) |},
   [StopFlag false; Status message; StopSet],
   Val ({| aim_x := next_aim_x s y x l; aim_y := aim_y l;
           image_count := image_count l |}, true)).
Proof.
  intros Hs Ho Hlim message.
  unfold visit. rewrite bind_read_stop, Hs, Ho. cbn [orb]. cbv zeta.
  rewrite bind_get. fields.
  assert (Ht : (next_aim_x s y x l >? x_limit (app w))
               || (aim_y l >? y_limit (app w)) = true).
  { apply orb_true_iff. rewrite !Z.gtb_ltb, !Z.ltb_lt. exact Hlim. }
  rewrite Ht, bind_status, bind_set_stop, ret_run. reflexivity.
Qed.

(** X30: the loop over the grid commands no target above the x limit
    or above the y limit. Reaching such a target with the flag clear, a
    cell logs the status "Position x,y exceeds safety limits", sets the
    stop flag and breaks without having issued the move; every move the
    loop issues is at or below both limits; and in a run of the thread
    nothing but status updates and reads of the flag follows the setting
    of the flag, so no later move or capture is commanded. *)
Theorem limit_aborts_sequence :
  (forall (E : env) (fuel : nat) (s : steps) (y x : nat) (l : locals)
          (w : world),
      stop_imaging (app w) = false -> o_stop (E (clock w)) = false ->
      x_limit (app w) < next_aim_x s y x l \/ y_limit (app w) < aim_y l ->
      exists w' message,
        visit fuel s y x l E w =
        (w', [StopFlag false; Status message; StopSet],
         Val ({| aim_x := next_aim_x s y x l; aim_y := aim_y l;
                 image_count := image_count l |}, true)) /\
        stop_imaging (app w') = true) /\
  (forall (E : env) (fuel : nat) (sx sy : Z) (s : steps) (l : locals)
          (w w' : world) (t : list event) (r : result locals),
      rows fuel sx sy s (range (y_steps s)) l E w = (w', t, r) ->
      forall x y reply,
        In (Gantry (PA x y) reply) t ->
        x <= x_limit (app w) /\ y <= y_limit (app w)) /\
  (forall (E : env) (fuel : nat) (sx sy : Z) (s : steps) (w w' : world)
          (t : list event) (r : result unit),
      stop_imaging (app w) = false ->
      _imaging_thread fuel sx sy s E w = (w', t, r) ->
      forall t1 t2,
        t = t1 ++ StopSet :: t2 ->
        Forall silent t2 /\
        status_var (app w') = "Imaging sequence stopped"%string).
Proof.
  split; [| split].
  - intros E fuel s y x l w Hs Ho Hlim.
    eexists _, _. split; [apply visit_abort; assumption | reflexivity].
  - intros E fuel sx sy s l w w' t r H x y reply Hin.
    apply rows_within in H. rewrite Forall_forall in H. exact (H _ Hin).
  - intros E fuel sx sy s w w' t r Hw H t1 t2 ->.
    destruct (clear_imaging_thread fuel sx sy s _ _ _ _ _ H Hw)
      as (Ha & Hb & _).
    rewrite Hw in Ha, Hb.
    split; [exact (after_stop_split _ _ _ _ Ha eq_refl) |].
    rewrite (flag_after_split false t1 t2 StopSet eq_refl) in Hb.
    destruct (imaging_thread_ends_stopped _ _ _ _ _ _ _ _ _ Hw H Hb)
      as (_ & Hst & _).
    exact Hst.
Qed.

(** * Polling for arrival *)

Lemma polling_no_capture (target : string) (t : list event) (done : bool) :
  polling target t done -> Forall (fun e => ~ capture_event e) t.
Proof.
  induction 1; repeat constructor; auto.
Qed.

Lemma wait_for_position_polls (E : env) (fuel : nat) (target : string)
    (w w' : world) (t : list event) (done : bool) :
  wait_for_position fuel target E w = (w', t, Val done) ->
  polling target t done /\ (done = false -> stop_imaging (app w') = true).
Proof.
  revert w t. induction fuel as [| fuel IH]; intros w t;
    cbn [wait_for_position].
  - discriminate.
  - rewrite bind_read_stop. cbv zeta. intros H.
    apply log_first_inv in H as (t0 & H & ->).
    destruct (stop_imaging (app w) || o_stop (E (clock w))) eqn:Eb.
    + rewrite ret_run in H. inversion H; subst. fields.
      split; [constructor | reflexivity].
    + rewrite bind_GCommand in H. fields.
      destruct (o_gantry (E (S (clock w)))) as [reply | msg];
        [| discriminate].
      apply log_first_inv in H as (t1 & H & ->).
      destruct (String.eqb reply target) eqn:Er.
      * apply String.eqb_eq in Er. subst reply.
        rewrite ret_run in H. inversion H; subst.
        split; [constructor | discriminate].
      * apply String.eqb_neq in Er.
        rewrite bind_sleep in H.
        apply log_first_inv in H as (t2 & H & ->).
        destruct (IH _ _ H) as [Hp Hd].
        split; [constructor; assumption | exact Hd].
Qed.

Lemma visit_capture (E : env) (fuel : nat) (s : steps) (y x : nat)
    (l l' : locals) (w w' : world) (t : list event) (broke : bool) :
  visit fuel s y x l E w = (w', t, Val (l', broke)) ->
  let ax := next_aim_x s y x l in
  let ay := aim_y l in
  if broke then
    image_count l' = image_count l /\ Forall (fun e => ~ capture_event e) t
  else
    image_count l' = image_count l + 1 /\
    exists reply moving tpoll imaged tcapture,
      t = StopFlag false :: Gantry (PA ax ay) (inl reply) :: Status moving
          :: tpoll ++ StopFlag false :: Status imaged :: tcapture /\
      polling (fmt_pos ax ay) tpoll true.
Proof.
  unfold visit. rewrite bind_read_stop. cbv zeta. intros H.
  apply log_first_inv in H as (t0 & H & ->).
  destruct (stop_imaging (app w) || o_stop (E (clock w))).
  { rewrite ret_run in H. inversion H; subst. cbn [image_count].
    split; [reflexivity | repeat constructor; auto]. }
  rewrite bind_get in H. fields.
  destruct ((next_aim_x s y x l >? x_limit (app w))
            || (aim_y l >? y_limit (app w))).
  { rewrite bind_status, bind_set_stop, ret_run in H. unfold log_first in H.
    inversion H; subst. cbn [image_count].
    split; [reflexivity | repeat constructor; auto]. }
  rewrite bind_GCommand in H. fields.
  destruct (o_gantry (E (S (clock w)))) as [reply | msg]; [| discriminate].
  apply log_first_inv in H as (t1 & H & ->).
  rewrite bind_status in H.
  apply log_first_inv in H as (t2 & H & ->).
  apply bind_val_inv in H as (w1 & tpoll & done & t3 & Hwait & H & ->).
  apply wait_for_position_polls in Hwait as [Hpoll Hdone].
  rewrite bind_read_stop in H. cbv zeta in H.
  apply log_first_inv in H as (t4 & H & ->).
  destruct (stop_imaging (app w1) || o_stop (E (clock w1))) eqn:Eb.
  { rewrite ret_run in H. inversion H; subst. cbn [image_count].
    split; [reflexivity |].
    repeat constructor; auto.
    apply Forall_app. split; [| repeat constructor; auto].
    exact (polling_no_capture _ _ _ Hpoll). }
  apply orb_false_elim in Eb as [Ew _].
  destruct done; [| rewrite (Hdone eq_refl) in Ew; discriminate].
  rewrite bind_status in H.
  apply log_first_inv in H as (t5 & H & ->).
  rewrite bind_get in H.
  apply bind_val_inv in H as (w2 & tc & [] & t6 & _ & H & ->).
  rewrite ret_run in H. inversion H; subst. cbn [image_count].
  split; [reflexivity |].
  eexists _, _, _, _, _. split; [reflexivity | exact Hpoll].
Qed.

Lemma snd_log_first {A} (e : event) (x : world * list event * result A) :
  snd (log_first e x) = snd x.
Proof. destruct x as [[w t] r]. reflexivity. Qed.

Lemma unspaced_never_arrives (fuel : nat) (w : world) :
  stop_imaging (app w) = false ->
  snd (wait_for_position fuel (fmt_pos 10 20) unspaced_env w) = Fuel.
Proof.
  revert w. induction fuel as [| fuel IH]; intros w Hw;
    cbn [wait_for_position].
  - reflexivity.
  - rewrite bind_read_stop. cbv zeta. rewrite snd_log_first.
    change (o_stop (unspaced_env (clock w))) with false.
    rewrite Hw. cbn [orb].
    rewrite bind_GCommand. fields.
    change (o_gantry (unspaced_env (S (clock w))))
      with (@inl string string "10,20"%string).
    cbv iota. rewrite snd_log_first.
    change (String.eqb "10,20" (fmt_pos 10 20)) with false. cbv iota.
    rewrite bind_sleep, snd_log_first.
    apply IH. reflexivity.
Qed.

(** C7: after each move the sequencer polls the reported position, and
    sleeps 250 ms after every reply that is not the text [aim_x, aim_y] of
    the target. The loop ends only on a reply equal to that text as a
    string, or on a read of the stop flag that finds it set; when it ended
    on the flag the flag is set. The capture step of a cell runs only after
    a poll that ended on the equal reply. A reply with the same numbers
    written otherwise does not end the loop. *)
Theorem arrival_is_string_equality :
  (forall (E : env) (fuel : nat) (target : string) (w w' : world)
          (t : list event) (done : bool),
      wait_for_position fuel target E w = (w', t, Val done) ->
      polling target t done /\
      (done = false -> stop_imaging (app w') = true)) /\
  (forall (E : env) (fuel : nat) (s : steps) (y x : nat) (l l' : locals)
          (w w' : world) (t : list event) (broke : bool),
      visit fuel s y x l E w = (w', t, Val (l', broke)) ->
      if broke then Forall (fun e => ~ capture_event e) t
      else
        exists reply moving tpoll imaged tcapture,
          t = StopFlag false
              :: Gantry (PA (next_aim_x s y x l) (aim_y l)) (inl reply)
              :: Status moving
              :: tpoll ++ StopFlag false :: Status imaged :: tcapture /\
          polling (fmt_pos (next_aim_x s y x l) (aim_y l)) tpoll true) /\
  (forall (fuel : nat) (w : world),
      stop_imaging (app w) = false ->
      snd (wait_for_position fuel (fmt_pos 10 20) unspaced_env w) = Fuel).
Proof.
  split; [| split].
  - intros E fuel target w w' t done H.
    exact (wait_for_position_polls _ _ _ _ _ _ _ H).
  - intros E fuel s y x l l' w w' t broke H.
    apply visit_capture in H. cbv zeta in H.
    destruct broke; [exact (proj2 H) | exact (proj2 H)].
  - exact unspaced_never_arrives.
Qed.

(** * The snake path *)

Section SnakeCells.

Variable n : nat.








End SnakeCells.

Section Moves.

Lemma moves_of_app (t1 t2 : list event) :
  moves_of (t1 ++ t2) = moves_of t1 ++ moves_of t2.
Proof. apply flat_map_app. Qed.

Lemma moves_of_none (t : list event) :
  Forall not_a_move t -> moves_of t = [].
Proof.
  induction 1 as [| e t He Ht IH]; [reflexivity |].
  cbn [moves_of flat_map]. fold (moves_of t). rewrite IH.
  destruct e as [c r | | | | | | | | | |]; try reflexivity.
  destruct c; try reflexivity. destruct He.
Qed.

Lemma moveless_obeys {A} (m : M A) :
  obeys (fun _ => True) not_a_move m -> moveless m.
Proof.
  intros H E w w' t r Hr. apply moves_of_none.
  exact (proj2 (H _ _ _ _ _ Hr I)).
Qed.

End Moves.

Section Moveless.

Lemma moveless_wait_for_position (fuel : nat) (target : string) :
  moveless (wait_for_position fuel target).
Proof.
  apply moveless_obeys, obeys_wait_for_position; intros; exact I.
Qed.

Lemma moveless_wait_for_confirmation (fuel : nat) :
  moveless (wait_for_confirmation fuel).
Proof.
  apply moveless_obeys, obeys_wait_for_confirmation; intros; exact I.
Qed.

Lemma moveless_take_both_photos : moveless take_both_photos.
Proof.
  apply moveless_obeys, obeys_take_both_photos; intros; exact I.
Qed.

Lemma moveless_control_filter (filter_in : bool) :
  moveless (control_filter filter_in).
Proof.
  apply moveless_obeys, obeys_control_filter; intros; exact I.
Qed.

End Moveless.

Lemma prefix_nil {A} (l : list A) : prefix [] l.
Proof. exists l. reflexivity. Qed.

Lemma prefix_refl {A} (l : list A) : prefix l l.
Proof. exists []. symmetry. apply app_nil_r. Qed.



(** The moves of one cell: none or the one to its target; the target once
    when the body ran to its end; and a [break] leaves the flag set. *)
Lemma visit_moves (E : env) (fuel : nat) (s : steps) (y x : nat) (l : locals)
    (w w' : world) (t : list event) (r : result (locals * bool)) :
  visit fuel s y x l E w = (w', t, r) ->
  let target := (next_aim_x s y x l, aim_y l) in
  prefix (moves_of t) [target] /\
  forall l' broke,
    r = Val (l', broke) ->
    aim_x l' = fst target /\ aim_y l' = snd target /\
    if broke then stop_imaging (app w') = true else moves_of t = [target].
Proof.
  intros H target.
  unfold visit in H. rewrite bind_read_stop in H. cbv zeta in H.
  apply log_first_inv in H as (t0 & H & ->).
  destruct (stop_imaging (app w) || o_stop (E (clock w))) eqn:Eb.
  { rewrite ret_run in H. inversion H; subst. fields.
    split; [apply prefix_nil |].
    intros l' broke Hr; inversion Hr; subst; auto. }
  rewrite bind_get in H. fields.
  destruct ((next_aim_x s y x l >? x_limit (app w))
            || (aim_y l >? y_limit (app w))).
  { rewrite bind_status, bind_set_stop, ret_run in H. unfold log_first in H.
    inversion H; subst. fields.
    split; [apply prefix_nil |].
    intros l' broke Hr; inversion Hr; subst; auto. }
  rewrite bind_GCommand in H. fields.
  destruct (o_gantry (E (S (clock w)))) as [reply | msg].
  2:{ inversion H; subst. split; [apply prefix_refl | discriminate]. }
  apply log_first_inv in H as (t1 & H & ->).
  rewrite bind_status in H.
  apply log_first_inv in H as (t2 & H & ->).
  cbn [moves_of flat_map List.app]. fold (moves_of t2).
  assert (Hgoal : moves_of t2 = [] /\
                  forall l' broke,
                    r = Val (l', broke) ->
                    aim_x l' = fst target /\ aim_y l' = snd target /\
                    (broke = true -> stop_imaging (app w') = true)).
  { apply bind_inv in H
      as [(w1 & tp & done & t3 & Hw & H & ->) | [(msg & Hw & ->) | (Hw & ->)]].
    2:{ split; [exact (moveless_wait_for_position _ _ _ _ _ _ _ Hw) |].
        discriminate. }
    2:{ split; [exact (moveless_wait_for_position _ _ _ _ _ _ _ Hw) |].
        discriminate. }
    rewrite moves_of_app, (moveless_wait_for_position _ _ _ _ _ _ _ Hw).
    rewrite bind_read_stop in H. cbv zeta in H.
    apply log_first_inv in H as (t4 & H & ->).
    destruct (stop_imaging (app w1) || o_stop (E (clock w1))) eqn:Eb1.
    { rewrite ret_run in H. inversion H; subst. fields.
      split; [reflexivity |].
      intros l' broke Hr; inversion Hr; subst; auto. }
    rewrite bind_status in H.
    apply log_first_inv in H as (t5 & H & ->).
    rewrite bind_get in H. fields.
    cbn [moves_of flat_map List.app]. fold (moves_of t5).
    assert (Hc : forall (wa wb : world) (tc : list event) (rc : result unit),
               (if auto_capture (app w1)
                then take_both_photos ;; sleep 1000
                else modify (set_waiting_for_photo true) ;;
                     emit (Prompt (image_count l + 1) (cell_name x y)) ;;
                     wait_for_confirmation fuel)%m E wa = (wb, tc, rc) ->
               moves_of tc = []).
    { intros wa wb tc rc Hrun. destruct (auto_capture (app w1)).
      - apply bind_inv in Hrun
          as [(w2 & ta & [] & tb & Ha & Hb & ->)
             | [(msg & Ha & ->) | (Ha & ->)]];
          try exact (moveless_take_both_photos _ _ _ _ _ Ha).
        rewrite moves_of_app, (moveless_take_both_photos _ _ _ _ _ Ha).
        inversion Hb; subst. reflexivity.
      - rewrite bind_modify, bind_emit in Hrun.
        apply log_first_inv in Hrun as (tb & Hb & ->).
        cbn [moves_of flat_map List.app].
        exact (moveless_wait_for_confirmation _ _ _ _ _ _ Hb). }
    apply bind_inv in H
      as [(w2 & tc & [] & t6 & Hcap & H & ->)
         | [(msg & Hcap & ->) | (Hcap & ->)]].
    - rewrite ret_run in H. inversion H; subst.
      rewrite moves_of_app, (Hc _ _ _ _ Hcap).
      split; [reflexivity |].
      intros l' broke Hr; inversion Hr; subst. cbn [aim_x aim_y].
      repeat split. discriminate.
    - split; [exact (Hc _ _ _ _ Hcap) | discriminate].
    - split; [exact (Hc _ _ _ _ Hcap) | discriminate]. }
  destruct Hgoal as [-> Hr]. split; [apply prefix_refl |].
  intros l' broke Hres. destruct (Hr _ _ Hres) as (Hx & Hy & Hb).
  repeat split; try assumption.
  destruct broke; [apply Hb; reflexivity | reflexivity].
Qed.

Section SnakeRun.

Variables (E : env) (fuel : nat) (sx sy : Z) (s : steps).

Let n := Z.to_nat (x_steps s).



Hypothesis columns : (1 <= n)%nat.


End SnakeRun.





(** * Failures of the hardware *)

Section CleanLogs.

Lemma reported_app (t1 t2 : list event) :
  reported t1 -> reported t2 -> reported (t1 ++ t2).
Proof.
  induction t1 as [| e t1 IH]; intros H1 H2; [exact H2 |].
  cbn [List.app reported] in *. destruct H1 as [He H1].
  split; [| exact (IH H1 H2)].
  destruct (device_failure e); [| exact I].
  destruct t1; [destruct He | exact He].
Qed.

Lemma clean_nil : clean [].
Proof. split; [constructor | exact I]. Qed.

Lemma clean_app (t1 t2 : list event) :
  clean t1 -> clean t2 -> clean (t1 ++ t2).
Proof.
  intros [H1 H2] [H3 H4].
  split; [apply Forall_app; auto | apply reported_app; auto].
Qed.

Lemma clean_single (e : event) :
  gantry_ok e -> device_failure e = None -> clean [e].
Proof.
  intros H1 H2. split; [repeat constructor; exact H1 |].
  cbn [reported]. rewrite H2. auto.
Qed.

Lemma clean_cons (e : event) (t : list event) :
  gantry_ok e -> device_failure e = None -> clean t -> clean (e :: t).
Proof.
  intros H1 H2 H3. exact (clean_app [e] t (clean_single e H1 H2) H3).
Qed.

(** A failure followed by its report keeps the log clean. *)
Lemma clean_reported (heading : string) (t1 : list event) (e : event)
    (msg : string) :
  clean t1 -> device_failed heading e msg ->
  clean (t1 ++ [e] ++ [CameraInfo (heading ++ msg)]).
Proof.
  intros H1 (Hf & Hg & Hr). apply clean_app; [exact H1 |].
  split; [repeat constructor; exact Hg |].
  cbn [List.app reported]. rewrite Hf, Hr. cbn [device_failure]. auto.
Qed.

End CleanLogs.

Section Pending.

Variable last : event -> string -> Prop.

Lemma calm_pending {A} (m : M A) : calm_run m -> pending last m.
Proof.
  intros H E w w' t r Hr. destruct (H _ _ _ _ _ Hr) as [Hn Hc].
  destruct r as [a | msg |]; [exact Hc | destruct (Hn msg); reflexivity
                             | exact Hc].
Qed.

Lemma pending_bind {A B} (m : M A) (k : A -> M B) :
  pending last m -> (forall a, pending last (k a)) ->
  pending last (bind m k).
Proof.
  intros Hm Hk E w w' t r H.
  apply bind_inv in H
    as [(w1 & t1 & a & t2 & H1 & H2 & ->) | [(msg & H1 & ->) | (H1 & ->)]].
  - pose proof (Hm _ _ _ _ _ H1) as Hc1. cbv iota in Hc1.
    pose proof (Hk a _ _ _ _ _ H2) as Hc2.
    destruct r as [b | msg |].
    + apply clean_app; assumption.
    + destruct Hc2 as (t3 & e & -> & He & Hc3).
      exists (t1 ++ t3), e. rewrite app_assoc.
      split; [reflexivity |]. split; [exact He |].
      apply clean_app; assumption.
    + apply clean_app; assumption.
  - exact (Hm _ _ _ _ _ H1).
  - exact (Hm _ _ _ _ _ H1).
Qed.

Lemma pending_get {A} (k : gui -> M A) :
  (forall g, pending last (k g)) -> pending last (bind get k).
Proof.
  intros Hk E w w' t r H. rewrite bind_get in H. exact (Hk _ _ _ _ _ _ H).
Qed.

Lemma pending_ret {A} (a : A) : pending last (ret a).
Proof. intros E w w' t r H. inversion H; subst. apply clean_nil. Qed.

Lemma pending_out_of_fuel {A} : pending last (@out_of_fuel A).
Proof. intros E w w' t r H. inversion H; subst. apply clean_nil. Qed.

Lemma pending_when (b : bool) (m : M unit) :
  pending last m -> pending last (when b m).
Proof. destruct b; [auto | intros _; apply pending_ret]. Qed.

End Pending.

Section Calm.

Lemma calm_ret {A} (a : A) : calm_run (ret a).
Proof.
  intros E w w' t r H. inversion H; subst.
  split; [discriminate | apply clean_nil].
Qed.

Lemma calm_bind {A B} (m : M A) (k : A -> M B) :
  calm_run m -> (forall a, calm_run (k a)) -> calm_run (bind m k).
Proof.
  intros Hm Hk E w w' t r H.
  apply bind_inv in H
    as [(w1 & t1 & a & t2 & H1 & H2 & ->) | [(msg & H1 & ->) | (H1 & ->)]].
  - destruct (Hm _ _ _ _ _ H1) as [_ Hc1].
    destruct (Hk a _ _ _ _ _ H2) as [Hn Hc2].
    split; [exact Hn | apply clean_app; assumption].
  - destruct (Hm _ _ _ _ _ H1) as [Hn _]. destruct (Hn msg). reflexivity.
  - destruct (Hm _ _ _ _ _ H1) as [_ Hc]. split; [discriminate | exact Hc].
Qed.

Lemma calm_get {A} (k : gui -> M A) :
  (forall g, calm_run (k g)) -> calm_run (bind get k).
Proof.
  intros Hk E w w' t r H. rewrite bind_get in H. exact (Hk _ _ _ _ _ _ H).
Qed.

Lemma calm_emit (e : event) :
  gantry_ok e -> device_failure e = None -> calm_run (emit e).
Proof.
  intros H1 H2 E w w' t r H. inversion H; subst.
  split; [discriminate | apply clean_single; assumption].
Qed.

Lemma calm_modify (f : gui -> gui) : calm_run (modify f).
Proof.
  intros E w w' t r H. inversion H; subst.
  split; [discriminate | apply clean_nil].
Qed.

Lemma calm_status (s : string) : calm_run (status s).
Proof.
  apply calm_bind; [apply calm_modify | intros _].
  apply calm_emit; [exact I | reflexivity].
Qed.

Lemma calm_camera_info (s : string) : calm_run (camera_info s).
Proof.
  apply calm_bind; [apply calm_modify | intros _].
  apply calm_emit; [exact I | reflexivity].
Qed.

Lemma calm_sleep (ms : Z) : calm_run (sleep ms).
Proof. apply calm_emit; [exact I | reflexivity]. Qed.

Lemma calm_set_stop : calm_run set_stop.
Proof.
  apply calm_bind; [apply calm_modify | intros _].
  apply calm_emit; [exact I | reflexivity].
Qed.

Lemma calm_observe : calm_run observe.
Proof.
  intros E w w' t r H. inversion H; subst.
  split; [discriminate | apply clean_nil].
Qed.

Lemma calm_read_stop : calm_run read_stop.
Proof.
  unfold read_stop.
  apply calm_bind; [apply calm_observe | intros o].
  apply calm_get; intros g.
  apply calm_bind; [apply calm_modify | intros _].
  apply calm_bind; [| intros _; apply calm_ret].
  apply calm_emit; [exact I | reflexivity].
Qed.

Lemma calm_read_waiting : calm_run read_waiting.
Proof.
  unfold read_waiting.
  apply calm_bind; [apply calm_observe | intros o].
  apply calm_get; intros g.
  apply calm_bind; [apply calm_modify | intros _; apply calm_ret].
Qed.

Lemma calm_when (b : bool) (m : M unit) : calm_run m -> calm_run (when b m).
Proof. destruct b; [auto | intros _; apply calm_ret]. Qed.

(** A handler that only reports the failure it caught makes the whole
    calm. *)
Lemma calm_catch {A} (heading : string) (m : M A) (h : string -> M A) :
  pending (device_failed heading) m ->
  (forall msg E w,
      exists w' a, h msg E w = (w', [CameraInfo (heading ++ msg)], Val a)) ->
  calm_run (catch m h).
Proof.
  intros Hm Hh E w w' t r H.
  apply catch_inv in H as [(w1 & t1 & msg & t2 & H1 & H2 & ->) | (H1 & Hn)].
  - pose proof (Hm _ _ _ _ _ H1) as (t0 & e & -> & He & Hc).
    destruct (Hh msg E w1) as (w2 & a & Hrun).
    rewrite Hrun in H2. inversion H2; subst.
    split; [discriminate |].
    rewrite <- app_assoc. exact (clean_reported heading t0 e msg Hc He).
  - pose proof (Hm _ _ _ _ _ H1) as Hc.
    split; [exact Hn |].
    destruct r as [a | msg |]; [exact Hc | destruct (Hn msg); reflexivity
                               | exact Hc].
Qed.

Lemma pending_serial_write (cmd : string) :
  pending (device_failed "Command error: ") (serial_write cmd).
Proof.
  intros E w w' t r H. unfold serial_write in H.
  unfold bind, observe, emit, ret, raise in H. cbn [app clock] in H.
  destruct (o_serial (E (clock w))) as [msg |]; inversion H; subst.
  - exists [], (Serial cmd (Some msg)).
    split; [reflexivity |]. split; [| apply clean_nil].
    repeat split.
  - apply clean_single; [exact I | reflexivity].
Qed.

Lemma pending_serial_poll :
  pending (device_failed "Command error: ") serial_poll.
Proof.
  intros E w w' t r H. unfold serial_poll in H.
  unfold bind, observe, emit, ret, raise in H. cbn [app clock] in H.
  destruct (o_serial (E (clock w))) as [msg |]; inversion H; subst.
  - exists [], (SerialPoll (Some msg)).
    split; [reflexivity |]. split; [| apply clean_nil].
    repeat split.
  - apply clean_single; [exact I | reflexivity].
Qed.

Lemma pending_arduino_write (word : string) :
  pending (device_failed "Photo sequence error: ") (arduino_write word).
Proof.
  intros E w w' t r H. unfold arduino_write in H.
  unfold bind, observe, emit, ret, raise in H. cbn [app clock] in H.
  destruct (o_arduino (E (clock w))) as [msg |]; inversion H; subst.
  - exists [], (Arduino word (Some msg)).
    split; [reflexivity |]. split; [| apply clean_nil].
    repeat split.
  - apply clean_single; [exact I | reflexivity].
Qed.

Lemma pending_makedirs :
  pending (device_failed "Photo sequence error: ") makedirs.
Proof.
  intros E w w' t r H. unfold makedirs in H.
  unfold bind, observe, emit, ret, raise in H. cbn [app clock] in H.
  destruct (o_makedirs (E (clock w))) as [msg |]; inversion H; subst.
  - exists [], (Makedirs (Some msg)).
    split; [reflexivity |]. split; [| apply clean_nil].
    repeat split.
  - apply clean_single; [exact I | reflexivity].
Qed.

Lemma calm_send_camera_command (cmd : string) :
  calm_run (send_camera_command cmd).
Proof.
  unfold send_camera_command. apply calm_get; intros g.
  destruct (negb (camera_connected g) || negb (ser g)).
  - apply calm_bind; [apply calm_camera_info | intros _; apply calm_ret].
  - apply (calm_catch "Command error: ").
    + apply pending_bind; [apply pending_serial_write | intros _].
      apply pending_bind; [apply calm_pending, calm_sleep | intros _].
      apply pending_bind; [apply pending_serial_poll | intros waiting].
      apply pending_bind; [| intros _; apply pending_ret].
      destruct waiting;
        [apply calm_pending, calm_camera_info | apply pending_ret].
    + intros msg E w. eexists _, _. reflexivity.
Qed.

Lemma calm_control_filter (filter_in : bool) :
  calm_run (control_filter filter_in).
Proof.
  unfold control_filter. apply calm_get; intros g.
  destruct (negb (camera_connected g)); [apply calm_ret |].
  apply calm_bind; [apply calm_send_camera_command | intros success].
  apply calm_when, calm_camera_info.
Qed.

Lemma pending_indicator (b : bool) (word : string) (ms : Z) :
  pending (device_failed "Photo sequence error: ")
          (when b (arduino_write word ;; sleep ms)).
Proof.
  apply pending_when.
  apply pending_bind; [apply pending_arduino_write | intros _].
  apply calm_pending, calm_sleep.
Qed.

Lemma calm_take_both_photos : calm_run take_both_photos.
Proof.
  unfold take_both_photos. apply calm_get; intros g.
  destruct (negb (camera_connected g)); [apply calm_ret |].
  apply (calm_catch "Photo sequence error: ").
  - repeat (apply pending_bind;
            [first [ apply pending_makedirs | apply pending_indicator
                   | apply calm_pending, calm_send_camera_command
                   | apply calm_pending, calm_sleep ]
            | intros _]).
    apply calm_pending, calm_camera_info.
  - intros msg E w. eexists _, _. reflexivity.
Qed.

Lemma calm_wait_for_confirmation (fuel : nat) :
  calm_run (wait_for_confirmation fuel).
Proof.
  induction fuel as [| fuel IH]; cbn [wait_for_confirmation].
  - intros E w w' t r H. inversion H; subst.
    split; [discriminate | apply clean_nil].
  - apply calm_bind; [apply calm_read_waiting | intros waiting].
    destruct (negb waiting); [apply calm_ret |].
    apply calm_bind; [apply calm_read_stop | intros stop].
    destruct stop; [apply calm_ret |].
    apply calm_bind; [apply calm_sleep | intros _; exact IH].
Qed.

End Calm.

Section GantryFailures.

Lemma pending_GCommand (c : gcmd) : pending gantry_failed (GCommand c).
Proof.
  intros E w w' t r H. unfold GCommand in H.
  unfold bind, observe, emit, ret, raise in H. cbn [app clock] in H.
  destruct (o_gantry (E (clock w))) as [reply | msg]; inversion H; subst.
  - apply clean_single; [exact I | reflexivity].
  - exists [], (Gantry c (inr msg)).
    split; [reflexivity |]. split; [exists c; reflexivity | apply clean_nil].
Qed.

Lemma pending_wait_for_position (fuel : nat) (target : string) :
  pending gantry_failed (wait_for_position fuel target).
Proof.
  induction fuel as [| fuel IH]; cbn [wait_for_position].
  - apply pending_out_of_fuel.
  - apply pending_bind; [apply calm_pending, calm_read_stop | intros stop].
    destruct stop; [apply pending_ret |].
    apply pending_bind; [apply pending_GCommand | intros pos].
    destruct (String.eqb pos target); [apply pending_ret |].
    apply pending_bind; [apply calm_pending, calm_sleep | intros _].
    exact IH.
Qed.

Lemma pending_visit (fuel : nat) (s : steps) (y x : nat) (l : locals) :
  pending gantry_failed (visit fuel s y x l).
Proof.
  unfold visit.
  apply pending_bind; [apply calm_pending, calm_read_stop | intros stop].
  destruct stop; [apply pending_ret |].
  apply pending_get; intros g.
  destruct ((next_aim_x s y x l >? x_limit g) || (aim_y l >? y_limit g)).
  - apply pending_bind; [apply calm_pending, calm_status | intros _].
    apply pending_bind; [apply calm_pending, calm_set_stop | intros _].
    apply pending_ret.
  - apply pending_bind; [apply pending_GCommand | intros _].
    apply pending_bind; [apply calm_pending, calm_status | intros _].
    apply pending_bind; [apply pending_wait_for_position | intros _].
    apply pending_bind; [apply calm_pending, calm_read_stop | intros stop].
    destruct stop; [apply pending_ret |].
    apply pending_bind; [apply calm_pending, calm_status | intros _].
    apply pending_get; intros g'.
    apply pending_bind; [| intros _; apply pending_ret].
    apply calm_pending. destruct (auto_capture g').
    + apply calm_bind; [apply calm_take_both_photos | intros _].
      apply calm_sleep.
    + apply calm_bind; [apply calm_modify | intros _].
      apply calm_bind; [| intros _; apply calm_wait_for_confirmation].
      apply calm_emit; [exact I | reflexivity].
Qed.

Lemma pending_row (fuel : nat) (s : steps) (y : nat) (xs : list nat)
    (l : locals) :
  pending gantry_failed (row fuel s y xs l).
Proof.
  revert l. induction xs as [| x xs IH]; intros l; cbn [row].
  - apply pending_ret.
  - apply pending_bind; [apply pending_visit | intros [l' broke]].
    destruct broke; [apply pending_ret | apply IH].
Qed.

Lemma pending_rows (fuel : nat) (sx sy : Z) (s : steps) (ys : list nat)
    (l : locals) :
  pending gantry_failed (rows fuel sx sy s ys l).
Proof.
  revert l. induction ys as [| y ys IH]; intros l; cbn [rows].
  - apply pending_ret.
  - apply pending_bind; [apply pending_row | intros l1].
    apply pending_bind; [apply calm_pending, calm_read_stop | intros stop].
    destruct stop; [apply pending_ret | apply IH].
Qed.

End GantryFailures.

Lemma first_failure_unique (l1 l2 l1' l2' : list event) (x x' : event) :
  l1 ++ x :: l2 = l1' ++ x' :: l2' ->
  Forall gantry_ok l1 -> ~ gantry_ok x -> Forall gantry_ok l2 ->
  ~ gantry_ok x' ->
  l1 = l1' /\ x = x' /\ l2 = l2'.
Proof.
  revert l1'. induction l1 as [| a l1 IH]; intros l1' H H1 Hx H2 Hx'.
  - destruct l1' as [| a' l1']; cbn [List.app] in H; inversion H; subst.
    + auto.
    + exfalso. rewrite Forall_forall in H2. apply Hx', H2.
      apply in_or_app. right. left. reflexivity.
  - destruct l1' as [| a' l1']; cbn [List.app] in H; inversion H; subst.
    + exfalso. inversion H1; subst. contradiction.
    + inversion H1; subst.
      destruct (IH l1' H4 H6 Hx H2 Hx') as (-> & -> & ->). auto.
Qed.

Lemma pending_thread_body (fuel : nat) (sx sy : Z) (s : steps) :
  pending gantry_failed
    (status "Moving to start position..." ;;
     g <- get ;;
     when (camera_connected g) (control_filter false ;; sleep 500) ;;
     GCommand (PA sx sy) ;;
     wait_for_position fuel (fmt_pos sx sy) ;;
     stop <- read_stop ;;
     if stop then
       status "Imaging sequence stopped" ;; modify (set_is_imaging false)
     else
       status "Imaging sequence started" ;;
       l <- rows fuel sx sy s (range (y_steps s))
                 {| aim_x := sx; aim_y := sy; image_count := 0 |} ;;
       stop <- read_stop ;;
       (if negb stop then
          status ("Imaging sequence complete - " ++ py_str (image_count l)
                  ++ " positions captured")
        else status "Imaging sequence stopped") ;;
       modify (set_is_imaging false))%m.
Proof.
  apply pending_bind; [apply calm_pending, calm_status | intros _].
  apply pending_get; intros g.
  apply pending_bind.
  { apply calm_pending, calm_when, calm_bind;
      [apply calm_control_filter | intros _; apply calm_sleep]. }
  intros _.
  apply pending_bind; [apply pending_GCommand | intros _].
  apply pending_bind; [apply pending_wait_for_position | intros _].
  apply pending_bind; [apply calm_pending, calm_read_stop | intros stop].
  destruct stop.
  - apply calm_pending, calm_bind;
      [apply calm_status | intros _; apply calm_modify].
  - apply pending_bind; [apply calm_pending, calm_status | intros _].
    apply pending_bind; [apply pending_rows | intros l].
    apply pending_bind; [apply calm_pending, calm_read_stop | intros stop].
    apply calm_pending, calm_bind; [| intros _; apply calm_modify].
    destruct (negb stop); apply calm_status.
Qed.



(** * The theorems at work on the sample runs *)

Lemma run_eta {A} (x : world * list event * result A) :
  x = (fst (fst x), snd (fst x), snd x).
Proof. destruct x as [[w t] r]. reflexivity. Qed.


Lemma limit_aborts_sequence_witness :
  (x_limit (app demo_world) < next_aim_x wide_steps 0 1 demo_locals \/
   y_limit (app demo_world) < aim_y demo_locals) /\
  exists w' message,
    visit 3 wide_steps 0 1 demo_locals demo_env demo_world =
    (w', [StopFlag false; Status message; StopSet],
     Val ({| aim_x := next_aim_x wide_steps 0 1 demo_locals;
             aim_y := aim_y demo_locals;
             image_count := image_count demo_locals |}, true)) /\
    stop_imaging (app w') = true.
Proof.
  assert (H : x_limit (app demo_world) < next_aim_x wide_steps 0 1 demo_locals
              \/ y_limit (app demo_world) < aim_y demo_locals)
    by (left; vm_compute; reflexivity).
  split; [exact H |].
  exact (proj1 limit_aborts_sequence demo_env 3%nat wide_steps 0%nat 1%nat
               demo_locals demo_world eq_refl eq_refl H).
Defined.

Lemma limit_checked_moves_witness :
  In (Gantry (PA 5000 0) (inl "0, 0"%string))
     (snd (fst (move_gantry 5000 0 demo_env demo_world))) /\
  5000 <= x_limit (app demo_world) /\ 0 <= y_limit (app demo_world).
Proof.
  assert (H : In (Gantry (PA 5000 0) (inl "0, 0"%string))
                 (snd (fst (move_gantry 5000 0 demo_env demo_world))))
    by (vm_compute; left; reflexivity).
  split; [exact H |].
  exact (proj1 limit_checked_moves demo_env demo_world _ 5000 0 _ _
               (run_eta _) 5000 0 (inl "0, 0"%string) H).
Defined.

Lemma arrival_is_string_equality_witness :
  snd (wait_for_position 3 "0, 0" demo_env demo_world) = Val true /\
  polling "0, 0" [StopFlag false; Gantry RP (inl "0, 0"%string)] true.
Proof.
  split; [vm_compute; reflexivity |].
  refine (proj1 (proj1 arrival_is_string_equality demo_env 3%nat
                       "0, 0"%string demo_world
                       (fst (fst (wait_for_position 3 "0, 0" demo_env
                                                    demo_world)))
                       [StopFlag false; Gantry RP (inl "0, 0"%string)]
                       true _)).
  vm_compute. reflexivity.
Defined.

Lemma stop_is_cooperative_witness :
  stop_imaging (app demo_world) = false /\
  sets_stop (StopFlag true) = true /\
  Forall silent [StopFlag true; StopFlag true; StopFlag true;
                 Status "Imaging sequence stopped"] /\
  snd (_imaging_thread 3 0 0 demo_steps stop_env demo_world) = Val tt /\
  status_var (app (fst (fst (_imaging_thread 3 0 0 demo_steps stop_env
                                             demo_world))))
  = "Imaging sequence stopped"%string /\
  is_imaging (app (fst (fst (_imaging_thread 3 0 0 demo_steps stop_env
                                             demo_world)))) = false.
Proof.
  split; [reflexivity |]. split; [reflexivity |].
  refine (proj2 stop_is_cooperative stop_env 3%nat 0 0 demo_steps demo_world
                _ _ _ eq_refl (run_eta _)
                [Status "Moving to start position...";
                 Gantry (PA 0 0) (inl "0, 0"%string); StopFlag false;
                 Gantry RP (inl "0, 0"%string); StopFlag false;
                 Status "Imaging sequence started"; StopFlag false;
                 Gantry (PA 0 0) (inl "0, 0"%string);
                 Status "Moving to position 0,0"]
                (StopFlag true) _ _ eq_refl).
  vm_compute. reflexivity.
Defined.


(** * Operations on the state *)

Lemma calculate_grid_setup (g : gui) (ov ax ay w : float) :
  same_setup_but_grid g (fst (fst (calculate_grid g ov ax ay w))).
Proof.
  unfold calculate_grid, same_setup_but_grid.
  destruct (to_int (fmul ax _)); [| cbn; tauto].
  destruct (to_int (fmul ay _)); [| cbn; tauto].
  destruct (plan_steps _ _ _ _); cbn; tauto.
Qed.

Lemma perform_limits (g : gui) (o : op) :
  (x_limit (perform g o) = x_limit g /\ y_limit (perform g o) = y_limit g) \/
  (0 < x_limit (perform g o) /\ 0 < y_limit (perform g o)).
Proof.
  destruct o as [x y c | entry | | ov ax ay w | c]; cbn [perform].
  - unfold apply_safety_limits.
    destruct (x <=? 0) eqn:Ex; [left; split; reflexivity |].
    destruct (y <=? 0) eqn:Ey; [left; split; reflexivity |].
    destruct c; [right | left; split; reflexivity].
    apply Z.leb_gt in Ex, Ey. cbn. split; assumption.
  - left. destruct entry; split; reflexivity.
  - left. unfold set_start_position.
    destruct (connected g); split; reflexivity.
  - left. destruct (calculate_grid_setup g ov ax ay w)
      as (_ & _ & _ & _ & _ & _ & _ & _ & _ & Hx & Hy & _).
    split; assumption.
  - left. unfold stop_imaging_sequence.
    destruct (is_imaging g), c; split; reflexivity.
Qed.

(** X1: the safety limits stay positive. Of the operations on the state
    only [apply_safety_limits] writes them, and it refuses a limit that is
    zero or negative: from a state with positive limits every sequence of
    operations leads to a state with positive limits. *)
Theorem limits_stay_positive (g : gui) (ops : list op) :
  0 < x_limit g -> 0 < y_limit g ->
  0 < x_limit (fold_left perform ops g) /\
  0 < y_limit (fold_left perform ops g).
Proof.
  revert g. induction ops as [| o ops IH]; intros g Hx Hy; [split; assumption |].
  cbn [fold_left]. apply IH.
  - destruct (perform_limits g o) as [[-> _] | [H _]]; assumption.
  - destruct (perform_limits g o) as [[_ ->] | [_ H]]; assumption.
Qed.

Lemma limits_stay_positive_witness :
  0 < x_limit (fold_left perform
                 [ApplySafetyLimits (-5) 10 true; ApplySafetyLimits 7 9 true;
                  ApplySafetyLimits 0 0 true; SetStartPosition] init) /\
  0 < y_limit (fold_left perform
                 [ApplySafetyLimits (-5) 10 true; ApplySafetyLimits 7 9 true;
                  ApplySafetyLimits 0 0 true; SetStartPosition] init).
Proof.
  apply (limits_stay_positive init
           [ApplySafetyLimits (-5) 10 true; ApplySafetyLimits 7 9 true;
            ApplySafetyLimits 0 0 true; SetStartPosition]).
  - simpl. lia.
  - simpl. lia.
Defined.

(** X2: stopping is idempotent and never clears the flag: a second
    [stop_imaging_sequence] changes nothing, a flag that is set stays set
    whatever the answer to the dialog, the imaging flag is left as it is,
    and with no sequence running the state is left as it is. *)
Theorem stop_imaging_sequence_idempotent (c c' : bool) (g : gui) :
  stop_imaging_sequence c (stop_imaging_sequence c g)
  = stop_imaging_sequence c g /\
  (stop_imaging g = true -> stop_imaging (stop_imaging_sequence c' g) = true) /\
  is_imaging (stop_imaging_sequence c g) = is_imaging g /\
  (is_imaging g = false -> stop_imaging_sequence c g = g).
Proof.
  unfold stop_imaging_sequence. repeat split.
  - destruct (is_imaging g) eqn:Hi, c; cbn; rewrite ?Hi; reflexivity.
  - intros Hs. destruct (is_imaging g), c'; cbn; auto.
  - destruct (is_imaging g) eqn:Hi, c; cbn; auto.
  - intros ->. reflexivity.
Qed.

Lemma stop_imaging_sequence_idempotent_witness :
  stop_imaging (stop_imaging_sequence false
                  (stop_imaging_sequence true (set_is_imaging true init)))
  = true.
Proof.
  apply (proj1 (proj2 (stop_imaging_sequence_idempotent true false
                         (stop_imaging_sequence true
                            (set_is_imaging true init))))).
  reflexivity.
Defined.

(** * The planner and the state *)

Lemma to_int_not_negative (x : float) (n : Z) :
  not_negative x -> to_int x = Ok n -> 0 <= n.
Proof.
  destruct x as [s | s | | s m e]; simpl; intros Hx Hc;
    try discriminate; inversion Hc; subst; [lia |].
  simpl cond_Zopp. unfold trunc_scaled.
  destruct e as [| q | q].
  - lia.
  - assert (0 < 2 ^ Zpos q) by (apply Z.pow_pos_nonneg; lia). nia.
  - assert (Hp : 0 < 2 ^ Zpos q) by (apply Z.pow_pos_nonneg; lia).
    apply Z.quot_pos; lia.
Qed.

Lemma of_int_scale_not_negative (k : Z) :
  k = x_scale \/ k = y_scale -> not_negative (of_int k).
Proof. intros [-> | ->]; vm_compute; reflexivity. Qed.

(** X3: below an overlap of 100 percent and with a positive width of the
    field of view, the encoder increments of a plan are not negative: the
    snake never steps backwards along a row, and never towards smaller y
    between rows. *)
Theorem increments_not_negative
    (g g' : gui) (ov ax ay w : float) (warned : bool) (s : steps) :
  flt (overlap_of ov) one = true -> flt zero w = true ->
  calculate_grid g ov ax ay w = (g', warned, Planned) ->
  grid g' = Some s ->
  0 <= x_inc s /\ 0 <= y_inc s.
Proof.
  intros Ho Hw Hcalc Hgrid.
  apply calculate_grid_planned in Hcalc as (s' & Hg & Hs & _).
  rewrite Hgrid in Hg. inversion Hg; subst s'; clear Hg.
  apply plan_steps_ok in Hs as (_ & _ & _ & _ & Hix & Hiy).
  destruct (steps_not_negative ov w Ho Hw) as [Nx Ny].
  split.
  - apply (to_int_not_negative _ _
             (fmul_not_negative _ _ Nx
                (of_int_scale_not_negative _ (or_introl eq_refl))) Hix).
  - apply (to_int_not_negative _ _
             (fmul_not_negative _ _ Ny
                (of_int_scale_not_negative _ (or_intror eq_refl))) Hiy).
Qed.

Lemma increments_not_negative_witness :
  0 <= 536580 /\ 0 <= 894300.
Proof.
  apply (increments_not_negative init
           (fst (fst (calculate_grid init (of_int 20) (of_int 500)
                                     (of_int 500) (of_decimal 26829 2))))
           (of_int 20) (of_int 500) (of_int 500) (of_decimal 26829 2) false
           {| x_inc := 536580; y_inc := 894300; x_steps := 4; y_steps := 5 |});
    vm_compute; reflexivity.
Defined.



(** X5: the safety warning is advice only. How [calculate_grid] ends and
    the plan it stores depend on the four entries alone, not on the start
    position or the limits; the warning is shown exactly when a start
    position is set and the area, in encoder steps from it, passes a
    limit. *)
Theorem calculate_grid_ignores_limits
    (g1 g2 : gui) (ov ax ay w : float) :
  snd (calculate_grid g1 ov ax ay w) = snd (calculate_grid g2 ov ax ay w) /\
  (snd (calculate_grid g1 ov ax ay w) = Planned ->
   grid (fst (fst (calculate_grid g1 ov ax ay w)))
   = grid (fst (fst (calculate_grid g2 ov ax ay w))) /\
   (snd (fst (calculate_grid g1 ov ax ay w)) = true <->
    exists sx sy,
      start_x g1 = Some sx /\ start_y g1 = Some sy /\
      (x_limit g1 < sx + x_dimension (fst (fst (calculate_grid g1 ov ax ay w)))
       \/ y_limit g1
          < sy + y_dimension (fst (fst (calculate_grid g1 ov ax ay w)))))).
Proof.
  unfold calculate_grid.
  destruct (to_int (fmul ax _)) as [a | e].
  2:{ cbn. split; [reflexivity | destruct e; discriminate]. }
  destruct (to_int (fmul ay _)) as [b | e].
  2:{ cbn. split; [reflexivity | destruct e; discriminate]. }
  destruct (plan_steps _ _ _ _) as [s | e].
  2:{ cbn. split; [reflexivity | destruct e; discriminate]. }
  cbn -[Z.add Z.gtb]. split; [reflexivity | intros _]. split; [reflexivity |].
  unfold area_warning. cbn -[Z.add Z.gtb].
  destruct (start_x g1) as [sx |], (start_y g1) as [sy |].
  - rewrite orb_true_iff, !Z.gtb_ltb, !Z.ltb_lt. split.
    + intros H. exists sx, sy. auto.
    + intros (sx' & sy' & Hx & Hy & H). inversion Hx; inversion Hy; subst.
      exact H.
  - split; [discriminate | intros (? & ? & _ & H & _); discriminate].
  - split; [discriminate | intros (? & ? & H & _); discriminate].
  - split; [discriminate | intros (? & ? & H & _); discriminate].
Qed.

Lemma calculate_grid_ignores_limits_witness :
  snd (fst (calculate_grid lowered_limit_gui (of_int 20) (of_int 500)
                           (of_int 500) (of_decimal 26829 2))) = true /\
  grid (fst (fst (calculate_grid lowered_limit_gui (of_int 20) (of_int 500)
                                 (of_int 500) (of_decimal 26829 2))))
  = grid (fst (fst (calculate_grid init (of_int 20) (of_int 500)
                                   (of_int 500) (of_decimal 26829 2)))).
Proof.
  destruct (proj2 (calculate_grid_ignores_limits lowered_limit_gui init
                     (of_int 20) (of_int 500) (of_int 500)
                     (of_decimal 26829 2)))
    as [Hg Hw].
  - vm_compute. reflexivity.
  - split; [| exact Hg].
    apply Hw. exists 1000000, 0. vm_compute. repeat split. left. reflexivity.
Defined.

(** * Manual operations of the gantry *)

Lemma catch_run {A} (m : M A) (h : string -> M A) (E : env) (w : world) :
  catch m h E w =
  match m E w with
  | (w1, t1, Exc msg) => let '(w2, t2, r) := h msg E w1 in (w2, t1 ++ t2, r)
  | other => other
  end.
Proof. reflexivity. Qed.

Lemma move_gantry_run (E : env) (w : world) (x_change y_change : Z) :
  connected (app w) = true ->
  let new_x := current_x (app w) + x_change in
  let new_y := current_y (app w) + y_change in
  move_gantry x_change y_change E w =
  if blocked (app w) x_change y_change then
    ({| app := set_status_var "Movement blocked by safety limits" (app w);
        clock := clock w |},
     [Status "Movement blocked by safety limits"], Val tt)
  else
    match o_gantry (E (clock w)) with
    | inl reply =>
        ({| app := set_status_var
                     ("Moving to X: " ++ py_str new_x ++ ", Y: "
                      ++ py_str new_y) (app w);
            clock := S (clock w) |},
         [Gantry (PA new_x new_y) (inl reply);
          Status ("Moving to X: " ++ py_str new_x ++ ", Y: " ++ py_str new_y)],
         Val tt)
    | inr msg =>
        ({| app := set_status_var ("Movement error: " ++ msg) (app w);
            clock := S (clock w) |},
         [Gantry (PA new_x new_y) (inr msg);
          Status ("Movement error: " ++ msg)],
         Val tt)
    end.
Proof.
  intros Hc. cbv zeta. unfold move_gantry, blocked.
  rewrite bind_get, Hc. cbn [negb]. rewrite catch_run.
  destruct ((current_x (app w) + x_change >? x_limit (app w))
            || (current_y (app w) + y_change >? y_limit (app w))).
  - reflexivity.
  - rewrite bind_GCommand.
    destruct (o_gantry (E (clock w))) as [reply | msg]; reflexivity.
Qed.

Lemma move_gantry_idle (E : env) (w : world) (x_change y_change : Z) :
  connected (app w) = false ->
  move_gantry x_change y_change E w = (w, [], Val tt).
Proof.
  intros Hc. unfold move_gantry. rewrite bind_get, Hc. reflexivity.
Qed.

Lemma move_gantry_commands (E : env) (w : world) (x_change y_change : Z) :
  exists w' t,
    move_gantry x_change y_change E w = (w', t, Val tt) /\
    gantry_commands t =
      (if connected (app w) && negb (blocked (app w) x_change y_change)
       then [PA (current_x (app w) + x_change) (current_y (app w) + y_change)]
       else []).
Proof.
  destruct (connected (app w)) eqn:Hc.
  - rewrite (move_gantry_run E w x_change y_change Hc). cbv zeta.
    destruct (blocked (app w) x_change y_change).
    + eexists _, _. split; reflexivity.
    + destruct (o_gantry (E (clock w))) as [reply | msg];
        (eexists _, _; split; reflexivity).
  - rewrite (move_gantry_idle E w x_change y_change Hc).
    exists w, []. split; reflexivity.
Qed.

(** X6: a manual move never raises and never waits. It commands one
    [PA] to the stored position plus the change, or nothing when the gantry
    is not connected or the target passes a limit; and it changes nothing of
    the state but the status line: the stored position moves only when the
    poll of the position reads it back. *)
Theorem move_gantry_total (E : env) (w : world) (x_change y_change : Z) :
  exists w' t,
    move_gantry x_change y_change E w = (w', t, Val tt) /\
    app w' = set_status_var (status_var (app w')) (app w) /\
    gantry_commands t =
      (if connected (app w) && negb (blocked (app w) x_change y_change)
       then [PA (current_x (app w) + x_change) (current_y (app w) + y_change)]
       else []).
Proof.
  destruct (connected (app w)) eqn:Hc.
  - rewrite (move_gantry_run E w x_change y_change Hc). cbv zeta.
    destruct (blocked (app w) x_change y_change).
    + eexists _, _. split; [reflexivity |]. split; reflexivity.
    + destruct (o_gantry (E (clock w))) as [reply | msg];
        (eexists _, _; split; [reflexivity |]; split; reflexivity).
  - rewrite (move_gantry_idle E w x_change y_change Hc).
    exists w, []. split; [reflexivity |]. split; [| reflexivity].
    destruct w as [g c]; destruct g; reflexivity.
Qed.

(** X7: presses do not add up. Two manual moves in a row, with no poll
    of the position between them, command the same target twice. *)
Theorem repeated_move_same_target
    (E : env) (w : world) (x_change y_change : Z) :
  connected (app w) = true ->
  blocked (app w) x_change y_change = false ->
  gantry_commands
    (snd (fst ((move_gantry x_change y_change ;;
                move_gantry x_change y_change) E w)))
  = [PA (current_x (app w) + x_change) (current_y (app w) + y_change);
     PA (current_x (app w) + x_change) (current_y (app w) + y_change)].
Proof.
  intros Hc Hb.
  pose proof (move_gantry_run E w x_change y_change Hc) as H1.
  cbv zeta in H1. rewrite Hb in H1.
  destruct (o_gantry (E (clock w))) as [reply | msg];
    rewrite (bind_val _ _ _ _ _ _ _ H1);
    match goal with
    | |- context [move_gantry _ _ E ?w1] =>
        pose proof (move_gantry_run E w1 x_change y_change Hc) as H2
    end;
    cbv zeta in H2; unfold blocked in H2; fields;
    fold (blocked (app w) x_change y_change) in H2;
    rewrite Hb in H2; rewrite H2;
    destruct (o_gantry (E (S (clock w)))); reflexivity.
Qed.

Lemma repeated_move_same_target_witness :
  gantry_commands
    (snd (fst ((move_gantry 5000 0 ;; move_gantry 5000 0)
                 (answering "0, 0") demo_world)))
  = [PA 5000 0; PA 5000 0].
Proof.
  apply (repeated_move_same_target (answering "0, 0") demo_world 5000 0);
    reflexivity.
Defined.

(** X8: the arrows that retreat are never refused. With the stored
    position at or below the limits and a step size that is not negative,
    [move_left] and [move_down] always command their move, however far
    below zero the target lies. *)
Theorem retreating_arrows_never_blocked (E : env) (w : world) :
  connected (app w) = true ->
  0 <= step_size (app w) ->
  current_x (app w) <= x_limit (app w) ->
  current_y (app w) <= y_limit (app w) ->
  gantry_commands (snd (fst (move_left E w)))
  = [PA (current_x (app w) - step_size (app w)) (current_y (app w))] /\
  gantry_commands (snd (fst (move_down E w)))
  = [PA (current_x (app w)) (current_y (app w) - step_size (app w))].
Proof.
  intros Hc Hs Hx Hy.
  unfold move_left, move_down. rewrite !bind_get.
  split.
  - destruct (move_gantry_commands E w (- step_size (app w)) 0)
      as (w' & t & Hrun & Ht).
    rewrite Hrun. cbn [fst snd]. rewrite Ht, Hc. unfold blocked.
    rewrite !gtb_false by lia. cbn [negb andb orb].
    f_equal. f_equal; lia.
  - destruct (move_gantry_commands E w 0 (- step_size (app w)))
      as (w' & t & Hrun & Ht).
    rewrite Hrun. cbn [fst snd]. rewrite Ht, Hc. unfold blocked.
    rewrite !gtb_false by lia. cbn [negb andb orb].
    f_equal. f_equal; lia.
Qed.

Lemma retreating_arrows_never_blocked_witness :
  gantry_commands (snd (fst (move_left (answering "0, 0") demo_world)))
  = [PA (0 - 5000) 0] /\
  gantry_commands (snd (fst (move_down (answering "0, 0") demo_world)))
  = [PA 0 (0 - 5000)].
Proof.
  apply (retreating_arrows_never_blocked (answering "0, 0") demo_world).
  - reflexivity.
  - simpl. lia.
  - simpl. lia.
  - simpl. lia.
Defined.

Lemma goto_home_run (E : env) (w : world) :
  connected (app w) = true ->
  goto_home E w =
  match o_gantry (E (clock w)) with
  | inl reply =>
      ({| app := set_status_var "Moving to home position" (app w);
          clock := S (clock w) |},
       [Gantry (PA 0 0) (inl reply); Status "Moving to home position"],
       Val tt)
  | inr msg =>
      ({| app := set_status_var ("Move to home error: " ++ msg) (app w);
          clock := S (clock w) |},
       [Gantry (PA 0 0) (inr msg); Status ("Move to home error: " ++ msg)],
       Val tt)
  end.
Proof.
  intros Hc. unfold goto_home. rewrite bind_get, Hc. cbn [negb].
  rewrite catch_run, bind_GCommand.
  destruct (o_gantry (E (clock w))) as [reply | msg]; reflexivity.
Qed.

Lemma return_to_start_position_run (E : env) (w : world) (sx sy : Z) :
  connected (app w) = true ->
  start_x (app w) = Some sx -> start_y (app w) = Some sy ->
  let returning :=
    ("Returning to start position: X=" ++ py_str sx ++ ", Y=" ++ py_str sy)%string
  in
  return_to_start_position E w =
  match o_gantry (E (clock w)) with
  | inl reply =>
      ({| app := set_status_var returning (app w); clock := S (clock w) |},
       [Status returning; Gantry (PA sx sy) (inl reply)], Val tt)
  | inr msg =>
      ({| app := set_status_var ("Return to start error: " ++ msg)
                   (set_status_var returning (app w));
          clock := S (clock w) |},
       [Status returning; Gantry (PA sx sy) (inr msg);
        Status ("Return to start error: " ++ msg)],
       Val tt)
  end.
Proof.
  intros Hc Hx Hy. cbv zeta. unfold return_to_start_position.
  rewrite bind_get, Hc, Hx, Hy.
  rewrite catch_run, bind_status, bind_GCommand. fields.
  destruct (o_gantry (E (clock w))) as [reply | msg]; reflexivity.
Qed.

Lemma emergency_stop_run (E : env) (w : world) :
  connected (app w) = true ->
  emergency_stop E w =
  match o_gantry (E (clock w)) with
  | inl reply =>
      ({| app := set_stop_imaging true
                   (set_status_var "EMERGENCY STOP" (app w));
          clock := S (clock w) |},
       [Gantry ST (inl reply); Status "EMERGENCY STOP"; StopSet], Val tt)
  | inr msg =>
      ({| app := set_status_var ("Emergency stop error: " ++ msg) (app w);
          clock := S (clock w) |},
       [Gantry ST (inr msg); Status ("Emergency stop error: " ++ msg)],
       Val tt)
  end.
Proof.
  intros Hc. unfold emergency_stop. rewrite bind_get, Hc. cbn [negb].
  rewrite catch_run, bind_GCommand.
  destruct (o_gantry (E (clock w))) as [reply | msg]; reflexivity.
Qed.

Lemma set_zero_position_run (E : env) (w : world) :
  connected (app w) = true ->
  set_zero_position E w =
  match o_gantry (E (clock w)) with
  | inl reply =>
      ({| app := set_current 0 0
                   (set_status_var
                      "Position zeroed - current position is now (0,0)"
                      (app w));
          clock := S (clock w) |},
       [Gantry DP0 (inl reply);
        Status "Position zeroed - current position is now (0,0)"], Val tt)
  | inr msg =>
      ({| app := set_status_var ("Zero position error: " ++ msg) (app w);
          clock := S (clock w) |},
       [Gantry DP0 (inr msg); Status ("Zero position error: " ++ msg)],
       Val tt)
  end.
Proof.
  intros Hc. unfold set_zero_position. rewrite bind_get, Hc. cbn [negb].
  rewrite catch_run, bind_GCommand.
  destruct (o_gantry (E (clock w))) as [reply | msg]; reflexivity.
Qed.

(** X9: an emergency stop cancels the sequence only when the controller
    answered. When the [ST] command is accepted the stop flag is set; when
    it raises, the error is shown and the stop flag is left as it was, so a
    running sequence goes on. In neither case is the command tried again. *)
Theorem emergency_stop_needs_reply (E : env) (w : world) :
  connected (app w) = true ->
  (forall reply,
      o_gantry (E (clock w)) = inl reply ->
      snd (fst (emergency_stop E w))
      = [Gantry ST (inl reply); Status "EMERGENCY STOP"; StopSet] /\
      stop_imaging (app (fst (fst (emergency_stop E w)))) = true) /\
  (forall msg,
      o_gantry (E (clock w)) = inr msg ->
      snd (fst (emergency_stop E w))
      = [Gantry ST (inr msg); Status ("Emergency stop error: " ++ msg)] /\
      stop_imaging (app (fst (fst (emergency_stop E w))))
      = stop_imaging (app w)) /\
  snd (emergency_stop E w) = Val tt.
Proof.
  intros Hc. rewrite (emergency_stop_run E w Hc).
  split; [| split].
  - intros reply ->. split; reflexivity.
  - intros msg ->. split; reflexivity.
  - destruct (o_gantry (E (clock w))); reflexivity.
Qed.

Lemma emergency_stop_needs_reply_witness :
  snd (fst (emergency_stop unreachable_env demo_world))
  = [Gantry ST (inr "no response"%string);
     Status "Emergency stop error: no response"] /\
  stop_imaging (app (fst (fst (emergency_stop unreachable_env demo_world))))
  = false.
Proof.
  exact (proj1 (proj2 (emergency_stop_needs_reply unreachable_env demo_world
                         eq_refl))
               "no response"%string eq_refl).
Defined.

(** X10: zeroing moves the origin under the start position and the
    limits. After a [DP 0,0] the controller accepted, the stored position
    is (0, 0), so that the next manual move by [(dx, dy)] commands the
    absolute target [(dx, dy)]; the start position and the limits keep the
    numbers they had in the old coordinates. When the command raises, the
    stored position is left as it was. *)
Theorem zeroing_rebases_moves (E : env) (w : world) (dx dy : Z) :
  connected (app w) = true ->
  (forall reply,
      o_gantry (E (clock w)) = inl reply ->
      let w' := fst (fst (set_zero_position E w)) in
      current_x (app w') = 0 /\ current_y (app w') = 0 /\
      start_x (app w') = start_x (app w) /\
      start_y (app w') = start_y (app w) /\
      x_limit (app w') = x_limit (app w) /\
      y_limit (app w') = y_limit (app w) /\
      (dx <= x_limit (app w) -> dy <= y_limit (app w) ->
       gantry_commands
         (snd (fst ((set_zero_position ;; move_gantry dx dy) E w)))
       = [DP0; PA dx dy])) /\
  (forall msg,
      o_gantry (E (clock w)) = inr msg ->
      let w' := fst (fst (set_zero_position E w)) in
      current_x (app w') = current_x (app w) /\
      current_y (app w') = current_y (app w) /\
      snd (set_zero_position E w) = Val tt).
Proof.
  intros Hc. split.
  - intros reply Hr. cbv zeta.
    pose proof (set_zero_position_run E w Hc) as H. rewrite Hr in H.
    rewrite H. cbn [fst snd app].
    repeat (split; [reflexivity |]).
    intros Hx Hy. rewrite (bind_val _ _ _ _ _ _ _ H).
    match goal with
    | |- context [move_gantry dx dy E ?w1] =>
        pose proof (move_gantry_run E w1 dx dy Hc) as H2
    end.
    cbv zeta in H2. unfold blocked in H2. cbn [app] in H2.
    change (current_x (set_current 0 0 ?g)) with 0 in H2.
    change (current_y (set_current 0 0 ?g)) with 0 in H2.
    change (x_limit (set_current 0 0 (set_status_var ?s ?g)))
      with (x_limit g) in H2.
    change (y_limit (set_current 0 0 (set_status_var ?s ?g)))
      with (y_limit g) in H2.
    rewrite !Z.add_0_l in H2.
    rewrite (gtb_false _ _ Hx), (gtb_false _ _ Hy) in H2. cbn [orb] in H2.
    rewrite H2. cbn [clock].
    destruct (o_gantry (E (S (clock w)))); reflexivity.
  - intros msg Hr. cbv zeta.
    rewrite (set_zero_position_run E w Hc), Hr. repeat split.
Qed.

Lemma zeroing_rebases_moves_witness :
  gantry_commands
    (snd (fst ((set_zero_position ;; move_gantry 700 (-300))
                 (answering "0, 0")
                 {| app := set_current 1000000 0 demo_gui; clock := 0 |})))
  = [DP0; PA 700 (-300)].
Proof.
  refine (proj2 (proj2 (proj2 (proj2 (proj2 (proj2
            (proj1 (zeroing_rebases_moves (answering "0, 0")
                      {| app := set_current 1000000 0 demo_gui; clock := 0 |}
                      700 (-300) eq_refl)
                   "0, 0"%string eq_refl)))))) _ _).
  - simpl. lia.
  - simpl. lia.
Defined.

(** X11: [return_to_start_position] goes where [set_start_position] was
    pressed. After the start position was set on a connected gantry, the
    return commands one [PA] to the position stored at that time, whatever
    the limits are, and returns without raising. *)
Theorem return_goes_to_set_start (E : env) (w : world) :
  connected (app w) = true ->
  let w1 := {| app := set_start_position (app w); clock := clock w |} in
  gantry_commands (snd (fst (return_to_start_position E w1)))
  = [PA (current_x (app w)) (current_y (app w))] /\
  snd (return_to_start_position E w1) = Val tt.
Proof.
  intros Hc. cbv zeta.
  assert (H : set_start_position (app w)
              = set_status_var
                  ("Start position set: X="
                   ++ NilZero.string_of_int (Z.to_int (current_x (app w)))
                   ++ ", Y="
                   ++ NilZero.string_of_int (Z.to_int (current_y (app w))))
                  (set_start (current_x (app w)) (current_y (app w)) (app w)))
    by (unfold set_start_position; rewrite Hc; reflexivity).
  rewrite (return_to_start_position_run E _
             (current_x (app w)) (current_y (app w)));
    try (cbn [app]; rewrite H; try exact Hc; reflexivity).
  cbn [clock]. destruct (o_gantry (E (clock w))); split; reflexivity.
Qed.

Lemma return_goes_to_set_start_witness :
  gantry_commands
    (snd (fst (return_to_start_position (answering "0, 0")
                 {| app := set_start_position
                             (set_current 1000000 0 demo_gui);
                    clock := 0 |})))
  = [PA 1000000 0].
Proof.
  exact (proj1 (return_goes_to_set_start (answering "0, 0")
                  {| app := set_current 1000000 0 demo_gui; clock := 0 |}
                  eq_refl)).
Defined.

(** X12: without a connection the manual operations are inert: they
    send nothing, show nothing and leave the state as it is. In
    particular an emergency stop pressed while the gantry is not connected
    does not set the stop flag. *)
Theorem disconnected_is_inert (E : env) (w : world) (dx dy : Z) (fuel : nat) :
  connected (app w) = false ->
  Forall (fun m : M unit => m E w = (w, [], Val tt))
         [move_gantry dx dy; move_up; move_down; move_left; move_right;
          goto_home; return_to_start_position; emergency_stop;
          set_zero_position; home_gantry fuel] /\
  set_start_position (app w) = app w.
Proof.
  intros Hc. split.
  - repeat constructor;
      unfold move_up, move_down, move_left, move_right, move_gantry,
        goto_home, return_to_start_position, emergency_stop,
        set_zero_position, home_gantry;
      rewrite ?bind_get, ?Hc; reflexivity.
  - unfold set_start_position. rewrite Hc. reflexivity.
Qed.

Lemma disconnected_is_inert_witness :
  emergency_stop unreachable_env {| app := init; clock := 0 |}
  = ({| app := init; clock := 0 |}, [], Val tt).
Proof.
  pose proof (proj1 (disconnected_is_inert unreachable_env
                       {| app := init; clock := 0 |} 0 0 0 eq_refl)) as H.
  rewrite Forall_forall in H.
  apply (H emergency_stop). simpl. tauto.
Defined.

(** X13: no manual operation of the gantry lets an exception out or
    waits: each returns, having sent at most one command to the motion
    controller. *)
Theorem manual_operations_return (E : env) (w : world) :
  Forall (fun m : M unit =>
            exists w' t,
              m E w = (w', t, Val tt) /\
              (List.length (gantry_commands t) <= 1)%nat)
         [move_up; move_down; move_left; move_right; goto_home;
          return_to_start_position; emergency_stop; set_zero_position].
Proof.
  assert (Hm : forall dx dy,
             exists w' t,
               move_gantry dx dy E w = (w', t, Val tt) /\
               (List.length (gantry_commands t) <= 1)%nat).
  { intros dx dy.
    destruct (move_gantry_commands E w dx dy) as (w' & t & Hrun & Ht).
    exists w', t. split; [exact Hrun |]. rewrite Ht.
    destruct (connected (app w) && negb (blocked (app w) dx dy));
      simpl; lia. }
  destruct (connected (app w)) eqn:Hc.
  - repeat constructor;
      try (unfold move_up, move_down, move_left, move_right;
           rewrite bind_get; apply Hm).
    + rewrite (goto_home_run E w Hc).
      destruct (o_gantry (E (clock w))); eexists _, _;
        (split; [reflexivity | simpl; lia]).
    + unfold return_to_start_position. rewrite bind_get, Hc.
      destruct (start_x (app w)) as [sx |] eqn:Hx;
        [| exists w, []; split; [reflexivity | simpl; lia]].
      destruct (start_y (app w)) as [sy |] eqn:Hy;
        [| exists w, []; split; [reflexivity | simpl; lia]].
      rewrite catch_run, bind_status, bind_GCommand. fields.
      destruct (o_gantry (E (clock w))); eexists _, _;
        (split; [reflexivity | simpl; lia]).
    + rewrite (emergency_stop_run E w Hc).
      destruct (o_gantry (E (clock w))); eexists _, _;
        (split; [reflexivity | simpl; lia]).
    + rewrite (set_zero_position_run E w Hc).
      destruct (o_gantry (E (clock w))); eexists _, _;
        (split; [reflexivity | simpl; lia]).
  - repeat constructor;
      try (unfold move_up, move_down, move_left, move_right;
           rewrite bind_get; apply Hm);
      exists w, []; (split; [| simpl; lia]).
    + unfold goto_home. rewrite bind_get, Hc. reflexivity.
    + unfold return_to_start_position. rewrite bind_get, Hc. reflexivity.
    + unfold emergency_stop. rewrite bind_get, Hc. reflexivity.
    + unfold set_zero_position. rewrite bind_get, Hc. reflexivity.
Qed.

(** * The order of the device operations *)

Lemma device_ops_app (t1 t2 : list event) :
  device_ops (t1 ++ t2) = device_ops t1 ++ device_ops t2.
Proof. apply flat_map_app. Qed.

Section Follows.

Variable g0 : gui.

Lemma follows_ret {A} (a : A) : follows g0 [] anywhere (ret a).
Proof.
  intros E w w' t r H Hd. inversion H; subst.
  split; [exact Hd |]. repeat split. constructor.
Qed.

Lemma follows_weaken {A} (p : list device_op) (Q : gui -> Prop) (m : M A) :
  follows g0 p Q m -> follows g0 p anywhere m.
Proof.
  intros Hm E w w' t r H Hd. destruct (Hm _ _ _ _ _ H Hd) as [Hd' Hr].
  split; [exact Hd' |]. destruct r; [| exact Hr | exact Hr].
  destruct Hr as (? & ? & _). repeat split; assumption.
Qed.

Lemma follows_bind {A B} (p1 p2 : list device_op) (Q : gui -> Prop)
    (m : M A) (k : A -> M B) :
  follows g0 p1 anywhere m -> (forall a, follows g0 p2 Q (k a)) ->
  follows g0 (p1 ++ p2) Q (bind m k).
Proof.
  intros Hm Hk E w w' t r H Hd.
  apply bind_inv in H
    as [(w1 & t1 & a & t2 & H1 & H2 & ->) | [(msg & H1 & ->) | (H1 & ->)]].
  - destruct (Hm _ _ _ _ _ H1 Hd) as (Hd1 & Ho1 & Hk1 & _).
    destruct (Hk a _ _ _ _ _ H2 Hd1) as [Hd2 Hr].
    split; [exact Hd2 |]. destruct r as [b | msg |].
    + destruct Hr as (Ho2 & Hk2 & HQ).
      rewrite device_ops_app, Ho1, Ho2.
      split; [reflexivity |]. split; [apply Forall_app; auto | exact HQ].
    + destruct Hr as (t3 & e & q1 & o & q2 & -> & Hk2 & He & -> & Ho2).
      exists (t1 ++ t3), e, (p1 ++ q1), o, q2.
      rewrite app_assoc. split; [reflexivity |].
      split; [apply Forall_app; auto |]. split; [exact He |].
      split; [rewrite <- app_assoc; reflexivity |].
      rewrite <- !app_assoc, device_ops_app, Ho1, Ho2. reflexivity.
    + exact Hr.
  - destruct (Hm _ _ _ _ _ H1 Hd) as [Hd1 Hr].
    split; [exact Hd1 |].
    destruct Hr as (t3 & e & q1 & o & q2 & -> & Hk2 & He & -> & Ho2).
    exists t3, e, q1, o, (q2 ++ p2).
    rewrite <- app_assoc. auto.
  - destruct (Hm _ _ _ _ _ H1 Hd) as [_ []].
Qed.

Lemma follows_get {A} (p : list device_op) (Q : gui -> Prop)
    (k : gui -> M A) :
  (forall g, same_devices g0 g -> follows g0 p Q (k g)) ->
  follows g0 p Q (bind get k).
Proof.
  intros Hk E w w' t r H Hd. rewrite bind_get in H.
  exact (Hk _ Hd _ _ _ _ _ H Hd).
Qed.

Lemma follows_sleep (ms : Z) : follows g0 [] anywhere (sleep ms).
Proof.
  intros E w w' t r H Hd. inversion H; subst.
  split; [exact Hd |]. repeat split. repeat constructor.
Qed.

Lemma follows_camera_info (s : string) :
  follows g0 [] (fun g => camera_info_var g = s) (camera_info s).
Proof.
  intros E w w' t r H Hd. inversion H; subst.
  split; [exact Hd |]. repeat split. repeat constructor.
Qed.

Lemma follows_when (p : list device_op) (b : bool) (m : M unit) :
  follows g0 p anywhere m ->
  follows g0 (if b then p else []) anywhere (when b m).
Proof. destruct b; [auto | intros _; apply follows_ret]. Qed.

Lemma follows_makedirs : follows g0 [MkDir] anywhere makedirs.
Proof.
  intros E w w' t r H Hd. unfold makedirs in H. unprim.
  destruct (o_makedirs (E (clock w))) as [msg |] eqn:Eo;
    inversion H; subst; (split; [exact Hd |]).
  - exists [], (Makedirs (Some msg)), [], MkDir, [].
    split; [reflexivity |]. split; [constructor |].
    split; [right; reflexivity |]. split; reflexivity.
  - repeat split. repeat constructor.
Qed.

Lemma follows_arduino_write (word : string) :
  follows g0 [Ind word] anywhere (arduino_write word).
Proof.
  intros E w w' t r H Hd. unfold arduino_write in H. unprim.
  destruct (o_arduino (E (clock w))) as [msg |] eqn:Eo;
    inversion H; subst; (split; [exact Hd |]).
  - exists [], (Arduino word (Some msg)), [], (Ind word), [].
    split; [reflexivity |]. split; [constructor |].
    split; [left; exists word; reflexivity |]. split; reflexivity.
  - repeat split. repeat constructor.
Qed.

Lemma follows_indicator (word : string) (ms : Z) (g : gui) :
  same_devices g0 g ->
  follows g0 (ind g0 word) anywhere
    (when (arduino_mega g) (arduino_write word ;; sleep ms)).
Proof.
  intros (_ & _ & ->). unfold ind. apply follows_when.
  change [Ind word] with ([Ind word] ++ []).
  apply follows_bind; [apply follows_arduino_write | intros _].
  apply follows_sleep.
Qed.

Hypothesis camera : camera_connected g0 = true.

Lemma follows_send_camera_command (cmd : string) :
  follows g0 (cam g0 cmd) anywhere (send_camera_command cmd).
Proof.
  intros E w w' t r H Hd. pose proof Hd as (Hc & Hs & _).
  unfold send_camera_command in H. rewrite bind_get, Hc, Hs, camera in H.
  unfold cam. destruct (ser g0); cbn [negb orb] in H.
  - unprim.
    destruct (o_serial (E (clock w))) as [msg |];
      cbv beta iota zeta in H; cbn [app clock] in H.
    { inversion H; subst.
      split; [exact Hd |]. repeat split. repeat constructor. }
    destruct (o_serial (E (S (clock w)))) as [msg |];
      cbv beta iota zeta in H; cbn [app clock] in H.
    { inversion H; subst.
      split; [exact Hd |]. repeat split. repeat constructor. }
    destruct (o_in_waiting (E (S (clock w)))) as [response |];
      cbv beta iota zeta in H; cbn [app clock] in H;
      inversion H; subst;
      (split; [exact Hd |]); repeat split; repeat constructor.
  - unprim. inversion H; subst.
    split; [exact Hd |]. repeat split. repeat constructor.
Qed.

Lemma follows_control_filter (filter_in : bool) :
  follows g0 (cam g0 (if filter_in then "FILTER,ON" else "FILTER,OFF"))
          anywhere (control_filter filter_in).
Proof.
  unfold control_filter. apply follows_get. intros g (Hc & _).
  rewrite Hc, camera. cbn [negb].
  rewrite <- (app_nil_r (cam g0 _)).
  apply follows_bind; [apply follows_send_camera_command | intros success].
  destruct success; [| apply follows_ret].
  apply (follows_weaken _ _ _ (follows_camera_info _)).
Qed.

End Follows.

Lemma take_both_photos_steps (g0 g : gui) :
  camera_connected g0 = true -> same_devices g0 g ->
  follows g0 (photo_plan g0)
    (fun g' => camera_info_var g' = "Successfully captured both photos"%string)
    (makedirs ;;
     when (arduino_mega g) (arduino_write "RED" ;; sleep 2000) ;;
     send_camera_command "SHUTTER" ;;
     sleep 1000 ;;
     when (arduino_mega g) (arduino_write "OFF" ;; sleep 500) ;;
     send_camera_command "FILTER,ON" ;;
     sleep 1000 ;;
     when (arduino_mega g) (arduino_write "GREEN" ;; sleep 500) ;;
     send_camera_command "SHUTTER" ;;
     sleep 1000 ;;
     when (arduino_mega g) (arduino_write "OFF" ;; sleep 500) ;;
     send_camera_command "FILTER,OFF" ;;
     camera_info "Successfully captured both photos").
Proof.
  intros Hc Hg. unfold photo_plan.
  rewrite <- (app_nil_r (cam g0 "FILTER,OFF")).
  change (MkDir :: ?p) with ([MkDir] ++ p).
  apply follows_bind; [apply follows_makedirs | intros _].
  apply follows_bind; [apply follows_indicator, Hg | intros _].
  apply follows_bind; [apply follows_send_camera_command, Hc | intros _].
  apply (follows_bind _ [] _); [apply follows_sleep | intros _].
  apply follows_bind; [apply follows_indicator, Hg | intros _].
  apply follows_bind; [apply follows_send_camera_command, Hc | intros _].
  apply (follows_bind _ [] _); [apply follows_sleep | intros _].
  apply follows_bind; [apply follows_indicator, Hg | intros _].
  apply follows_bind; [apply follows_send_camera_command, Hc | intros _].
  apply (follows_bind _ [] _); [apply follows_sleep | intros _].
  apply follows_bind; [apply follows_indicator, Hg | intros _].
  apply follows_bind; [apply follows_send_camera_command, Hc | intros _].
  apply follows_camera_info.
Qed.

Lemma same_devices_refl (g : gui) : same_devices g g.
Proof. repeat split. Qed.

(** How a run of [take_both_photos] went: the whole plan, with the
    success line; or the plan up to a failed operation on the indicator or
    the file system, with the error line. *)
Lemma take_both_photos_follows (E : env) (w w' : world) (t : list event)
    (r : result unit) :
  take_both_photos E w = (w', t, r) ->
  camera_connected (app w) = true ->
  r = Val tt /\
  ((device_ops t = photo_plan (app w) /\ Forall device_ok t /\
    camera_info_var (app w') = "Successfully captured both photos"%string)
   \/
   (exists t1 e msg p1 o p2,
       t = t1 ++ [e; CameraInfo ("Photo sequence error: " ++ msg)] /\
       Forall device_ok t1 /\ uncaught_failure e msg /\
       photo_plan (app w) = p1 ++ o :: p2 /\
       device_ops (t1 ++ [e]) = p1 ++ [o] /\
       camera_info_var (app w') = ("Photo sequence error: " ++ msg)%string)).
Proof.
  intros H Hc. unfold take_both_photos in H.
  rewrite bind_get, Hc in H. cbn [negb] in H.
  pose proof (take_both_photos_steps (app w) (app w) Hc
                (same_devices_refl _)) as Hsteps.
  apply catch_inv in H as [(w1 & t1 & msg & t2 & H1 & H2 & ->) | (H1 & Hn)].
  - destruct (Hsteps _ _ _ _ _ H1 (same_devices_refl _))
      as (_ & t3 & e & p1 & o & p2 & -> & Hok & He & Hp & Ho).
    inversion H2; subst. split; [reflexivity |]. right.
    exists t3, e, msg, p1, o, p2. rewrite <- app_assoc.
    repeat split; assumption.
  - destruct (Hsteps _ _ _ _ _ H1 (same_devices_refl _)) as (_ & Hr).
    destruct r as [[] | msg |];
      [| exfalso; exact (Hn msg eq_refl) | destruct Hr].
    split; [reflexivity |]. left. exact Hr.
Qed.

Lemma uncaught_failure_not_ok (e : event) (msg : string) :
  uncaught_failure e msg -> ~ device_ok e.
Proof. intros [[word ->] | ->] H; exact H. Qed.

Lemma uncaught_failure_op (e : event) (msg : string) :
  uncaught_failure e msg ->
  exists o, device_ops [e] = [o] /\ forall cmd, o <> Cam cmd.
Proof.
  intros [[word ->] | ->]; eexists; (split; [reflexivity | discriminate]).
Qed.

(** X14: [take_both_photos] works through its plan in order: directory,
    red light, shutter, light off, filter in, green light, shutter, light
    off, filter out (the lights only with an indicator, the camera commands
    only with an open port). It never raises. The operations of a run are
    an initial part of the plan, and the whole plan unless an operation on
    the indicator or the file system failed; the run then ends with the
    line "Successfully captured both photos", whatever became of the
    commands to the camera, whose failures [send_camera_command] keeps to
    itself. *)
Theorem take_both_photos_in_order (E : env) (w w' : world) (t : list event)
    (r : result unit) :
  take_both_photos E w = (w', t, r) ->
  camera_connected (app w) = true ->
  r = Val tt /\
  prefix (device_ops t) (photo_plan (app w)) /\
  (Forall device_ok t ->
   device_ops t = photo_plan (app w) /\
   camera_info_var (app w') = "Successfully captured both photos"%string).
Proof.
  intros H Hc.
  destruct (take_both_photos_follows E w w' t r H Hc)
    as [-> [(Ho & Hok & Hi) | (t1 & e & msg & p1 & o & p2 & -> & Hok & He
                               & Hp & Ho & Hi)]].
  - split; [reflexivity |]. rewrite Ho.
    split; [apply prefix_refl | auto].
  - split; [reflexivity |]. split.
    + exists p2. rewrite Hp.
      change (t1 ++ [e; CameraInfo ("Photo sequence error: " ++ msg)])
        with (t1 ++ [e] ++ [CameraInfo ("Photo sequence error: " ++ msg)]).
      rewrite app_assoc, device_ops_app, Ho.
      cbn [device_ops flat_map]. rewrite app_nil_r, <- app_assoc.
      reflexivity.
    + intros Hall. exfalso.
      apply Forall_app in Hall as [_ Hall]. inversion Hall; subst.
      exact (uncaught_failure_not_ok _ _ He H2).
Qed.

Lemma take_both_photos_in_order_witness :
  In (Serial "FILTER,OFF" (Some "port closed"%string))
     (snd (fst (take_both_photos broken_serial_env
                                 {| app := lit_gui; clock := 0 |}))) /\
  camera_info_var
    (app (fst (fst (take_both_photos broken_serial_env
                                     {| app := lit_gui; clock := 0 |}))))
  = "Successfully captured both photos"%string.
Proof.
  split; [vm_compute; tauto |].
  refine (proj2 (proj2 (proj2 (take_both_photos_in_order broken_serial_env
                                 {| app := lit_gui; clock := 0 |} _ _ _
                                 (run_eta _) eq_refl)) _)).
  vm_compute. repeat constructor.
Defined.

Lemma filter_off_is_last (g : gui) (p1 p2 : list device_op) (o : device_op) :
  photo_plan g = p1 ++ o :: p2 -> ~ In (Cam "FILTER,OFF") p1.
Proof.
  unfold photo_plan, ind, cam.
  destruct (arduino_mega g), (ser g); cbn [List.app]; intros Hp Hin;
    repeat (destruct p1 as [| d p1];
            [ destruct Hin
            | cbn [List.app] in Hp;
              first [ discriminate Hp
                    | injection Hp as Hd Hp; subst d;
                      destruct Hin as [Hin | Hin];
                      [ first [ discriminate Hin
                              | destruct p1; discriminate Hp ] |] ] ]).
Qed.

(** X15: a failure of the indicator or of the file system leaves the
    filter where it is. In a run of [take_both_photos] with such a failure
    the command "FILTER,OFF" is never sent, so a filter that "FILTER,ON"
    had moved in before the failure stays in; the failure is shown as
    "Photo sequence error". *)
Theorem failed_indicator_leaves_filter (E : env) (w w' : world)
    (t : list event) (r : result unit) :
  take_both_photos E w = (w', t, r) ->
  camera_connected (app w) = true ->
  ~ Forall device_ok t ->
  ~ In (Cam "FILTER,OFF") (device_ops t) /\
  exists msg,
    camera_info_var (app w') = ("Photo sequence error: " ++ msg)%string.
Proof.
  intros H Hc Hbad.
  destruct (take_both_photos_follows E w w' t r H Hc)
    as [_ [(_ & Hok & _) | (t1 & e & msg & p1 & o & p2 & -> & Hok & He
                            & Hp & Ho & Hi)]];
    [contradiction |].
  split; [| exists msg; exact Hi].
  change (t1 ++ [e; CameraInfo ("Photo sequence error: " ++ msg)])
    with (t1 ++ [e] ++ [CameraInfo ("Photo sequence error: " ++ msg)]).
  rewrite app_assoc, device_ops_app, Ho.
  cbn [device_ops flat_map]. rewrite app_nil_r.
  destruct (uncaught_failure_op e msg He) as (o' & Hoe & Hncam).
  rewrite device_ops_app, Hoe in Ho.
  apply app_inj_tail in Ho as [_ <-].
  intros Hin. apply in_app_or in Hin as [Hin | [Hin | []]].
  - exact (filter_off_is_last _ _ _ _ Hp Hin).
  - exact (Hncam _ Hin).
Qed.

Lemma failed_indicator_leaves_filter_witness :
  In (Cam "FILTER,ON")
     (device_ops (snd (fst (take_both_photos green_fails_env
                              {| app := lit_gui; clock := 0 |})))) /\
  ~ In (Cam "FILTER,OFF")
       (device_ops (snd (fst (take_both_photos green_fails_env
                                {| app := lit_gui; clock := 0 |})))).
Proof.
  split; [vm_compute; tauto |].
  refine (proj1 (failed_indicator_leaves_filter green_fails_env
                   {| app := lit_gui; clock := 0 |} _ _ _
                   (run_eta _) eq_refl _)).
  intros H. rewrite Forall_forall in H.
  refine (H (Arduino "GREEN" (Some "write timeout"%string)) _).
  vm_compute. tauto.
Defined.

Lemma take_manual_photo_steps (g0 : gui) (with_filter : bool) :
  camera_connected g0 = true ->
  follows g0 (manual_photo_plan g0 with_filter) anywhere
    (makedirs ;;
     when with_filter (control_filter true ;; sleep 1000) ;;
     success <- send_camera_command "SHUTTER" ;;
     when success
       (camera_info ("Took photo "
                     ++ (if with_filter then "with" else "without")
                     ++ " filter")) ;;
     when with_filter (sleep 1000 ;; control_filter false)).
Proof.
  intros Hc. unfold manual_photo_plan.
  change (MkDir :: ?p) with ([MkDir] ++ p).
  apply follows_bind; [apply follows_makedirs | intros _].
  apply follows_bind.
  { apply follows_when.
    rewrite <- (app_nil_r (cam g0 "FILTER,ON")).
    apply follows_bind; [| intros _; apply follows_sleep].
    apply (follows_control_filter g0 Hc true). }
  intros _.
  apply follows_bind; [apply follows_send_camera_command, Hc | intros success].
  apply (follows_bind _ [] _).
  { destruct success; [| apply follows_ret].
    apply (follows_weaken _ _ _ _ (follows_camera_info _ _)). }
  intros _. apply follows_when.
  apply (follows_bind _ [] _); [apply follows_sleep | intros _].
  apply (follows_control_filter g0 Hc false).
Qed.

Lemma manual_photo_plan_failure (g : gui) (with_filter : bool)
    (p1 p2 : list device_op) (o : device_op) :
  manual_photo_plan g with_filter = p1 ++ o :: p2 ->
  (forall cmd, o <> Cam cmd) -> p1 = [].
Proof.
  unfold manual_photo_plan, cam. intros Hp Hncam.
  destruct p1 as [| d p1]; [reflexivity | exfalso].
  cbn [List.app] in Hp. injection Hp as _ Hp.
  destruct with_filter, (ser g); cbn [List.app] in Hp;
    repeat (destruct p1 as [| ? p1]; cbn [List.app] in Hp;
            [ first [ discriminate Hp
                    | injection Hp as Hp _; exact (Hncam _ (eq_sym Hp)) ]
            | first [ discriminate Hp | injection Hp as _ Hp ] ]).
Qed.

(** X16: a manual photo with the filter puts the filter back. Only the
    creation of the directory can end [take_manual_photo] early, and then
    nothing was sent; once it is through, the shutter command and, with
    the filter, the command "FILTER,OFF" after it are sent whatever the
    serial port answered to the commands before. The method never
    raises. *)
Theorem manual_photo_restores_filter (E : env) (w w' : world)
    (t : list event) (r : result unit) (with_filter : bool) :
  take_manual_photo with_filter E w = (w', t, r) ->
  camera_connected (app w) = true ->
  r = Val tt /\
  (Forall device_ok t ->
   device_ops t = manual_photo_plan (app w) with_filter) /\
  (~ Forall device_ok t ->
   device_ops t = [MkDir] /\
   exists msg, camera_info_var (app w') = ("Photo error: " ++ msg)%string).
Proof.
  intros H Hc. unfold take_manual_photo in H.
  rewrite bind_get, Hc in H. cbn [negb] in H.
  pose proof (take_manual_photo_steps (app w) with_filter Hc) as Hsteps.
  apply catch_inv in H as [(w1 & t1 & msg & t2 & H1 & H2 & ->) | (H1 & Hn)].
  - destruct (Hsteps _ _ _ _ _ H1 (same_devices_refl _))
      as (_ & t3 & e & p1 & o & p2 & -> & Hok & He & Hp & Ho).
    inversion H2; subst. split; [reflexivity |]. split.
    + intros Hall. exfalso.
      apply Forall_app in Hall as [Hall _].
      apply Forall_app in Hall as [_ Hall]. inversion Hall; subst.
      exact (uncaught_failure_not_ok _ _ He H3).
    + intros _. split; [| exists msg; reflexivity].
      destruct (uncaught_failure_op e msg He) as (o' & Hoe & Hncam).
      rewrite device_ops_app, Ho. cbn [device_ops flat_map].
      rewrite app_nil_r.
      rewrite device_ops_app, Hoe in Ho.
      apply app_inj_tail in Ho as [_ <-].
      pose proof (manual_photo_plan_failure _ _ _ _ _ Hp Hncam) as ->.
      cbn [List.app] in Hp |- *. unfold manual_photo_plan in Hp.
      injection Hp as <- _. reflexivity.
  - destruct (Hsteps _ _ _ _ _ H1 (same_devices_refl _)) as (_ & Hr).
    destruct r as [[] | msg |];
      [| exfalso; exact (Hn msg eq_refl) | destruct Hr].
    destruct Hr as (Ho & Hok & _).
    split; [reflexivity |]. split; [intros _; exact Ho | contradiction].
Qed.

Lemma manual_photo_restores_filter_witness :
  device_ops (snd (fst (take_manual_photo true broken_serial_env
                          {| app := lit_gui; clock := 0 |})))
  = [MkDir; Cam "FILTER,ON"; Cam "SHUTTER"; Cam "FILTER,OFF"].
Proof.
  refine (proj1 (proj2 (manual_photo_restores_filter broken_serial_env
                          {| app := lit_gui; clock := 0 |} _ _ _ true
                          (run_eta _) eq_refl)) _).
  vm_compute. repeat constructor.
Defined.

Lemma set_camera_info_var_same (g : gui) :
  g = set_camera_info_var (camera_info_var g) g.
Proof. destruct g. reflexivity. Qed.

(** X17: [send_camera_command] always returns. Its answer is [True]
    exactly when the camera is connected with an open port and neither the
    write nor the look at the waiting bytes raised; without camera or port
    it touches no port and shows "Camera not connected"; when the port
    raised it shows "Command error" with the text of the exception. It
    changes nothing of the state but that line. *)
Theorem send_camera_command_total (cmd : string) (E : env) (w : world) :
  exists w' t b,
    send_camera_command cmd E w = (w', t, Val b) /\
    app w' = set_camera_info_var (camera_info_var (app w')) (app w) /\
    (b = true <->
     camera_connected (app w) = true /\ ser (app w) = true /\
     o_serial (E (clock w)) = None /\ o_serial (E (S (clock w))) = None) /\
    (camera_connected (app w) && ser (app w) = false ->
     t = [CameraInfo "Camera not connected"]) /\
    (camera_connected (app w) && ser (app w) = true -> b = false ->
     exists msg,
       camera_info_var (app w') = ("Command error: " ++ msg)%string).
Proof.
  unfold send_camera_command. rewrite bind_get.
  destruct (camera_connected (app w)) eqn:Hc, (ser (app w)) eqn:Hs;
    cbn [negb orb andb].
  2-4: (eexists _, _, false; split; [reflexivity |];
        split; [reflexivity |];
        split; [split; [discriminate | intros (? & ? & _); discriminate] |];
        split; [reflexivity | discriminate]).
  unprim.
  destruct (o_serial (E (clock w))) as [msg |] eqn:E1;
    cbv beta iota zeta; cbn [app clock].
  { eexists _, _, false. split; [reflexivity |]. split; [reflexivity |].
    split; [split; [discriminate | intros (_ & _ & ? & _); discriminate] |].
    split; [discriminate | intros _ _; exists msg; reflexivity]. }
  destruct (o_serial (E (S (clock w)))) as [msg |] eqn:E2;
    cbv beta iota zeta; cbn [app clock].
  { eexists _, _, false. split; [reflexivity |]. split; [reflexivity |].
    split; [split; [discriminate | intros (_ & _ & _ & ?); discriminate] |].
    split; [discriminate | intros _ _; exists msg; reflexivity]. }
  destruct (o_in_waiting (E (S (clock w)))) as [response |];
    cbv beta iota zeta; cbn [app clock];
    (eexists _, _, true; split; [reflexivity |];
     split; [first [reflexivity | apply set_camera_info_var_same] |];
     split; [split; auto |];
     split; discriminate).
Qed.

(** X18: without a camera the operations of the camera are inert: the
    photo methods and the filter control send nothing, show nothing and
    leave the state as it is, and [start_imaging_sequence] starts
    nothing. *)
Theorem camera_disconnected_is_inert (E : env) (w : world) (b : bool) :
  camera_connected (app w) = false ->
  Forall (fun m : M unit => m E w = (w, [], Val tt))
         [take_both_photos; control_filter b; take_manual_photo b] /\
  start_imaging_sequence b E w = (w, [], Val false).
Proof.
  intros Hc. split.
  - repeat constructor;
      unfold take_both_photos, control_filter, take_manual_photo;
      rewrite bind_get, Hc; reflexivity.
  - unfold start_imaging_sequence. rewrite bind_get, Hc.
    destruct (connected (app w)), (is_imaging (app w)); reflexivity.
Qed.

Lemma camera_disconnected_is_inert_witness :
  start_imaging_sequence true calm_env demo_world
  = (demo_world, [], Val false).
Proof.
  exact (proj2 (camera_disconnected_is_inert calm_env demo_world true
                  eq_refl)).
Defined.

(** * The imaging thread and the state *)

Lemma obeys_imaging_thread (Inv : gui -> Prop) (fuel : nat) (sx sy : Z)
    (s : steps) :
  (forall b g, Inv g -> Inv (set_stop_imaging b g)) ->
  (forall s g, Inv g -> Inv (set_status_var s g)) ->
  (forall s g, Inv g -> Inv (set_camera_info_var s g)) ->
  (forall b g, Inv g -> Inv (set_waiting_for_photo b g)) ->
  (forall b g, Inv g -> Inv (set_is_imaging b g)) ->
  obeys Inv (fun _ => True) (_imaging_thread fuel sx sy s).
Proof.
  intros Hstop Hstatus Hinfo Hwait Himg.
  assert (Hend : obeys Inv (fun _ => True) (modify (set_is_imaging false)))
    by (apply obeys_modify; auto).
  assert (Hst : forall x, obeys Inv (fun _ => True) (status x))
    by (intros x; apply obeys_status; auto).
  assert (Hrd : obeys Inv (fun _ => True) read_stop)
    by (apply obeys_read_stop; auto).
  unfold _imaging_thread. apply obeys_catch.
  - apply obeys_bind; [apply Hst | intros _].
    apply obeys_get; intros g _.
    apply obeys_bind.
    { apply obeys_when, obeys_bind;
        [apply obeys_control_filter; auto | intros _; apply obeys_sleep; auto]. }
    intros _.
    apply obeys_bind; [apply obeys_GCommand; auto | intros _].
    apply obeys_bind; [apply obeys_wait_for_position; auto | intros _].
    apply obeys_bind; [apply Hrd | intros stop].
    destruct stop.
    + apply obeys_bind; [apply Hst | intros _; apply Hend].
    + apply obeys_bind; [apply Hst | intros _].
      apply obeys_bind; [apply obeys_rows; auto | intros l].
      apply obeys_bind; [apply Hrd | intros stop].
      apply obeys_bind; [| intros _; apply Hend].
      destruct (negb stop); apply Hst.
  - intros msg. apply obeys_bind; [apply Hst | intros _; apply Hend].
Qed.

(** X19: the imaging thread writes nothing of the set-up. Whatever the
    hardware and the user do, a run of the thread leaves the connection
    flags, the ports, the step size, the stored position, the start
    position, the limits, the plan and the capture mode as they were: the
    thread itself never brings the stored position up to date. *)
Theorem imaging_thread_keeps_setup (E : env) (fuel : nat) (sx sy : Z)
    (s : steps) (w w' : world) (t : list event) (r : result unit) :
  _imaging_thread fuel sx sy s E w = (w', t, r) ->
  same_setup (app w) (app w').
Proof.
  intros H.
  refine (proj1 (obeys_imaging_thread (same_setup (app w)) fuel sx sy s
                   _ _ _ _ _ E w w' t r H _));
    try (intros ? g Hg; exact Hg).
  repeat split.
Qed.

Lemma imaging_thread_keeps_setup_witness :
  same_setup demo_gui
    (app (fst (fst (_imaging_thread 3 0 0 demo_steps demo_env demo_world)))).
Proof.
  exact (imaging_thread_keeps_setup demo_env 3 0 0 demo_steps demo_world
           _ _ _ (run_eta _)).
Defined.

(** ** Postconditions *)

Section Hoare.

Context {A B : Type}.

Lemma hoare_bind (P : gui -> Prop) (Q : gui -> A -> Prop)
    (R : gui -> B -> Prop) (m : M A) (k : A -> M B) :
  hoare P m Q -> (forall a, hoare (fun g => Q g a) (k a) R) ->
  hoare P (bind m k) R.
Proof.
  intros Hm Hk E w w' t r H HP b ->.
  apply bind_val_inv in H as (w1 & t1 & a & t2 & H1 & H2 & _).
  exact (Hk a _ _ _ _ _ H2 (Hm _ _ _ _ _ H1 HP a eq_refl) b eq_refl).
Qed.

(** What the first computation did does not matter to the postcondition of
    the second. *)
Lemma hoare_then (P : gui -> Prop) (R : gui -> B -> Prop)
    (m : M A) (k : A -> M B) :
  (forall a, hoare (fun _ => True) (k a) R) -> hoare P (bind m k) R.
Proof.
  intros Hk E w w' t r H _ b ->.
  apply bind_val_inv in H as (w1 & t1 & a & t2 & _ & H2 & _).
  exact (Hk a _ _ _ _ _ H2 I b eq_refl).
Qed.

Lemma hoare_catch (P : gui -> Prop) (Q : gui -> A -> Prop)
    (m : M A) (h : string -> M A) :
  hoare P m Q -> (forall msg, hoare (fun _ => True) (h msg) Q) ->
  hoare P (catch m h) Q.
Proof.
  intros Hm Hh E w w' t r H HP a ->.
  apply catch_inv in H as [(w1 & t1 & msg & t2 & _ & H2 & _) | (H1 & _)].
  - exact (Hh msg _ _ _ _ _ H2 I a eq_refl).
  - exact (Hm _ _ _ _ _ H1 HP a eq_refl).
Qed.

Lemma hoare_ret (P : gui -> Prop) (Q : gui -> A -> Prop) (a : A) :
  (forall g, P g -> Q g a) -> hoare P (ret a) Q.
Proof.
  intros HQ E w w' t r H HP b ->. inversion H; subst. auto.
Qed.

End Hoare.

Lemma hoare_modify (P : gui -> Prop) (Q : gui -> unit -> Prop)
    (f : gui -> gui) :
  (forall g, P g -> Q (f g) tt) -> hoare P (modify f) Q.
Proof.
  intros Hf E w w' t r H HP [] ->. inversion H; subst.
  exact (Hf _ HP).
Qed.

(** X20: the imaging flag is cleared on every way out of the thread: the
    stop before the first cell, the stop or the end of the grid, and the
    failure of a command. Whenever the thread returns, [is_imaging] is
    false. *)
Theorem imaging_flag_always_cleared (E : env) (fuel : nat) (sx sy : Z)
    (s : steps) (w w' : world) (t : list event) (r : result unit) :
  _imaging_thread fuel sx sy s E w = (w', t, r) ->
  r = Val tt -> is_imaging (app w') = false.
Proof.
  intros H Hr.
  assert (Hend : hoare (fun _ => True) (modify (set_is_imaging false))
                       (fun g _ => is_imaging g = false))
    by (apply hoare_modify; reflexivity).
  cut (hoare (fun _ => True) (_imaging_thread fuel sx sy s)
             (fun g _ => is_imaging g = false));
    [intros Hall; exact (Hall E w w' t r H I tt Hr) |].
  unfold _imaging_thread. apply hoare_catch.
  - do 6 (apply hoare_then; intros ?).
    match goal with
    | |- hoare _ (if ?b then _ else _) _ => destruct b
    end.
    + apply hoare_then; intros _. exact Hend.
    + do 4 (apply hoare_then; intros ?). exact Hend.
  - intros msg. apply hoare_then; intros _. exact Hend.
Qed.

Lemma imaging_flag_always_cleared_witness :
  is_imaging
    (app (fst (fst (_imaging_thread 3 0 0 demo_steps failing_env
                      {| app := set_is_imaging true demo_gui;
                         clock := 0 |}))))
  = false.
Proof.
  apply (imaging_flag_always_cleared failing_env 3 0 0 demo_steps
           {| app := set_is_imaging true demo_gui; clock := 0 |}
           _ _ _ (run_eta _)).
  vm_compute. reflexivity.
Defined.

(** ** Counting the cells *)

Lemma visit_count (fuel : nat) (s : steps) (y x : nat) (l : locals) :
  hoare (fun _ => True) (visit fuel s y x l)
        (fun _ r => image_count (fst r)
                    = image_count l + (if snd r then 0 else 1)).
Proof.
  assert (Hbreak : forall ax ay,
             hoare (fun _ => True)
               (ret ({| aim_x := ax; aim_y := ay;
                        image_count := image_count l |}, true))
               (fun _ r => image_count (fst r)
                           = image_count l + (if snd r then 0 else 1))).
  { intros ax ay. apply hoare_ret. intros g _. cbn. lia. }
  unfold visit. apply hoare_then; intros stop.
  destruct stop; [apply Hbreak |].
  apply hoare_then; intros g.
  destruct ((next_aim_x s y x l >? x_limit g) || (aim_y l >? y_limit g)).
  { do 2 (apply hoare_then; intros _). apply Hbreak. }
  do 3 (apply hoare_then; intros _).
  apply hoare_then; intros stop.
  destruct stop; [apply Hbreak |].
  do 3 (apply hoare_then; intros ?).
  apply hoare_ret. intros g' _. reflexivity.
Qed.

Lemma row_count (fuel : nat) (s : steps) (y : nat) (xs : list nat)
    (l : locals) :
  hoare (fun _ => True) (row fuel s y xs l)
        (fun g l' => stop_imaging g = false ->
                     image_count l'
                     = image_count l + Z.of_nat (List.length xs)).
Proof.
  revert l. induction xs as [| x xs IH]; intros l.
  - apply hoare_ret. intros g _ _. cbn. lia.
  - intros E w w' t r H _ l' ->. cbn [row] in H.
    apply bind_val_inv in H as (w1 & t1 & [l1 broke] & t2 & Hv & H & ->).
    pose proof (visit_count fuel s y x l _ _ _ _ _ Hv I _ eq_refl) as Hc.
    destruct (visit_moves _ _ _ _ _ _ _ _ _ _ Hv) as [_ Hm].
    destruct (Hm l1 broke eq_refl) as (_ & _ & Hb).
    cbn [fst snd] in Hc. destruct broke.
    + rewrite ret_run in H. inversion H; subst. congruence.
    + intros Hs. rewrite (IH l1 _ _ _ _ _ H I _ eq_refl Hs), Hc.
      cbn [List.length]. lia.
Qed.

Lemma rows_count (fuel : nat) (sx sy : Z) (s : steps) (ys : list nat)
    (l : locals) :
  hoare (fun _ => True) (rows fuel sx sy s ys l)
        (fun g l' => stop_imaging g = false ->
                     image_count l'
                     = image_count l
                       + Z.of_nat (List.length ys
                                   * List.length (range (x_steps s)))).
Proof.
  revert l. induction ys as [| y ys IH]; intros l.
  - apply hoare_ret. intros g _ _. cbn. lia.
  - intros E w w' t r H _ l' ->. cbn [rows] in H.
    apply bind_val_inv in H as (w1 & t1 & l1 & t2 & Hr & H & ->).
    pose proof (row_count fuel s y _ _ _ _ _ _ _ Hr I _ eq_refl) as Hc.
    rewrite bind_read_stop in H. cbv zeta in H.
    apply log_first_inv in H as (t3 & H & _).
    destruct (stop_imaging (app w1) || o_stop (E (clock w1))) eqn:Eb.
    + rewrite ret_run in H. inversion H; subst. fields. discriminate.
    + apply orb_false_iff in Eb as [Eb _]. intros Hs.
      rewrite (IH l1 _ _ _ _ _ H I _ eq_refl Hs), (Hc Eb).
      unfold row_start. destruct (y =? 0)%nat; cbn [image_count List.length]; lia.
Qed.

Lemma cells_product (s : steps) :
  cells s = Z.max 0 (x_steps s) * Z.max 0 (y_steps s).
Proof.
  unfold cells, range. rewrite !length_seq, Nat2Z.inj_mul.
  replace (Z.of_nat (Z.to_nat (y_steps s))) with (Z.max 0 (y_steps s)) by lia.
  replace (Z.of_nat (Z.to_nat (x_steps s))) with (Z.max 0 (x_steps s)) by lia.
  apply Z.mul_comm.
Qed.

(** X21: a sequence that runs to its end counts every cell. When the
    thread returns with the stop flag clear and no command to the motion
    controller failed, its last status is "Imaging sequence complete" with
    the number of cells of the grid: columns times rows, a count that is
    zero or negative standing for no column or row at all. *)
Theorem completed_sequence_counts_cells (E : env) (fuel : nat) (sx sy : Z)
    (s : steps) (w w' : world) (t : list event) :
  _imaging_thread fuel sx sy s E w = (w', t, Val tt) ->
  stop_imaging (app w') = false ->
  Forall gantry_ok t ->
  status_var (app w')
  = ("Imaging sequence complete - " ++ py_str (cells s)
     ++ " positions captured")%string /\
  cells s = Z.max 0 (x_steps s) * Z.max 0 (y_steps s).
Proof.
  intros H Hs Hok. split; [| apply cells_product].
  unfold _imaging_thread in H.
  apply catch_inv in H as [(w1 & t1 & msg & t2 & H1 & H2 & ->) | (H & _)].
  { exfalso.
    pose proof (pending_thread_body fuel sx sy s _ _ _ _ _ H1)
      as (t0 & e & -> & [c ->] & _).
    apply Forall_app in Hok as [Hok _].
    apply Forall_app in Hok as [_ Hok]. inversion Hok; subst.
    assumption. }
  apply bind_val_inv in H as (w1 & t1 & [] & t2 & _ & H & _).
  rewrite bind_get in H.
  apply bind_val_inv in H as (w2 & t3 & [] & t4 & _ & H & _).
  apply bind_val_inv in H as (w3 & t5 & reply & t6 & _ & H & _).
  apply bind_val_inv in H as (w4 & t7 & done & t8 & _ & H & _).
  rewrite bind_read_stop in H. cbv zeta in H.
  apply log_first_inv in H as (t9 & H & _).
  destruct (stop_imaging (app w4) || o_stop (E (clock w4))).
  { rewrite bind_status, modify_run in H. unfold log_first in H.
    inversion H; subst. fields. discriminate. }
  rewrite bind_status in H. apply log_first_inv in H as (t10 & H & _).
  apply bind_val_inv in H as (w5 & t11 & l & t12 & Hrows & H & _).
  pose proof (rows_count fuel sx sy s _ _ _ _ _ _ _ Hrows I _ eq_refl) as Hc.
  rewrite bind_read_stop in H. cbv zeta in H.
  apply log_first_inv in H as (t13 & H & _).
  destruct (stop_imaging (app w5) || o_stop (E (clock w5))) eqn:Eb.
  { cbn [negb] in H. rewrite bind_status, modify_run in H.
    unfold log_first in H. inversion H; subst. fields. discriminate. }
  apply orb_false_iff in Eb as [Eb _].
  cbn [negb] in H. rewrite bind_status, modify_run in H.
  unfold log_first in H. inversion H; subst. fields.
  rewrite (Hc Eb). cbn [image_count]. rewrite Z.add_0_l. reflexivity.
Qed.

Lemma completed_sequence_counts_cells_witness :
  status_var
    (app (fst (fst (_imaging_thread 3 0 0 demo_steps demo_env demo_world))))
  = "Imaging sequence complete - 4 positions captured"%string.
Proof.
  refine (proj1 (completed_sequence_counts_cells demo_env 3 0 0 demo_steps
                   demo_world _ _ _ _ _)).
  - vm_compute. reflexivity.
  - vm_compute. reflexivity.
  - vm_compute. repeat constructor.
Defined.

(** * Starting a sequence *)

(** X22: one sequence at a time, started with the stop flag clear.
    [start_imaging_sequence] starts the thread only on a confirmed request
    with gantry and camera connected, no sequence running, a start position
    set and a plan stored; it then clears the stop flag, also one left set
    by an earlier stop, and sets the imaging flag, so that a second request
    starts nothing. A request that starts nothing leaves both flags as they
    were; the only exception that can leave the method is the file
    system's. *)
Theorem one_sequence_at_a_time (confirmed : bool) (E : env) (w w' : world)
    (t : list event) (r : result bool) :
  start_imaging_sequence confirmed E w = (w', t, r) ->
  (r = Val true ->
   confirmed = true /\ connected (app w) = true /\
   camera_connected (app w) = true /\ is_imaging (app w) = false /\
   start_x (app w) <> None /\ start_y (app w) <> None /\
   grid (app w) <> None /\
   is_imaging (app w') = true /\ stop_imaging (app w') = false /\
   forall c E', start_imaging_sequence c E' w' = (w', [], Val false)) /\
  (r <> Val true ->
   is_imaging (app w') = is_imaging (app w) /\
   stop_imaging (app w') = stop_imaging (app w)) /\
  (forall msg, r = Exc msg -> t = [Makedirs (Some msg)]).
Proof.
  unfold start_imaging_sequence. rewrite bind_get.
  destruct (connected (app w)) eqn:Hc; cbn [negb orb];
    [| intros H; inversion H; subst; repeat split; congruence].
  destruct (is_imaging (app w)) eqn:Hi; cbn [orb];
    [intros H; inversion H; subst; repeat split; congruence |].
  destruct (camera_connected (app w)) eqn:Hcam; cbn [negb];
    [| intros H; inversion H; subst; repeat split; congruence].
  destruct (start_x (app w)) as [sx |] eqn:Hx;
    [| intros H; inversion H; subst; repeat split; congruence].
  destruct (start_y (app w)) as [sy |] eqn:Hy;
    [| intros H; inversion H; subst; repeat split; congruence].
  destruct (grid (app w)) as [s |] eqn:Hg;
    [| intros H; inversion H; subst; repeat split; congruence].
  destruct confirmed; cbn [negb];
    [| intros H; inversion H; subst; repeat split; congruence].
  unfold makedirs. unprim.
  destruct (o_makedirs (E (clock w))) as [msg |];
    cbv beta iota zeta; cbn [app clock];
    intros H; inversion H; subst.
  - split; [discriminate |].
    split; [intros _; cbn [app]; split; [exact Hi | reflexivity] |].
    intros msg' Hm. injection Hm as <-. reflexivity.
  - split; [| split; [congruence | discriminate]].
    intros _. repeat split; try congruence.
    intros c E'. fields. rewrite Hc. reflexivity.
Qed.

Lemma one_sequence_at_a_time_witness :
  stop_imaging ready_gui = true /\
  stop_imaging
    (app (fst (fst (start_imaging_sequence true calm_env
                      {| app := ready_gui; clock := 0 |})))) = false /\
  start_imaging_sequence true calm_env
    (fst (fst (start_imaging_sequence true calm_env
                 {| app := ready_gui; clock := 0 |})))
  = (fst (fst (start_imaging_sequence true calm_env
                 {| app := ready_gui; clock := 0 |})), [], Val false).
Proof.
  split; [reflexivity |].
  destruct (proj1 (one_sequence_at_a_time true calm_env
                     {| app := ready_gui; clock := 0 |} _ _ _ (run_eta _)))
    as (_ & _ & _ & _ & _ & _ & _ & _ & Hs & Hagain).
  - vm_compute. reflexivity.
  - split; [exact Hs | apply Hagain].
Defined.

(** X23: the step size is taken as it is entered. [update_step_size]
    stores any integer, zero and negative ones too, and an entry that is
    no integer leaves the step size as it was; with the step size [n] the
    right arrow commands the stored x plus [n], so that a negative step
    size turns the arrows around. *)
Theorem step_size_is_not_validated (n : Z) (E : env) (w : world) :
  connected (app w) = true ->
  blocked (app w) n 0 = false ->
  gantry_commands
    (snd (fst (move_right E {| app := update_step_size (Some n) (app w);
                               clock := clock w |})))
  = [PA (current_x (app w) + n) (current_y (app w))] /\
  step_size (update_step_size None (app w)) = step_size (app w).
Proof.
  intros Hc Hb. split; [| reflexivity].
  unfold move_right. rewrite bind_get. cbn [app].
  destruct (move_gantry_commands E
              {| app := update_step_size (Some n) (app w); clock := clock w |}
              (step_size (update_step_size (Some n) (app w))) 0)
    as (w' & t & Hrun & Ht).
  rewrite Hrun. cbn [fst snd]. rewrite Ht. cbn [app].
  change (connected (update_step_size (Some n) (app w)))
    with (connected (app w)).
  change (blocked (update_step_size (Some n) (app w))
                  (step_size (update_step_size (Some n) (app w))) 0)
    with (blocked (app w) n 0).
  rewrite Hc, Hb. cbn [negb andb].
  change (step_size (update_step_size (Some n) (app w))) with n.
  change (current_x (update_step_size (Some n) (app w)))
    with (current_x (app w)).
  change (current_y (update_step_size (Some n) (app w)))
    with (current_y (app w)).
  rewrite Z.add_0_r. reflexivity.
Qed.

Lemma step_size_is_not_validated_witness :
  gantry_commands
    (snd (fst (move_right calm_env
                 {| app := update_step_size (Some (-700)) demo_gui;
                    clock := 0 |})))
  = [PA (0 + -700) 0].
Proof.
  exact (proj1 (step_size_is_not_validated (-700) calm_env demo_world
                  eq_refl eq_refl)).
Defined.

(** * Waiting for the user *)

Lemma bind_read_waiting {A} (k : bool -> M A) (E : env) (w : world) :
  bind read_waiting k E w =
  let b := waiting_for_photo (app w) && negb (o_continue (E (clock w))) in
  k b E {| app := set_waiting_for_photo b (app w); clock := S (clock w) |}.
Proof.
  unfold read_waiting, bind, get, modify, observe, ret. cbn [app clock].
  destruct (k _ E _) as [[w2 t2] r]. reflexivity.
Qed.

(** X24: the wait for Continue commands nothing. Its log holds reads of
    the stop flag and sleeps of 100 ms only, it never raises, and it ends
    only when Continue was pressed or the stop flag is set. *)
Theorem confirmation_wait_is_quiet (fuel : nat) (E : env) (w w' : world)
    (t : list event) (r : result unit) :
  wait_for_confirmation fuel E w = (w', t, r) ->
  Forall (fun e => e = Sleep 100 \/ exists b, e = StopFlag b) t /\
  (forall msg, r <> Exc msg) /\
  (r = Val tt ->
   waiting_for_photo (app w') = false \/ stop_imaging (app w') = true).
Proof.
  revert w w' t r. induction fuel as [| fuel IH]; intros w w' t r H.
  - inversion H; subst. repeat split; [constructor | discriminate..].
  - cbn [wait_for_confirmation] in H.
    rewrite bind_read_waiting in H. cbv zeta in H.
    destruct (waiting_for_photo (app w) && negb (o_continue (E (clock w))));
      cbn [negb] in H.
    2:{ rewrite ret_run in H. inversion H; subst.
        repeat split; [constructor | discriminate |].
        intros _. left. reflexivity. }
    rewrite bind_read_stop in H. cbv zeta in H.
    apply log_first_inv in H as (t0 & H & ->). fields.
    assert (Hflag : forall b,
               StopFlag b = Sleep 100 \/ exists b', StopFlag b = StopFlag b')
      by (intros b; right; exists b; reflexivity).
    destruct (stop_imaging (app w) || o_stop (E (S (clock w)))).
    { rewrite ret_run in H. inversion H; subst.
      split; [constructor; [apply Hflag | constructor] |].
      split; [discriminate |].
      intros _. right. reflexivity. }
    rewrite bind_sleep in H. apply log_first_inv in H as (t1 & H & ->).
    destruct (IH _ _ _ _ H) as (Hq & Hn & Hv).
    split; [| split; assumption].
    constructor; [apply Hflag |]. constructor; [left; reflexivity | exact Hq].
Qed.

Lemma confirmation_wait_is_quiet_witness :
  snd (fst (wait_for_confirmation 3 continue_env
              {| app := set_waiting_for_photo true demo_gui; clock := 0 |}))
  = [StopFlag false; Sleep 100] /\
  (waiting_for_photo
     (app (fst (fst (wait_for_confirmation 3 continue_env
                       {| app := set_waiting_for_photo true demo_gui;
                          clock := 0 |})))) = false \/
   stop_imaging
     (app (fst (fst (wait_for_confirmation 3 continue_env
                       {| app := set_waiting_for_photo true demo_gui;
                          clock := 0 |})))) = true).
Proof.
  split; [vm_compute; reflexivity |].
  apply (proj2 (proj2 (confirmation_wait_is_quiet 3 continue_env
                         {| app := set_waiting_for_photo true demo_gui;
                            clock := 0 |} _ _ _ (run_eta _)))).
  vm_compute. reflexivity.
Defined.

(** * Homing *)

Lemma GCommand_val (c : gcmd) (E : env) (w w' : world) (t : list event)
    (reply : string) :
  GCommand c E w = (w', t, Val reply) ->
  t = [Gantry c (inl reply)] /\
  w' = {| app := app w; clock := S (clock w) |}.
Proof.
  unfold GCommand. unprim.
  destruct (o_gantry (E (clock w))) as [a | msg];
    cbv beta iota zeta; intros H; inversion H; subst.
  split; reflexivity.
Qed.

Lemma wait_for_rest_settles (fuel : nat) (last_pos : string) (E : env)
    (w w' : world) (t : list event) :
  wait_for_rest fuel last_pos E w = (w', t, Val tt) ->
  connected (app w) = true ->
  settling last_pos t /\ app w' = app w.
Proof.
  revert last_pos w t. induction fuel as [| fuel IH]; intros last_pos w t H Hc;
    cbn [wait_for_rest] in H.
  - discriminate.
  - rewrite bind_get, Hc in H. cbn [negb] in H.
    rewrite bind_GCommand in H.
    destruct (o_gantry (E (clock w))) as [reply | msg]; [| discriminate].
    apply log_first_inv in H as (t0 & H & ->).
    destruct (String.eqb reply last_pos) eqn:Er.
    + apply String.eqb_eq in Er. subst reply.
      rewrite ret_run in H. inversion H; subst.
      split; [constructor | reflexivity].
    + apply String.eqb_neq in Er.
      rewrite bind_sleep in H. apply log_first_inv in H as (t1 & H & ->).
      destruct (IH _ _ _ H Hc) as [Hs Ha].
      split; [constructor; assumption | exact Ha].
Qed.

Lemma pending_wait_for_rest (fuel : nat) (last_pos : string) :
  pending gantry_failed (wait_for_rest fuel last_pos).
Proof.
  revert last_pos. induction fuel as [| fuel IH]; intros last_pos;
    cbn [wait_for_rest].
  - apply pending_out_of_fuel.
  - apply pending_get; intros g.
    destruct (negb (connected g)); [apply pending_ret |].
    apply pending_bind; [apply pending_GCommand | intros pos].
    destruct (String.eqb pos last_pos); [apply pending_ret |].
    apply pending_bind; [apply calm_pending, calm_sleep | intros _].
    apply IH.
Qed.

Lemma pending_home_steps (fuel : nat) :
  pending gantry_failed
    (GCommand (SP 50000 100000) ;;
     GCommand (PR 100000 200000) ;;
     GCommand AM_HM ;;
     wait_for_rest fuel "" ;;
     GCommand AM_PT_DP0 ;;
     status "Homing complete").
Proof.
  do 3 (apply pending_bind; [apply pending_GCommand | intros _]).
  apply pending_bind; [apply pending_wait_for_rest | intros _].
  apply pending_bind; [apply pending_GCommand | intros _].
  apply calm_pending, calm_status.
Qed.

(** X25: homing is declared complete only after the gantry was seen at
    rest. In a run of [_home_thread] on a connected gantry in which no
    command failed, the speed, the relative move by (100000, 200000) and
    the homing command are sent in this order, the position is then
    queried until a reply is the reply of the time before (the first one
    is compared with the empty text), and only then the position is
    zeroed and "Homing complete" is shown. *)
Theorem homing_waits_for_rest (fuel : nat) (E : env) (w w' : world)
    (t : list event) :
  _home_thread fuel E w = (w', t, Val tt) ->
  connected (app w) = true ->
  Forall gantry_ok t ->
  exists a b c d tw,
    t = [Gantry (SP 50000 100000) (inl a); Gantry (PR 100000 200000) (inl b);
         Gantry AM_HM (inl c)]
        ++ tw ++ [Gantry AM_PT_DP0 (inl d); Status "Homing complete"] /\
    settling "" tw /\
    status_var (app w') = "Homing complete"%string.
Proof.
  intros H Hc Hok. unfold _home_thread in H.
  apply catch_inv in H as [(w1 & t1 & msg & t2 & H1 & H2 & ->) | (H & _)].
  { exfalso.
    pose proof (pending_home_steps fuel _ _ _ _ _ H1)
      as (t0 & e & -> & [c ->] & _).
    apply Forall_app in Hok as [Hok _].
    apply Forall_app in Hok as [_ Hok]. inversion Hok; subst.
    assumption. }
  apply bind_val_inv in H as (w1 & t1 & a & t2 & H1 & H & ->).
  apply GCommand_val in H1 as [-> ->].
  apply bind_val_inv in H as (w2 & t3 & b & t4 & H2 & H & ->).
  apply GCommand_val in H2 as [-> ->].
  apply bind_val_inv in H as (w3 & t5 & c & t6 & H3 & H & ->).
  apply GCommand_val in H3 as [-> ->].
  apply bind_val_inv in H as (w4 & tw & [] & t7 & Hw & H & ->).
  apply wait_for_rest_settles in Hw as [Hs Ha]; [| exact Hc].
  apply bind_val_inv in H as (w5 & t8 & d & t9 & H5 & H & ->).
  apply GCommand_val in H5 as [-> ->].
  inversion H; subst.
  exists a, b, c, d, tw. split; [reflexivity |]. split; [exact Hs |].
  reflexivity.
Qed.

Lemma homing_waits_for_rest_witness :
  exists a b c d tw,
    snd (fst (_home_thread 5 homing_env demo_world))
    = [Gantry (SP 50000 100000) (inl a); Gantry (PR 100000 200000) (inl b);
       Gantry AM_HM (inl c)]
      ++ tw ++ [Gantry AM_PT_DP0 (inl d); Status "Homing complete"] /\
    settling "" tw /\
    status_var (app (fst (fst (_home_thread 5 homing_env demo_world))))
    = "Homing complete"%string.
Proof.
  apply (homing_waits_for_rest 5 homing_env demo_world).
  - vm_compute. reflexivity.
  - reflexivity.
  - vm_compute. repeat constructor.
Defined.

Lemma obeys_wait_for_rest (Inv : gui -> Prop) (fuel : nat)
    (last_pos : string) :
  obeys Inv (fun _ => True) (wait_for_rest fuel last_pos).
Proof.
  revert last_pos. induction fuel as [| fuel IH]; intros last_pos;
    cbn [wait_for_rest].
  - apply obeys_out_of_fuel.
  - apply obeys_get; intros g _.
    destruct (negb (connected g)); [apply obeys_ret |].
    apply obeys_bind; [apply obeys_GCommand; auto | intros pos].
    destruct (String.eqb pos last_pos); [apply obeys_ret |].
    apply obeys_bind; [apply obeys_sleep; auto | intros _].
    apply IH.
Qed.

Lemma home_thread_keeps_setup (fuel : nat) (E : env) (w w' : world)
    (t : list event) (r : result unit) :
  _home_thread fuel E w = (w', t, r) -> same_setup (app w) (app w').
Proof.
  intros H.
  assert (Hst : forall x, obeys (same_setup (app w)) (fun _ => True) (status x))
    by (intros x; apply obeys_status; [auto | intros ? g Hg; exact Hg]).
  cut (obeys (same_setup (app w)) (fun _ => True) (_home_thread fuel)).
  { intros Hall. refine (proj1 (Hall E w w' t r H _)). repeat split. }
  unfold _home_thread. apply obeys_catch; [| intros msg; apply Hst].
  do 3 (apply obeys_bind; [apply obeys_GCommand; auto | intros _]).
  apply obeys_bind; [apply obeys_wait_for_rest | intros _].
  apply obeys_bind; [apply obeys_GCommand; auto | intros _].
  apply Hst.
Qed.

(** X26: homing never lets an exception out, and a command that fails
    ends it: the failed command is followed by the status "Homing failed"
    with the text of the exception and by nothing else, so that the
    position is not zeroed after a failure. Nothing is tried again. *)
Theorem homing_failure_is_final (fuel : nat) (E : env) (w w' : world)
    (t : list event) (r : result unit) :
  _home_thread fuel E w = (w', t, r) ->
  (forall msg, r <> Exc msg) /\
  (forall t1 c msg t2,
      t = t1 ++ Gantry c (inr msg) :: t2 ->
      t2 = [Status ("Homing failed: " ++ msg)] /\
      Forall gantry_ok t1 /\ r = Val tt /\
      status_var (app w') = ("Homing failed: " ++ msg)%string).
Proof.
  intros H. unfold _home_thread in H.
  apply catch_inv in H as [(w1 & t1 & msg & t2 & H1 & H2 & ->) | (H1 & Hn)].
  - pose proof (pending_home_steps fuel _ _ _ _ _ H1)
      as (t0 & e & -> & [c0 ->] & [Hg Hr]).
    inversion H2; subst. split; [discriminate |].
    intros t1' c msg' t2' Heq. rewrite <- app_assoc in Heq.
    cbn [List.app] in Heq.
    destruct (first_failure_unique _ _ _ _ _ _ Heq Hg) as (<- & Hx & <-);
      [intros F; exact F | repeat constructor | intros F; exact F |].
    inversion Hx; subst. auto.
  - split; [exact Hn |].
    intros t1 c msg t2 ->. exfalso.
    pose proof (pending_home_steps fuel _ _ _ _ _ H1) as Hc.
    destruct r as [a | msg' |].
    + destruct Hc as [Hc _]. apply Forall_app in Hc as [_ Hc].
      inversion Hc; subst. assumption.
    + exact (Hn msg' eq_refl).
    + destruct Hc as [Hc _]. apply Forall_app in Hc as [_ Hc].
      inversion Hc; subst. assumption.
Qed.

Lemma homing_failure_is_final_witness :
  snd (fst (_home_thread 5 unreachable_env demo_world))
  = [Gantry (SP 50000 100000) (inr "no response"%string);
     Status "Homing failed: no response"] /\
  snd (_home_thread 5 unreachable_env demo_world) = Val tt.
Proof.
  destruct (proj2 (homing_failure_is_final 5 unreachable_env demo_world
                     _ _ _ (run_eta _))
                  [] (SP 50000 100000) "no response"%string
                  [Status "Homing failed: no response"])
    as (_ & _ & Hr & _).
  - vm_compute. reflexivity.
  - split; [vm_compute; reflexivity | exact Hr].
Defined.

(** X27: homing leaves the stored position stale. [_home_thread] zeroes
    the controller but writes neither [current_x] nor [current_y]: a
    manual move made after it, before the poll of the position read the
    new position back, still starts from the position stored before the
    homing. *)
Theorem homing_leaves_position_stale (fuel : nat) (E : env) (w w' : world)
    (t : list event) (dx dy : Z) :
  _home_thread fuel E w = (w', t, Val tt) ->
  connected (app w) = true ->
  blocked (app w) dx dy = false ->
  current_x (app w') = current_x (app w) /\
  current_y (app w') = current_y (app w) /\
  gantry_commands (snd (fst ((_home_thread fuel ;; move_gantry dx dy) E w)))
  = gantry_commands t
    ++ [PA (current_x (app w) + dx) (current_y (app w) + dy)].
Proof.
  intros H Hc Hb.
  pose proof (home_thread_keeps_setup fuel E w w' t _ H)
    as (Hc' & _ & _ & _ & _ & Hx & Hy & _ & _ & Hxl & Hyl & _).
  split; [exact Hx |]. split; [exact Hy |].
  rewrite (bind_val _ _ _ _ _ _ _ H).
  destruct (move_gantry_commands E w' dx dy) as (w2 & t2 & Hrun & Ht).
  rewrite Hrun. cbn [fst snd].
  unfold gantry_commands at 1. rewrite flat_map_app.
  fold (gantry_commands t). fold (gantry_commands t2).
  rewrite Ht. unfold blocked. rewrite Hc', Hx, Hy, Hxl, Hyl.
  fold (blocked (app w) dx dy). rewrite Hc, Hb. reflexivity.
Qed.

Lemma homing_leaves_position_stale_witness :
  gantry_commands
    (snd (fst ((_home_thread 5 ;; move_gantry 5000 0) homing_env
                 {| app := set_current 1000000 0 demo_gui; clock := 0 |})))
  = gantry_commands
      (snd (fst (_home_thread 5 homing_env
                   {| app := set_current 1000000 0 demo_gui; clock := 0 |})))
    ++ [PA (1000000 + 5000) (0 + 0)].
Proof.
  refine (proj2 (proj2 (homing_leaves_position_stale 5 homing_env
                          {| app := set_current 1000000 0 demo_gui;
                             clock := 0 |} _ _ 5000 0 _ eq_refl eq_refl))).
  vm_compute. reflexivity.
Defined.

(** * Arrival *)

Lemma arrives_after_next (E : env) (target : string) (c k : nat) :
  arrives_after E target c (S k) -> arrives_after E target (S (S c)) k.
Proof.
  intros (Hs & Hr & Ht). split; [| split].
  - intros i Hi.
    replace (S (S c) + 2 * i)%nat with (c + 2 * S i)%nat by lia.
    apply Hs. lia.
  - intros i Hi.
    replace (S (S c) + 2 * i + 1)%nat with (c + 2 * S i + 1)%nat by lia.
    apply Hr. lia.
  - replace (S (S c) + 2 * k + 1)%nat with (c + 2 * S k + 1)%nat by lia.
    exact Ht.
Qed.

(** X28: the wait for the position ends when the gantry arrives, and
    takes a quarter of a second a query that came too early. If the stop
    is not pressed and the gantry answers [k] queries with another text and
    the next one with the text of the target, the loop returns [True]
    after [k + 1] queries and [k] sleeps of 250 ms, with the flag still
    clear. *)
Theorem arrival_after_k_polls (E : env) (target : string) (k fuel : nat)
    (w : world) :
  stop_imaging (app w) = false ->
  arrives_after E target (clock w) k ->
  (k < fuel)%nat ->
  exists w' t,
    wait_for_position fuel target E w = (w', t, Val true) /\
    slept t = 250 * Z.of_nat k /\
    gantry_commands t = repeat RP (S k) /\
    clock w' = (clock w + 2 * k + 2)%nat /\
    stop_imaging (app w') = false.
Proof.
  revert fuel w. induction k as [| k IH]; intros fuel w Hw Ha Hf;
    (destruct fuel as [| fuel]; [lia |]);
    cbn [wait_for_position]; rewrite bind_read_stop; cbv zeta;
    pose proof (proj1 Ha 0%nat (Nat.le_0_l _)) as Hs;
    replace (clock w + 2 * 0)%nat with (clock w) in Hs by lia;
    rewrite Hw, Hs; cbn [orb]; rewrite bind_GCommand; fields.
  - destruct Ha as (_ & _ & Ht).
    replace (clock w + 2 * 0 + 1)%nat with (S (clock w)) in Ht by lia.
    rewrite Ht, String.eqb_refl, ret_run. unfold log_first.
    eexists _, _. split; [reflexivity |].
    repeat split. cbn [clock]. lia.
  - destruct (proj1 (proj2 Ha) 0%nat (Nat.lt_0_succ _))
      as (reply & Hr & Hne).
    replace (clock w + 2 * 0 + 1)%nat with (S (clock w)) in Hr by lia.
    rewrite Hr. apply String.eqb_neq in Hne. rewrite Hne, bind_sleep.
    destruct (IH fuel
                {| app := set_stop_imaging false (app w);
                   clock := S (S (clock w)) |})
      as (w' & t & Hrun & Hsl & Hg & Hc & Hst).
    + reflexivity.
    + apply arrives_after_next. exact Ha.
    + lia.
    + rewrite Hrun. unfold log_first.
      exists w', (StopFlag false :: Gantry RP (inl reply) :: Sleep 250 :: t).
      split; [reflexivity |].
      split; [cbn [slept fold_right]; fold (slept t); rewrite Hsl; lia |].
      split; [cbn [gantry_commands flat_map List.app];
              fold (gantry_commands t); rewrite Hg; reflexivity |].
      split; [rewrite Hc; cbn [clock]; lia | exact Hst].
Qed.

Lemma arrival_after_k_polls_witness :
  exists w' t,
    wait_for_position 3 "10, 0" approaching_env demo_world = (w', t, Val true) /\
    slept t = 250 * Z.of_nat 2 /\
    gantry_commands t = repeat RP 3 /\
    clock w' = (clock demo_world + 2 * 2 + 2)%nat /\
    stop_imaging (app w') = false.
Proof.
  apply (arrival_after_k_polls approaching_env "10, 0" 2 3 demo_world).
  - reflexivity.
  - split; [| split].
    + intros i _. reflexivity.
    + intros i Hi. exists "5, 0"%string.
      split; [| discriminate].
      destruct i as [| [| i]]; [reflexivity | reflexivity | lia].
    + reflexivity.
  - lia.
Defined.
